(** * A shallow embedding of the PostgreSQL frontend protocol engine

    The development follows the two Go packages of the repository:

    - [network]: the protocol engine [PgIO] (framing, handshake,
      simple and extended query flows, cancellation, termination);
    - [driver]: the statement layer ([NewPgStmt], [PgStmt.Exec],
      [PgStmt.Query], [PgStmt.Close]) and its per-connection cache.

    Go strings are [string], wire data is [list byte], fixed-width unsigned
    integers are [Z] with the wrap-around written out.  The socket is a
    record that holds the bytes the peer will still deliver, the log of
    the buffers handed to [Write] and the outcome of the coming writes.

    The frame codec of the repository (the message builder and the read
    cursor) is not among the sources at hand; its definitions follow the
    specification and say so.  A cursor read that the payload cannot
    serve has no result, and neither has the operation that makes it.

    The file has three parts: the two packages, the vocabulary in which
    the properties are stated together with the example sessions, and
    the lemmas and theorems. *)

From Stdlib Require Import ZArith List Lia Bool.
From Stdlib Require Import Strings.String Strings.Ascii Strings.Byte.
From stdpp Require Import gmap strings.
Import ListNotations.

Local Open Scope Z_scope.
Local Open Scope list_scope.

(** ** Bytes and big-endian integers *)

Definition Z_of_byte (b : byte) : Z := Z.of_N (Byte.to_N b).

Definition byte_of_Z (z : Z) : byte :=
  match Byte.of_N (Z.to_N (z mod 256)) with
  | Some b => b
  | None => x00
  end.

Definition bytes_of (s : string) : list byte := list_byte_of_string s.

(** [encoding/binary]'s [BigEndian]. *)
Module BigEndian.

Definition Uint16 (b : list byte) : Z :=
  match b with
  | b0 :: b1 :: _ => Z.lor (Z_of_byte b1) (Z.shiftl (Z_of_byte b0) 8)
  | _ => 0
  end.

Definition Uint32 (b : list byte) : Z :=
  match b with
  | b0 :: b1 :: b2 :: b3 :: _ =>
      Z.lor (Z.lor (Z.lor (Z_of_byte b3) (Z.shiftl (Z_of_byte b2) 8))
                   (Z.shiftl (Z_of_byte b1) 16))
            (Z.shiftl (Z_of_byte b0) 24)
  | _ => 0
  end.

Definition PutUint16 (v : Z) : list byte :=
  [byte_of_Z (Z.shiftr v 8); byte_of_Z v].

Definition PutUint32 (v : Z) : list byte :=
  [byte_of_Z (Z.shiftr v 24); byte_of_Z (Z.shiftr v 16);
   byte_of_Z (Z.shiftr v 8); byte_of_Z v].

End BigEndian.

(** ** Errors

    The values of Go's [error] interface that the engine can hand out.
    [None : option error] is the nil error. *)

Inductive error : Type :=
| io_EOF                                 (* io.EOF *)
| io_ErrUnexpectedEOF                    (* io.ErrUnexpectedEOF *)
| net_OpError (tag : nat)                (* a failed socket write *)
| ErrBadConn                             (* driver.ErrBadConn *)
| PgError (payload : list byte)          (* the error parsed from an ErrorResponse *)
| ErrAuthResponse (id : byte).           (* "unexpected authentication response: %q" *)

Definition is_nil (e : option error) : bool :=
  match e with None => true | Some _ => false end.

(** A socket-level failure, as opposed to an error reported by the server. *)
Definition socket_failure (e : error) : bool :=
  match e with
  | io_EOF | io_ErrUnexpectedEOF | net_OpError _ => true
  | _ => false
  end.

(** ** The Go library functions the engine calls

    These are functions of Go's standard library, given by their
    published definitions: MD5 as in RFC 1321, the IEEE CRC-32, the [%x]
    verb of [fmt], [strings.Split] and [strconv.Atoi]. *)

Definition u32 (z : Z) : Z := z mod 4294967296.

Module md5.

Definition K : list Z :=
  [0xd76aa478; 0xe8c7b756; 0x242070db; 0xc1bdceee;
   0xf57c0faf; 0x4787c62a; 0xa8304613; 0xfd469501;
   0x698098d8; 0x8b44f7af; 0xffff5bb1; 0x895cd7be;
   0x6b901122; 0xfd987193; 0xa679438e; 0x49b40821;
   0xf61e2562; 0xc040b340; 0x265e5a51; 0xe9b6c7aa;
   0xd62f105d; 0x02441453; 0xd8a1e681; 0xe7d3fbc8;
   0x21e1cde6; 0xc33707d6; 0xf4d50d87; 0x455a14ed;
   0xa9e3e905; 0xfcefa3f8; 0x676f02d9; 0x8d2a4c8a;
   0xfffa3942; 0x8771f681; 0x6d9d6122; 0xfde5380c;
   0xa4beea44; 0x4bdecfa9; 0xf6bb4b60; 0xbebfbc70;
   0x289b7ec6; 0xeaa127fa; 0xd4ef3085; 0x04881d05;
   0xd9d4d039; 0xe6db99e5; 0x1fa27cf8; 0xc4ac5665;
   0xf4292244; 0x432aff97; 0xab9423a7; 0xfc93a039;
   0x655b59c3; 0x8f0ccc92; 0xffeff47d; 0x85845dd1;
   0x6fa87e4f; 0xfe2ce6e0; 0xa3014314; 0x4e0811a1;
   0xf7537e82; 0xbd3af235; 0x2ad7d2bb; 0xeb86d391].

Definition shifts : list Z :=
  [7; 12; 17; 22; 7; 12; 17; 22; 7; 12; 17; 22; 7; 12; 17; 22;
   5; 9; 14; 20; 5; 9; 14; 20; 5; 9; 14; 20; 5; 9; 14; 20;
   4; 11; 16; 23; 4; 11; 16; 23; 4; 11; 16; 23; 4; 11; 16; 23;
   6; 10; 15; 21; 6; 10; 15; 21; 6; 10; 15; 21; 6; 10; 15; 21].

Definition rotl (x c : Z) : Z :=
  u32 (Z.lor (Z.shiftl x c) (Z.shiftr x (32 - c))).

Definition not32 (x : Z) : Z := Z.lxor x 0xffffffff.

(** A little-endian word of four bytes, and back. *)
Definition word_le (b : list byte) : Z :=
  match b with
  | b0 :: b1 :: b2 :: b3 :: _ =>
      Z_of_byte b0 + 256 * (Z_of_byte b1 + 256 * (Z_of_byte b2 + 256 * Z_of_byte b3))
  | _ => 0
  end.

Definition le_bytes (n : nat) (v : Z) : list byte :=
  map (fun i => byte_of_Z (Z.shiftr v (8 * Z.of_nat i))) (seq 0 n).

Fixpoint words (n : nat) (b : list byte) : list Z :=
  match n with
  | O => []
  | S n' => word_le b :: words n' (skipn 4 b)
  end.

Definition state : Type := Z * Z * Z * Z.

Definition round (M : list Z) (st : state) (i : nat) : state :=
  let '(a, b, c, d) := st in
  let '(f, g) :=
    if (i <? 16)%nat then (Z.lor (Z.land b c) (Z.land (not32 b) d), i)
    else if (i <? 32)%nat then (Z.lor (Z.land d b) (Z.land (not32 d) c), (5 * i + 1) mod 16)%nat
    else if (i <? 48)%nat then (Z.lxor (Z.lxor b c) d, (3 * i + 5) mod 16)%nat
    else (Z.lxor c (Z.lor b (not32 d)), (7 * i) mod 16)%nat in
  let f' := u32 (f + a + nth i K 0 + nth g M 0) in
  (d, u32 (b + rotl f' (nth i shifts 0)), b, c).

Definition block (st : state) (chunk : list byte) : state :=
  let '(a0, b0, c0, d0) := st in
  let '(a, b, c, d) := fold_left (round (words 16 chunk)) (seq 0 64) st in
  (u32 (a0 + a), u32 (b0 + b), u32 (c0 + c), u32 (d0 + d)).

Definition pad (msg : list byte) : list byte :=
  let n := length msg in
  let zeros := ((64 + 55 - n mod 64) mod 64)%nat in
  msg ++ [x80] ++ repeat x00 zeros ++ le_bytes 8 (8 * Z.of_nat n).

Fixpoint blocks (n : nat) (st : state) (data : list byte) : state :=
  match n with
  | O => st
  | S n' => blocks n' (block st (firstn 64 data)) (skipn 64 data)
  end.

(** The digest: [h.Write(msg); h.Sum(nil)] on a fresh hash. *)
Definition Sum (msg : list byte) : list byte :=
  let data := pad msg in
  let '(a, b, c, d) :=
    blocks (length data / 64) (0x67452301, 0xefcdab89, 0x98badcfe, 0x10325476) data in
  le_bytes 4 a ++ le_bytes 4 b ++ le_bytes 4 c ++ le_bytes 4 d.

End md5.

Module crc32.

Definition bit_step (crc : Z) : Z :=
  if Z.testbit crc 0
  then Z.lxor (Z.shiftr crc 1) 0xedb88320
  else Z.shiftr crc 1.

Definition update (crc : Z) (b : byte) : Z :=
  Nat.iter 8 bit_step (Z.lxor crc (Z_of_byte b)).

Definition ChecksumIEEE (data : list byte) : Z :=
  Z.lxor (fold_left update data 0xffffffff) 0xffffffff.

End crc32.

Module fmt.

Definition hex_digit (d : Z) : ascii :=
  if d <? 10 then ascii_of_nat (Z.to_nat (48 + d))
  else ascii_of_nat (Z.to_nat (87 + d)).

(** [Sprintf("%x", b)] for a byte slice: two lower-case digits a byte. *)
Fixpoint hex_bytes (b : list byte) : string :=
  match b with
  | [] => EmptyString
  | c :: b' =>
      String (hex_digit (Z_of_byte c / 16))
        (String (hex_digit (Z_of_byte c mod 16)) (hex_bytes b'))
  end.

(** The digits of [v], most significant first, below [16 ^ n]. *)
Fixpoint hex_digits (n : nat) (v : Z) (acc : string) : string :=
  match n with
  | O => acc
  | S n' =>
      let acc' := String (hex_digit (v mod 16)) acc in
      if v / 16 =? 0 then acc' else hex_digits n' (v / 16) acc'
  end.

(** [Sprintf("%x", v)] for a [uint32]: no leading zeros. *)
Definition hex_uint32 (v : Z) : string := hex_digits 8 v EmptyString.

End fmt.

Module strings.

(** [Split(s, sep)] for a separator of one byte: the fields between
    the separators, one more than there are separators. *)
Fixpoint Split_go (sep : ascii) (s : string) (field : string) : list string :=
  match s with
  | EmptyString => [field]
  | String c s' =>
      if Ascii.eqb c sep then field :: Split_go sep s' EmptyString
      else Split_go sep s' (field +:+ String c EmptyString)
  end.

Definition Split (s : string) (sep : ascii) : list string :=
  Split_go sep s EmptyString.

End strings.

Module strconv.

Definition maxInt64 : Z := 9223372036854775807.
Definition minInt64 : Z := -9223372036854775808.

(** The value of a run of decimal digits, if it is one. *)
Fixpoint digits (s : string) (acc : Z) : option Z :=
  match s with
  | EmptyString => Some acc
  | String c s' =>
      let d := Z.of_nat (nat_of_ascii c) - 48 in
      if (0 <=? d) && (d <=? 9) then digits s' (acc * 10 + d) else None
  end.

(** [Atoi] on a 64-bit platform: an optional sign and decimal digits.
    The pair is the [int] and whether the error is nil; a syntax error
    comes with 0, a value out of range with the nearest bound. *)
Definition Atoi (s : string) : Z * bool :=
  let '(neg, rest) :=
    match s with
    | String "-"%char s' => (true, s')
    | String "+"%char s' => (false, s')
    | _ => (false, s)
    end in
  match rest with
  | EmptyString => (0, false)
  | _ =>
      match digits rest 0 with
      | None => (0, false)
      | Some v =>
          let n := if neg then - v else v in
          if n <? minInt64 then (minInt64, false)
          else if maxInt64 <? n then (maxInt64, false)
          else (n, true)
      end
  end.

End strconv.

(** * Package [network] *)

Module network.

(** ** Message identifiers *)

Definition identifies : Type := byte.

(** Modelled from the spec: the [Identifies] constants are declared in a
    file that is not part of the sources at hand; the values are the
    identifier bytes of section 6 of the specification. *)
Definition IdentifiesAuth : identifies := "R"%byte.
Definition IdentifiesBackendKeyData : identifies := "K"%byte.
Definition IdentifiesBindComplete : identifies := "2"%byte.
Definition IdentifiesCloseComplete : identifies := "3"%byte.
Definition IdentifiesCommandComplete : identifies := "C"%byte.
Definition IdentifiesDataRow : identifies := "D"%byte.
Definition IdentifiesErrorResponse : identifies := "E"%byte.
Definition IdentifiesNoticeResponse : identifies := "N"%byte.
Definition IdentifiesParameterDescription : identifies := "t"%byte.
Definition IdentifiesParameterStatus : identifies := "S"%byte.
Definition IdentifiesParseComplete : identifies := "1"%byte.
Definition IdentifiesReadyForQuery : identifies := "Z"%byte.
Definition IdentifiesRowDescription : identifies := "T"%byte.
Definition IdentifiesBind : identifies := "B"%byte.
Definition IdentifiesClose : identifies := "C"%byte.
Definition IdentifiesDescribe : identifies := "D"%byte.
Definition IdentifiesExecute : identifies := "E"%byte.
Definition IdentifiesParse : identifies := "P"%byte.
Definition IdentifiesPasswordMessage : identifies := "p"%byte.
Definition IdentifiesQuery : identifies := "Q"%byte.
Definition IdentifiesSync : identifies := "S"%byte.
Definition IdentifiesTerminate : identifies := "X"%byte.

(** ** Messages

    [Content] holds the four bytes of the length field followed by the
    body: [receivePgMsg] peeks the length and then reads [Len] bytes
    from the same place, and sets [Position] to 4; [StartUp] and
    [CancelRequest] write [Content] as it is after [encode]. *)

Record PgMessage : Type := mkPgMessage {
  Identifies : identifies;
  Len : Z;
  Position : nat;
  Content : list byte
}.

(** Modelled from the spec: the column description of section 3 (name,
    table OID, attribute number, type OID, type size, type modifier,
    format code); its declaration is in the missing codec file. *)
Record PgColumn : Type := mkPgColumn {
  Name : string;
  TableOid : Z;
  Index : Z;
  TypeOid : Z;
  TypeLen : Z;
  TypeModifier : Z;
  Format : Z
}.

(** *** Building a message

    Modelled from the spec: [NewPgMessage], the [add...] writers and
    [encode] belong to the frame codec, whose file is missing.  Section
    4.1: the framed form is the identifier, the length (4 plus the size
    of the body, big-endian), and the body; integers are big-endian and
    strings are NUL-terminated. *)

Definition NewPgMessage (id : identifies) : PgMessage :=
  mkPgMessage id 0 0 [x00; x00; x00; x00].

Definition addBytes (m : PgMessage) (b : list byte) : PgMessage :=
  mkPgMessage (Identifies m) (Len m) (Position m) (Content m ++ b).

Definition addByte (m : PgMessage) (b : byte) : PgMessage :=
  addBytes m [b].

Definition addInt16 (m : PgMessage) (n : Z) : PgMessage :=
  addBytes m (BigEndian.PutUint16 n).

Definition addInt32 (m : PgMessage) (n : Z) : PgMessage :=
  addBytes m (BigEndian.PutUint32 n).

Definition addString (m : PgMessage) (s : string) : PgMessage :=
  addBytes m (bytes_of s ++ [x00]).

(** The body of a message under construction. *)
Definition body (m : PgMessage) : list byte := skipn 4 (Content m).

(** [Content] once [encode] has filled in the length. *)
Definition encode_content (m : PgMessage) : list byte :=
  BigEndian.PutUint32 (Z.of_nat (length (Content m))) ++ body m.

Definition encode (m : PgMessage) : list byte :=
  Identifies m :: encode_content m.

(** *** The read cursor

    Modelled from the spec: the cursor methods ([int16], [int32],
    [byte], [string], [bytes], [columns]) are in the missing codec
    file.  Section 3: the cursor starts past the length field and never
    reads beyond the payload; a read that the payload cannot serve has
    no result here ([None]). *)

Definition advance (m : PgMessage) (n : nat) : PgMessage :=
  mkPgMessage (Identifies m) (Len m) (Position m + n)%nat (Content m).

Definition bytes (m : PgMessage) (n : Z) : option (list byte * PgMessage) :=
  let k := Z.to_nat n in
  if (Position m + k <=? length (Content m))%nat
  then Some (firstn k (skipn (Position m) (Content m)), advance m k)
  else None.

Definition int16 (m : PgMessage) : option (Z * PgMessage) :=
  '(b, m') ← bytes m 2; Some (BigEndian.Uint16 b, m').

Definition int32 (m : PgMessage) : option (Z * PgMessage) :=
  '(b, m') ← bytes m 4; Some (BigEndian.Uint32 b, m').

Definition byte (m : PgMessage) : option (Byte.byte * PgMessage) :=
  '(b, m') ← bytes m 1;
  match b with
  | c :: _ => Some (c, m')
  | [] => None
  end.

(** The bytes before the first NUL. *)
Fixpoint until_nul (l : list Byte.byte) : option (list Byte.byte) :=
  match l with
  | [] => None
  | c :: l' =>
      if Byte.eqb c x00 then Some []
      else s ← until_nul l'; Some (c :: s)
  end.

Definition string (m : PgMessage) : option (String.string * PgMessage) :=
  s ← until_nul (skipn (Position m) (Content m));
  Some (string_of_list_byte s, advance m (S (length s))).

Definition column (m : PgMessage) : option (PgColumn * PgMessage) :=
  '(name, m1) ← string m;
  '(table, m2) ← int32 m1;
  '(idx, m3) ← int16 m2;
  '(oid, m4) ← int32 m3;
  '(size, m5) ← int16 m4;
  '(modifier, m6) ← int32 m5;
  '(format, m7) ← int16 m6;
  Some (mkPgColumn name table idx oid size modifier format, m7).

Fixpoint columns_loop (n : nat) (m : PgMessage) (cols : list PgColumn)
  : option (list PgColumn) :=
  match n with
  | O => Some cols
  | S n' => '(c, m') ← column m; columns_loop n' m' (cols ++ [c])
  end.

Definition columns (m : PgMessage) : option (list PgColumn) :=
  '(n, m') ← int16 m; columns_loop (Z.to_nat n) m' [].

(** Modelled from the spec: [ParseError] is in the missing codec file.
    Section 7: the structured error is parsed from the fields of the
    ErrorResponse; it is kept here as the payload it is parsed from. *)
Definition ParseError (m : PgMessage) : error :=
  PgError (skipn 4 (Content m)).

(** ** The socket and the session

    [inbound] is what the peer will still deliver before the stream
    ends; the buffered reader of the source reads from it.  [written]
    logs the buffers handed to [Write], in order, and [wfaults] gives the
    outcome of the coming [Write] calls: success, or the tag of the
    failure (success once it is exhausted).
    [received] is a history of the frames the reader has completed; no
    operation reads it: it is there to state properties of the wire. *)

Record Conn : Type := mkConn {
  inbound : list Byte.byte;
  received : list PgMessage;
  written : list (list Byte.byte);
  wfaults : list (option nat);
  closed : bool
}.

(** The part of [helper.DataSourceName] that the engine reads. *)
Record DataSourceName : Type := mkDataSourceName {
  Password : String.string;
  DsnParameter : gmap String.string String.string;
  SSLMode : String.string
}.

Record PgIO : Type := mkPgIO {
  dsn : DataSourceName;
  conn : Conn;
  txStatus : Byte.byte;
  serverPid : Z;
  ServerConf : gmap String.string String.string;
  backendKey : Z;
  Location : option String.string;
  IOError : option error
}.

Definition set_conn (pi : PgIO) (c : Conn) : PgIO :=
  mkPgIO (dsn pi) c (txStatus pi) (serverPid pi) (ServerConf pi)
         (backendKey pi) (Location pi) (IOError pi).

Definition set_IOError (pi : PgIO) (e : option error) : PgIO :=
  mkPgIO (dsn pi) (conn pi) (txStatus pi) (serverPid pi) (ServerConf pi)
         (backendKey pi) (Location pi) e.

Definition set_txStatus (pi : PgIO) (b : Byte.byte) : PgIO :=
  mkPgIO (dsn pi) (conn pi) b (serverPid pi) (ServerConf pi)
         (backendKey pi) (Location pi) (IOError pi).

Definition NewPgIO (d : DataSourceName) (c : Conn) : PgIO :=
  mkPgIO d c x00 0 ∅ 0 None None.

(** *** [net.Conn] and [bufio.Reader] *)

(** [Write]: the buffer is logged; the write fails on a closed socket
    and when the schedule says so. *)
Definition conn_Write (raw : list Byte.byte) (c : Conn) : option error * Conn :=
  let log := written c ++ [raw] in
  if closed c
  then (Some (net_OpError 0), mkConn (inbound c) (received c) log (wfaults c) true)
  else match wfaults c with
       | [] => (None, mkConn (inbound c) (received c) log [] false)
       | None :: rest => (None, mkConn (inbound c) (received c) log rest false)
       | Some tag :: rest =>
           (Some (net_OpError tag), mkConn (inbound c) (received c) log rest false)
       end.

(** [Close]: nothing more is read from a closed socket. *)
Definition conn_Close (c : Conn) : Conn :=
  mkConn [] (received c) (written c) (wfaults c) true.

Definition set_inbound (c : Conn) (l : list Byte.byte) : Conn :=
  mkConn l (received c) (written c) (wfaults c) (closed c).

(** The history of completed frames grows by [m]. *)
Definition record_msg (c : Conn) (m : PgMessage) : Conn :=
  mkConn (inbound c) (received c ++ [m]) (written c) (wfaults c) (closed c).

Definition ReadByte (c : Conn) : (Byte.byte + error) * Conn :=
  match inbound c with
  | [] => (inr io_EOF, c)
  | b :: rest => (inl b, set_inbound c rest)
  end.

Definition Peek (n : nat) (c : Conn) : list Byte.byte + error :=
  if (n <=? length (inbound c))%nat
  then inl (firstn n (inbound c))
  else inr io_EOF.

Definition ReadFull (n : nat) (c : Conn) : (list Byte.byte + error) * Conn :=
  if (n <=? length (inbound c))%nat
  then (inl (firstn n (inbound c)), set_inbound c (skipn n (inbound c)))
  else (inr match inbound c with
            | [] => io_EOF
            | _ :: _ => io_ErrUnexpectedEOF
            end,
        set_inbound c []).

(** *** Receiving *)

(** One frame, as both [receivePgMsg] and [receivePgMsgOnce] read it:
    the identifier, the peeked length, [Len] bytes of content.  Only a
    failed [ReadByte] sets [IOError].  A completed frame is recorded in
    the history of the socket. *)
Definition read_frame (pi : PgIO) : (PgMessage + error) * PgIO :=
  match ReadByte (conn pi) with
  | (inr e, c) => (inr e, set_IOError (set_conn pi c) (Some e))
  | (inl id, c) =>
      match Peek 4 c with
      | inr e => (inr e, set_conn pi c)
      | inl hdr =>
          let len := BigEndian.Uint32 hdr in
          match ReadFull (Z.to_nat len) c with
          | (inr e, c') => (inr e, set_conn pi c')
          | (inl content, c') =>
              let msg := mkPgMessage id len 4 content in
              (inl msg, set_conn pi (record_msg c' msg))
          end
      end
  end.

(** The loop of [receivePgMsg].  Every round takes at least the
    identifier byte from the stream, so a budget of as many rounds as
    there are bytes left is never used up. *)
Fixpoint receive_loop (budget : nat) (sep : identifies)
         (ms : list PgMessage) (pi : PgIO)
  : (list PgMessage * option error) * PgIO :=
  match read_frame pi with
  | (inr e, pi') => ((ms, Some e), pi')
  | (inl msg, pi') =>
      let ms' := ms ++ [msg] in
      if Byte.eqb (Identifies msg) sep then ((ms', None), pi')
      else match budget with
           | O => ((ms', Some io_EOF), pi')
           | S budget' => receive_loop budget' sep ms' pi'
           end
  end.

Definition receivePgMsg (sep : identifies) (pi : PgIO)
  : (list PgMessage * option error) * PgIO :=
  receive_loop (length (inbound (conn pi))) sep [] pi.

Definition receivePgMsgOnce (pi : PgIO) : (PgMessage * option error) * PgIO :=
  match read_frame pi with
  | (inr e, pi') => ((mkPgMessage x00 0 0 [], Some e), pi')
  | (inl msg, pi') =>
      if Byte.eqb (Identifies msg) IdentifiesErrorResponse
      then ((msg, Some (ParseError msg)), pi')
      else ((msg, None), pi')
  end.

(** *** Sending *)

Definition send (list : list PgMessage) (pi : PgIO) : option error * PgIO :=
  let raw := concat (map encode list) in
  let '(e, c) := conn_Write raw (conn pi) in
  (e, set_IOError (set_conn pi c) e).

(** *** The digest in hex *)

Definition Md5 (s : String.string) : String.string :=
  fmt.hex_bytes (md5.Sum (bytes_of s)).

(** ** The response loops

    A [for _, v := range list] whose body reads [v] with the cursor;
    the loop has no result when a cursor read has none. *)

Fixpoint range {A : Type} (f : A -> PgMessage -> option A) (a : A)
         (list : list PgMessage) : option A :=
  match list with
  | [] => Some a
  | v :: list' => a' ← f a v; range f a' list'
  end.

(** The inner loop of the DataRow case: [n] columns, each a length
    and, unless the length is the NULL mark, that many bytes. *)
Fixpoint DataRow_loop (n : nat) (v : PgMessage)
         (rowLen : list Z) (row : list (option (list Byte.byte)))
  : option (list Z * list (option (list Byte.byte))) :=
  match n with
  | O => Some (rowLen, row)
  | S n' =>
      '(l, v1) ← int32 v;
      if l =? 4294967295
      then DataRow_loop n' v1 (rowLen ++ [l]) (row ++ [None])
      else '(b, v2) ← bytes v1 l;
           DataRow_loop n' v2 (rowLen ++ [l]) (row ++ [Some b])
  end.

Definition DataRow (v : PgMessage)
  : option (list Z * list (option (list Byte.byte))) :=
  '(length, v1) ← int16 v;
  DataRow_loop (Z.to_nat length) v1 [] [].

Definition ReadyForQuery (pi : PgIO) (v : PgMessage) : option PgIO :=
  '(b, _) ← byte v; Some (set_txStatus pi b).

(** ** QueryNoArgs

    In the results of the operations an [option] around [fieldLen] and
    [data] is the pointer of the source, [None] being nil; the cursor
    reads make the whole result an [option]. *)

Definition rowsLen : Type := list (list Z).
Definition rowsData : Type := list (list (option (list Byte.byte))).

Definition QueryNoArgs_case
           (st : list PgColumn * rowsLen * rowsData * option error * PgIO)
           (v : PgMessage)
  : option (list PgColumn * rowsLen * rowsData * option error * PgIO) :=
  let '(cols, fieldLen, data, err, pi) := st in
  if Byte.eqb (Identifies v) IdentifiesErrorResponse then
    Some (cols, fieldLen, data, Some (ParseError v), pi)
  else if Byte.eqb (Identifies v) IdentifiesDataRow then
    '(rowLen, row) ← DataRow v;
    Some (cols, fieldLen ++ [rowLen], data ++ [row], err, pi)
  else if Byte.eqb (Identifies v) IdentifiesRowDescription then
    cols' ← columns v;
    Some (cols', fieldLen, data, err, pi)
  else if Byte.eqb (Identifies v) IdentifiesReadyForQuery then
    pi' ← ReadyForQuery pi v;
    Some (cols, fieldLen, data, err, pi')
  else Some st.

Definition QueryNoArgs (query : String.string) (pi : PgIO)
  : option (list PgColumn * option rowsLen * option rowsData * option error * PgIO) :=
  let sq := addString (NewPgMessage IdentifiesQuery) query in
  match send [sq] pi with
  | (Some e, pi1) => Some ([], None, None, Some e, pi1)
  | (None, pi1) =>
      match receivePgMsg IdentifiesReadyForQuery pi1 with
      | (_, Some e, pi2) => Some ([], Some [], Some [], Some e, pi2)
      | (list, None, pi2) =>
          '(cols, fieldLen, data, err, pi3) ←
            range QueryNoArgs_case ([], [], [], None, pi2) list;
          Some (cols, Some fieldLen, Some data, err, pi3)
      end
  end.

(** ** Parse *)

Fixpoint ParameterDescription_loop (n : nat) (v : PgMessage) (parameters : list Z)
  : option (list Z) :=
  match n with
  | O => Some parameters
  | S n' => '(oid, v') ← int32 v;
            ParameterDescription_loop n' v' (parameters ++ [oid])
  end.

Definition Parse_case (st : list PgColumn * list Z * option error * PgIO)
           (v : PgMessage)
  : option (list PgColumn * list Z * option error * PgIO) :=
  let '(cols, parameters, err, pi) := st in
  if Byte.eqb (Identifies v) IdentifiesErrorResponse then
    Some (cols, parameters, Some (ParseError v), pi)
  else if Byte.eqb (Identifies v) IdentifiesParameterDescription then
    '(pn, v') ← int16 v;
    parameters' ← ParameterDescription_loop (Z.to_nat pn) v' parameters;
    Some (cols, parameters', err, pi)
  else if Byte.eqb (Identifies v) IdentifiesRowDescription then
    cols' ← columns v;
    Some (cols', parameters, err, pi)
  else if Byte.eqb (Identifies v) IdentifiesReadyForQuery then
    pi' ← ReadyForQuery pi v;
    Some (cols, parameters, err, pi')
  else Some st.

Definition Parse (name query : String.string) (pi : PgIO)
  : option (list PgColumn * list Z * option error * PgIO) :=
  let reqParse :=
    addInt16 (addString (addString (NewPgMessage IdentifiesParse) name) query) 0 in
  let reqDes :=
    addString (addByte (NewPgMessage IdentifiesDescribe) "S"%byte) name in
  match send [reqParse; reqDes; NewPgMessage IdentifiesSync] pi with
  | (Some e, pi1) => Some ([], [], Some e, pi1)
  | (None, pi1) =>
      match receivePgMsg IdentifiesReadyForQuery pi1 with
      | (_, Some e, pi2) => Some ([], [], Some e, pi2)
      | (list, None, pi2) => range Parse_case ([], [], None, pi2) list
      end
  end.

(** ** Bind and Execute *)

Section Bind.

(** Argument values and their codec ([value2bytes]) belong to the
    value encoding tables, outside the engine. *)
Context {Value : Type} (value2bytes : Value -> list Byte.byte).

(** The argument loop of [ParseExec] and [ParseQuery]: [None] is a
    nil argument. *)
Fixpoint bind_args (rBind : PgMessage) (args : list (option Value)) : PgMessage :=
  match args with
  | [] => rBind
  | None :: args' => bind_args (addInt32 rBind (-1)) args'
  | Some arg :: args' =>
      let b := value2bytes arg in
      bind_args (addBytes (addInt32 rBind (Z.of_nat (length b))) b) args'
  end.

Definition bind_message (name : String.string) (args : list (option Value)) : PgMessage :=
  let rBind := addString (NewPgMessage IdentifiesBind) EmptyString in
  let rBind := addString rBind name in
  let rBind := addInt16 rBind 0 in
  let rBind := addInt16 rBind (Z.of_nat (length args)) in
  let rBind := bind_args rBind args in
  addInt16 rBind 0.

Definition execute_message : PgMessage :=
  addInt32 (addString (NewPgMessage IdentifiesExecute) EmptyString) 0.

Definition ParseExec_case (st : Z * option error * PgIO) (v : PgMessage)
  : option (Z * option error * PgIO) :=
  let '(n, err, pi) := st in
  if Byte.eqb (Identifies v) IdentifiesErrorResponse then
    Some (n, Some (ParseError v), pi)
  else if Byte.eqb (Identifies v) IdentifiesCommandComplete then
    '(tag, _) ← string v;
    let rs := strings.Split tag " " in
    match rs with
    | [_; count] => Some (fst (strconv.Atoi count), err, pi)
    | _ => Some (n, err, pi)
    end
  else if Byte.eqb (Identifies v) IdentifiesReadyForQuery then
    pi' ← ReadyForQuery pi v;
    Some (n, err, pi')
  else Some st.

Definition ParseExec (name : String.string) (args : list (option Value)) (pi : PgIO)
  : option (Z * option error * PgIO) :=
  let rBind := bind_message name args in
  let rExec := execute_message in
  match send [rBind; rExec; NewPgMessage IdentifiesSync] pi with
  | (Some e, pi1) => Some (0, Some e, pi1)
  | (None, pi1) =>
      match receivePgMsg IdentifiesReadyForQuery pi1 with
      | (_, Some e, pi2) => Some (0, Some e, pi2)
      | (list, None, pi2) => range ParseExec_case (0, None, pi2) list
      end
  end.

Definition ParseQuery_case (st : rowsLen * rowsData * option error * PgIO)
           (v : PgMessage)
  : option (rowsLen * rowsData * option error * PgIO) :=
  let '(fieldLen, data, err, pi) := st in
  if Byte.eqb (Identifies v) IdentifiesErrorResponse then
    Some (fieldLen, data, Some (ParseError v), pi)
  else if Byte.eqb (Identifies v) IdentifiesDataRow then
    '(rowLen, row) ← DataRow v;
    Some (fieldLen ++ [rowLen], data ++ [row], err, pi)
  else if Byte.eqb (Identifies v) IdentifiesReadyForQuery then
    pi' ← ReadyForQuery pi v;
    Some (fieldLen, data, err, pi')
  else Some st.

Definition ParseQuery (name : String.string) (args : list (option Value)) (pi : PgIO)
  : option (option rowsLen * option rowsData * option error * PgIO) :=
  let rBind := bind_message name args in
  let rExec := execute_message in
  match send [rBind; rExec; NewPgMessage IdentifiesSync] pi with
  | (Some e, pi1) => Some (None, None, Some e, pi1)
  | (None, pi1) =>
      match receivePgMsg IdentifiesReadyForQuery pi1 with
      | (_, Some e, pi2) => Some (None, None, Some e, pi2)
      | (list, None, pi2) =>
          '(fieldLen, data, err, pi3) ←
            range ParseQuery_case ([], [], None, pi2) list;
          Some (Some fieldLen, Some data, err, pi3)
      end
  end.

End Bind.

(** ** Close and Terminate *)

Definition CloseParse_case (st : option error * PgIO) (v : PgMessage)
  : option (option error * PgIO) :=
  let '(err, pi) := st in
  if Byte.eqb (Identifies v) IdentifiesReadyForQuery then
    pi' ← ReadyForQuery pi v;
    Some (err, pi')
  else if Byte.eqb (Identifies v) IdentifiesErrorResponse then
    Some (Some (ParseError v), pi)
  else Some st.

Definition CloseParse (name : String.string) (pi : PgIO)
  : option (option error * PgIO) :=
  let rc := addString (addByte (NewPgMessage IdentifiesClose) "S"%byte) name in
  match send [rc; NewPgMessage IdentifiesSync] pi with
  | (Some e, pi1) => Some (Some e, pi1)
  | (None, pi1) =>
      match receivePgMsg IdentifiesReadyForQuery pi1 with
      | (_, Some e, pi2) => Some (Some e, pi2)
      | (list, None, pi2) => range CloseParse_case (None, pi2) list
      end
  end.

Definition Terminate (pi : PgIO) : option error * PgIO :=
  let rc := NewPgMessage IdentifiesTerminate in
  match send [rc] pi with
  | (Some e, pi1) =>
      (Some e, set_IOError (set_conn pi1 (conn_Close (conn pi1))) (Some ErrBadConn))
  | (None, pi1) => (None, pi1)
  end.

(** ** Authentication and start-up *)

(** The loop over the answer to a password message: an
    Authentication message with a code other than 0 is an error. *)
Fixpoint auth_answer (list : list PgMessage) : option (option error) :=
  match list with
  | [] => Some None
  | v :: list' =>
      if Byte.eqb (Identifies v) IdentifiesAuth then
        '(code, _) ← int32 v;
        if code =? 0 then auth_answer list'
        else Some (Some (ErrAuthResponse (Identifies v)))
      else auth_answer list'
  end.

Definition password_exchange (reqPwd : PgMessage) (pi : PgIO)
  : option (option error * PgIO) :=
  match send [reqPwd] pi with
  | (Some e, pi1) => Some (Some e, pi1)
  | (None, pi1) =>
      match receivePgMsg IdentifiesAuth pi1 with
      | (_, Some e, pi2) => Some (Some e, pi2)
      | (list, None, pi2) => err ← auth_answer list; Some (err, pi2)
      end
  end.

Definition user (pi : PgIO) : String.string :=
  default EmptyString (DsnParameter (dsn pi) !! "user").

Definition md5_password (pi : PgIO) (salt : list Byte.byte) : String.string :=
  "md5" +:+ Md5 (Md5 (Password (dsn pi) +:+ user pi) +:+ string_of_list_byte salt).

Definition auth (msg : PgMessage) (pi : PgIO) : option (option error * PgIO) :=
  '(code, msg1) ← int32 msg;
  if code =? 0 then Some (None, pi)
  else if code =? 3 then
    let pwdMsg := addString (NewPgMessage IdentifiesPasswordMessage) (Password (dsn pi)) in
    password_exchange pwdMsg pi
  else if code =? 5 then
    '(salt, _) ← bytes msg1 4;
    let reqPwd :=
      addString (NewPgMessage IdentifiesPasswordMessage) (md5_password pi salt) in
    password_exchange reqPwd pi
  else Some (None, pi).

Section StartUp.

(** What [StartUp] takes from outside the sources at hand: the TLS
    negotiation [ssl], the identifier constant of the start-up
    message, and [time.LoadLocation]. *)
Variable ssl : PgIO -> option error * PgIO.
Variable IdentifiesStartupMessage : identifies.
Variable LoadLocation : String.string -> option String.string.

Definition set_ServerConf (pi : PgIO) (k v : String.string) : PgIO :=
  mkPgIO (dsn pi) (conn pi) (txStatus pi) (serverPid pi)
         (<[k := v]> (ServerConf pi)) (backendKey pi)
         (if String.eqb k "TimeZone" then LoadLocation v else Location pi)
         (IOError pi).

Definition set_BackendKeyData (pi : PgIO) (pid key : Z) : PgIO :=
  mkPgIO (dsn pi) (conn pi) (txStatus pi) pid (ServerConf pi) key
         (Location pi) (IOError pi).

(** The start-up parameters, in the order the map is iterated. *)
Definition startup_message (pi : PgIO) : PgMessage :=
  let bs := addInt32 (NewPgMessage IdentifiesStartupMessage) 196608 in
  let bs :=
    fold_left (fun bs kv => addString (addString bs (fst kv)) (snd kv))
              (map_to_list (DsnParameter (dsn pi))) bs in
  addByte bs x00.

(** The receive loop of [StartUp]; the budget is as in
    [receive_loop]. *)
Fixpoint StartUp_loop (budget : nat) (pi : PgIO) : option (option error * PgIO) :=
  match receivePgMsgOnce pi with
  | (_, Some e, pi1) => Some (Some e, pi1)
  | (m, None, pi1) =>
      let continue (pi' : PgIO) :=
        match budget with
        | O => Some (Some io_EOF, pi')
        | S budget' => StartUp_loop budget' pi'
        end in
      if Byte.eqb (Identifies m) IdentifiesAuth then
        '(err, pi2) ← auth m pi1;
        match err with
        | Some e => Some (Some e, pi2)
        | None => continue pi2
        end
      else if Byte.eqb (Identifies m) IdentifiesParameterStatus then
        '(k, m1) ← string m;
        '(v, _) ← string m1;
        continue (set_ServerConf pi1 k v)
      else if Byte.eqb (Identifies m) IdentifiesBackendKeyData then
        '(pid, m1) ← int32 m;
        '(key, _) ← int32 m1;
        continue (set_BackendKeyData pi1 pid key)
      else if Byte.eqb (Identifies m) IdentifiesReadyForQuery then
        '(b, _) ← byte m;
        Some (None, set_txStatus pi1 b)
      else continue pi1
  end.

Definition StartUp (pi : PgIO) : option (option error * PgIO) :=
  let start (pi : PgIO) :=
    let bs := startup_message pi in
    match conn_Write (encode_content bs) (conn pi) with
    | (Some e, c) => Some (Some e, set_conn pi c)
    | (None, c) =>
        StartUp_loop (length (inbound c)) (set_conn pi c)
    end in
  if negb (String.eqb (SSLMode (dsn pi)) "disable")
     && negb (String.eqb (SSLMode (dsn pi)) "allow")
  then match ssl pi with
       | (Some e, pi1) => Some (Some e, pi1)
       | (None, pi1) => start pi1
       end
  else start pi.

End StartUp.

(** ** Cancellation *)

Section CancelRequest.

(** What [CancelRequest] takes from outside the sources at hand: the
    identifier constant of the cancel message, and the dialling of the
    address of the data source ([Dial] on [dsn.Address()], that is
    [net.DialTimeout]), which gives a fresh socket or an error. *)
Variable IdentifiesCancelRequest : identifies.
Variable DialTimeout : DataSourceName -> Conn + error.

Definition cancel_message (pi : PgIO) : PgMessage :=
  let rc := addInt32 (NewPgMessage IdentifiesCancelRequest) 80877102 in
  let rc := addInt32 rc (serverPid pi) in
  addInt32 rc (backendKey pi).

(** The session [pi] is only read.  The result is the error and the
    side socket as the call leaves it, if it was opened: the deferred
    [Close] is registered after the write has succeeded, so it runs on
    that path only. *)
Definition CancelRequest (pi : PgIO) : option error * option Conn :=
  match DialTimeout (dsn pi) with
  | inr e => (Some e, None)
  | inl c =>
      let nIO := NewPgIO (dsn pi) c in
      let rc := cancel_message pi in
      match conn_Write (encode_content rc) (conn nIO) with
      | (Some e, c') => (Some e, Some c')
      | (None, c') => (None, Some (conn_Close c'))
      end
  end.

End CancelRequest.

(** ** The transaction status *)

Section IsInTransaction.

(** The two status constants are declared with [TransactionStatus], in
    a file that is not among the sources at hand. *)
Variable TransactionStatusIdleInTransaction : Byte.byte.
Variable TransactionStatusInFailedTransaction : Byte.byte.

Definition IsInTransaction (pi : PgIO) : bool :=
  Byte.eqb (txStatus pi) TransactionStatusIdleInTransaction
  || Byte.eqb (txStatus pi) TransactionStatusInFailedTransaction.

End IsInTransaction.

End network.

(** * Package [driver] *)

Module driver.

Record PgStmt : Type := mkPgStmt {
  Identifies : string;
  Sql : string;
  columns : list network.PgColumn;
  parameterTypes : list Z
}.

(** The connection object: the engine and the statement cache.  A
    statement's [pgConn] is the connection it is used with, which the
    methods below take and give back. *)
Record PgConn : Type := mkPgConn {
  io : network.PgIO;
  stmts : gmap string PgStmt
}.

Record PgRows : Type := mkPgRows {
  rows_columns : list network.PgColumn;
  rows_parameterTypes : list Z;
  fieldLen : option network.rowsLen;
  rows : option network.rowsData
}.

Definition set_io (conn : PgConn) (pi : network.PgIO) : PgConn :=
  mkPgConn pi (stmts conn).

Definition statement_name (query : string) : string :=
  fmt.hex_uint32 (crc32.ChecksumIEEE (bytes_of query)).

Definition NewPgStmt (conn : PgConn) (query : string)
  : option (option PgStmt * option error * PgConn) :=
  if negb (is_nil (network.IOError (io conn))) then
    Some (None, Some ErrBadConn, conn)
  else
    let id := statement_name query in
    match stmts conn !! id with
    | Some st => Some (Some st, None, conn)
    | None =>
        '(cols, parameters, err, pi) ← network.Parse id query (io conn);
        let st := mkPgStmt id query cols parameters in
        Some (Some st, err, mkPgConn pi (<[id := st]> (stmts conn)))
    end.

Definition NewNoPortalPgStmt (conn : PgConn) (query : string)
  : option (option PgStmt * option error * PgConn) :=
  if negb (is_nil (network.IOError (io conn))) then
    Some (None, Some ErrBadConn, conn)
  else
    '(cols, parameters, err, pi) ← network.Parse EmptyString query (io conn);
    Some (Some (mkPgStmt EmptyString query cols parameters), err, set_io conn pi).

Definition Close (s : PgStmt) (conn : PgConn) : option (option error * PgConn) :=
  if negb (is_nil (network.IOError (io conn))) then
    Some (Some ErrBadConn, conn)
  else
    '(err, pi) ← network.CloseParse (Identifies s) (io conn);
    Some (err, set_io conn pi).

Definition NumInput (s : PgStmt) : nat := length (parameterTypes s).

Section Values.

Context {Value : Type} (value2bytes : Value -> list byte).

(** The result is [driver.RowsAffected n], or nil. *)
Definition Exec (s : PgStmt) (args : list (option Value)) (conn : PgConn)
  : option (option Z * option error * PgConn) :=
  if negb (is_nil (network.IOError (io conn))) then
    Some (None, Some ErrBadConn, conn)
  else
    '(n, err, pi) ← network.ParseExec value2bytes (Identifies s) args (io conn);
    Some (Some n, err, set_io conn pi).

Definition Query (s : PgStmt) (args : list (option Value)) (conn : PgConn)
  : option (PgRows * option error * PgConn) :=
  '(fieldLen, rows, err, pi) ←
    network.ParseQuery value2bytes (Identifies s) args (io conn);
  let pr := mkPgRows (columns s) (parameterTypes s) fieldLen rows in
  Some (pr, None, set_io conn pi).

End Values.

End driver.

(** * Vocabulary of the statements *)

Abbreviation PgMessage := network.PgMessage.
Abbreviation PgIO := network.PgIO.
Abbreviation Conn := network.Conn.

(** A frame as it travels: the identifier, then the content with its
    length field in front. *)
Definition wire (m : PgMessage) : list byte :=
  network.Identifies m :: network.Content m.

(** A message as [read_frame] builds it from a frame whose length field
    counts itself. *)
Definition framed (m : PgMessage) : Prop :=
  network.Position m = 4%nat /\
  network.Len m = Z.of_nat (length (network.Content m)) /\
  BigEndian.Uint32 (firstn 4 (network.Content m)) = network.Len m /\
  (4 <= length (network.Content m))%nat.

(** The message a backend frame with identifier [id] and payload [p]
    is read as. *)
Definition backend_msg (id : byte) (p : list byte) : PgMessage :=
  let len := 4 + Z.of_nat (length p) in
  network.mkPgMessage id len 4 (BigEndian.PutUint32 len ++ p).

Definition is_id (id : byte) (m : PgMessage) : bool :=
  Byte.eqb (network.Identifies m) id.

(** The first payload byte of a message. *)
Definition payload_byte (m : PgMessage) : option byte :=
  nth_error (network.Content m) 4.

(** What the cursor has not read yet. *)
Definition remaining (v : PgMessage) : list byte :=
  skipn (network.Position v) (network.Content v).

(** A message that no response loop reads with the cursor: it is not a
    DataRow, a RowDescription, a ParameterDescription, a CommandComplete
    or a ReadyForQuery. *)
Definition plain (v : PgMessage) : Prop :=
  is_id network.IdentifiesDataRow v = false /\
  is_id network.IdentifiesRowDescription v = false /\
  is_id network.IdentifiesParameterDescription v = false /\
  is_id network.IdentifiesCommandComplete v = false /\
  is_id network.IdentifiesReadyForQuery v = false.

(** The session after some reading: [inb] is left on the wire, the
    frames [new] were completed, the error flag is [ioe]; nothing else
    has changed. *)
Definition after_reading (pi : PgIO) (inb : list byte) (new : list PgMessage)
           (ioe : option error) : PgIO :=
  network.mkPgIO (network.dsn pi)
    (network.mkConn inb (network.received (network.conn pi) ++ new)
       (network.written (network.conn pi)) (network.wfaults (network.conn pi))
       (network.closed (network.conn pi)))
    (network.txStatus pi) (network.serverPid pi) (network.ServerConf pi)
    (network.backendKey pi) (network.Location pi) ioe.

(** The session after a [Write] of [raw] that left the write schedule
    [wf] and the error flag [ioe]. *)
Definition after_writing (pi : PgIO) (raw : list byte) (wf : list (option nat))
           (ioe : option error) : PgIO :=
  network.mkPgIO (network.dsn pi)
    (network.mkConn (network.inbound (network.conn pi))
       (network.received (network.conn pi))
       (network.written (network.conn pi) ++ [raw]) wf
       (network.closed (network.conn pi)))
    (network.txStatus pi) (network.serverPid pi) (network.ServerConf pi)
    (network.backendKey pi) (network.Location pi) ioe.

(** The coming write succeeds. *)
Definition write_ok (c : Conn) : bool :=
  negb (network.closed c) &&
  match network.wfaults c with
  | Some _ :: _ => false
  | _ => true
  end.

Definition no_socket_failure (err : option error) : Prop :=
  match err with
  | Some e => socket_failure e = false
  | None => True
  end.

(** The error a response loop ends with: the parse of the last
    ErrorResponse of the list, if there is one. *)
Definition last_error (list : list PgMessage) (err : option error) : option error :=
  fold_left (fun e v =>
               if is_id network.IdentifiesErrorResponse v
               then Some (network.ParseError v) else e)
            list err.

(** The transaction status a response loop ends with: the payload byte
    of the last ReadyForQuery of the list, if there is one. *)
Definition last_status (list : list PgMessage) (b : byte) : byte :=
  fold_left (fun b v =>
               if is_id network.IdentifiesReadyForQuery v
               then default b (payload_byte v) else b)
            list b.

(** What the case analysis of a response loop does with one message,
    seen through the error and the session of the loop's state: an
    ErrorResponse replaces the error, a ReadyForQuery stores its payload
    byte as the transaction status, and nothing else touches either. *)
Definition case_spec {St : Type} (err_of : St -> option error) (pi_of : St -> PgIO)
           (f : St -> PgMessage -> option St) : Prop :=
  forall st v st',
    network.Position v = 4%nat ->
    f st v = Some st' ->
    err_of st' = (if is_id network.IdentifiesErrorResponse v
                  then Some (network.ParseError v) else err_of st) /\
    (if is_id network.IdentifiesReadyForQuery v
     then exists b, payload_byte v = Some b /\
                    pi_of st' = network.set_txStatus (pi_of st) b
     else pi_of st' = pi_of st).

(** The messages of the three extended-query batches and of the simple
    query, as the operations build them. *)
Definition query_batch (query : string) : list PgMessage :=
  [network.addString (network.NewPgMessage network.IdentifiesQuery) query].

Definition parse_batch (name query : string) : list PgMessage :=
  [network.addInt16
     (network.addString
        (network.addString (network.NewPgMessage network.IdentifiesParse) name) query) 0;
   network.addString
     (network.addByte (network.NewPgMessage network.IdentifiesDescribe) "S"%byte) name;
   network.NewPgMessage network.IdentifiesSync].

Definition bind_batch {Value : Type} (value2bytes : Value -> list byte)
           (name : string) (args : list (option Value)) : list PgMessage :=
  [network.bind_message value2bytes name args; network.execute_message;
   network.NewPgMessage network.IdentifiesSync].

Definition close_batch (name : string) : list PgMessage :=
  [network.addString
     (network.addByte (network.NewPgMessage network.IdentifiesClose) "S"%byte) name;
   network.NewPgMessage network.IdentifiesSync].

(** What a query call does on the wire, by the three ways it can end:
    the write fails; the stream fails before a ReadyForQuery; or the
    response is read up to its ReadyForQuery, whose payload byte becomes
    the transaction status, and the call's error is the last
    ErrorResponse of the response. *)
Inductive call_outcome (pi : PgIO) (out : list PgMessage)
  : option error -> PgIO -> Prop :=
| write_failed (e : error) (pi1 : PgIO) :
    network.send out pi = (Some e, pi1) ->
    call_outcome pi out (Some e) pi1
| read_failed (e : error) (ms : list PgMessage) (pi1 pi2 : PgIO) :
    network.send out pi = (None, pi1) ->
    network.receivePgMsg network.IdentifiesReadyForQuery pi1 = ((ms, Some e), pi2) ->
    call_outcome pi out (Some e) pi2
| drained (init : list PgMessage) (rfq : PgMessage) (b : byte) (pi1 pi2 : PgIO) :
    network.send out pi = (None, pi1) ->
    network.receivePgMsg network.IdentifiesReadyForQuery pi1
    = ((init ++ [rfq], None), pi2) ->
    Forall (fun m => is_id network.IdentifiesReadyForQuery m = false) init ->
    is_id network.IdentifiesReadyForQuery rfq = true ->
    payload_byte rfq = Some b ->
    call_outcome pi out (last_error (init ++ [rfq]) None) (network.set_txStatus pi2 b).

(** A query operation of the engine, called in session [pi], returned
    the error [err] and left the session [pi']. *)
Inductive query_call {Value : Type} (value2bytes : Value -> list byte)
          (pi : PgIO) (err : option error) (pi' : PgIO) : Prop :=
| call_QueryNoArgs query cols fieldLen data :
    network.QueryNoArgs query pi = Some (cols, fieldLen, data, err, pi') ->
    query_call value2bytes pi err pi'
| call_Parse name query cols parameters :
    network.Parse name query pi = Some (cols, parameters, err, pi') ->
    query_call value2bytes pi err pi'
| call_ParseExec name args n :
    network.ParseExec value2bytes name args pi = Some (n, err, pi') ->
    query_call value2bytes pi err pi'
| call_ParseQuery name args fieldLen data :
    network.ParseQuery value2bytes name args pi = Some (fieldLen, data, err, pi') ->
    query_call value2bytes pi err pi'
| call_CloseParse name :
    network.CloseParse name pi = Some (err, pi') ->
    query_call value2bytes pi err pi'.

(** Between [pi] and [pi'] frames were read, the last of them a
    ReadyForQuery whose payload byte is the transaction status of [pi']. *)
Definition drained_to_ready (pi pi' : PgIO) : Prop :=
  exists (ms : list PgMessage) (rfq : PgMessage),
    network.received (network.conn pi')
    = network.received (network.conn pi) ++ ms ++ [rfq] /\
    last (network.received (network.conn pi')) = Some rfq /\
    is_id network.IdentifiesReadyForQuery rfq = true /\
    payload_byte rfq = Some (network.txStatus pi').

(** Every cached statement is filed under its own name. *)
Definition stmts_wf (conn : driver.PgConn) : Prop :=
  forall id st, driver.stmts conn !! id = Some st -> driver.Identifies st = id.

(** ** Wire forms

    A column value is absent (NULL) or a run of bytes.  On the wire it is
    a length and that many bytes, or the length 0xFFFFFFFF and nothing
    for NULL: the format of a Bind argument and of a DataRow column. *)

Definition column_wire (val : option (list byte)) : list byte :=
  match val with
  | None => [xff; xff; xff; xff]
  | Some b => BigEndian.PutUint32 (Z.of_nat (length b)) ++ b
  end.

Definition column_len (val : option (list byte)) : Z :=
  match val with
  | None => 4294967295
  | Some b => Z.of_nat (length b)
  end.


(** The body of the MD5 password message in the words of the protocol:
    "md5", then the digest in hex of (the digest in hex of password and
    user) followed by the salt, then the terminating NUL. *)
Definition md5_password_body (password user : string) (salt : list byte) : list byte :=
  bytes_of "md5" ++
  bytes_of (fmt.hex_bytes
              (md5.Sum (bytes_of (fmt.hex_bytes
                                    (md5.Sum (bytes_of password ++ bytes_of user)))
                        ++ salt))) ++
  [x00].

(** A PasswordMessage on the wire: identifier, length, body. *)
Definition password_frame (body : list byte) : list byte :=
  network.IdentifiesPasswordMessage
    :: BigEndian.PutUint32 (4 + Z.of_nat (length body)) ++ body.

(** The Terminate message on the wire. *)
Definition terminate_frame : list byte :=
  [network.IdentifiesTerminate; x00; x00; x00; x04].

(** * Example sessions

    A server that answers with the given bytes, and a client that
    connects as user alice with the password "secret".  Argument values
    are text already. *)

Definition example_dsn : network.DataSourceName :=
  network.mkDataSourceName "secret" {[ "user" := "alice" ]} "disable".

Definition session (inb : list byte) (wf : list (option nat)) : PgIO :=
  network.NewPgIO example_dsn (network.mkConn inb [] [] wf false).

Definition text_value (b : list byte) : list byte := b.

Definition ready_for_query (status : byte) : PgMessage :=
  backend_msg network.IdentifiesReadyForQuery [status].

Definition error_response : PgMessage :=
  backend_msg network.IdentifiesErrorResponse
    (bytes_of "SERROR" ++ [x00] ++ bytes_of "C42601" ++ [x00] ++
     bytes_of "Msyntax error" ++ [x00; x00]).

Definition command_complete (tag : string) : PgMessage :=
  backend_msg network.IdentifiesCommandComplete (bytes_of tag ++ [x00]).

Definition authentication (code : Z) (more : list byte) : PgMessage :=
  backend_msg network.IdentifiesAuth (BigEndian.PutUint32 code ++ more).

Definition data_row : PgMessage :=
  backend_msg network.IdentifiesDataRow
    (BigEndian.PutUint16 1 ++ BigEndian.PutUint32 1 ++ bytes_of "1").

Definition row (vals : list (option (list byte))) : PgMessage :=
  backend_msg network.IdentifiesDataRow
    (BigEndian.PutUint16 (Z.of_nat (length vals)) ++ concat (map column_wire vals)).

Definition column_description (name : string) (oid size : Z) : list byte :=
  bytes_of name ++ [x00] ++ BigEndian.PutUint32 0 ++ BigEndian.PutUint16 0 ++
  BigEndian.PutUint32 oid ++ BigEndian.PutUint16 size ++
  BigEndian.PutUint32 (-1) ++ BigEndian.PutUint16 0.

Definition example_stmt : driver.PgStmt :=
  driver.mkPgStmt "h" "UPDATE t SET x=$1 WHERE id=$2" [] [23; 23].

Definition example_sql : string := "UPDATE t SET x=$1 WHERE id=$2".

Definition example_conn (pi : PgIO) : driver.PgConn :=
  driver.mkPgConn pi ∅.

Definition example_args : list (option (list byte)) :=
  [None; Some (bytes_of "7")].



(** The server answers a simple query with nothing but ReadyForQuery. *)
Definition idle_session : PgIO := session (wire (ready_for_query "I")) [].

(** The server rejects the statement: ErrorResponse, then ReadyForQuery. *)
Definition rejecting_session : PgIO :=
  session (wire error_response ++ wire (ready_for_query "I")) [].

(** A session whose first write fails and whose server then answers
    ReadyForQuery. *)
Definition faulty_session : PgIO :=
  session (wire (ready_for_query "I")) [Some 1%nat].


(** The stream ends after a DataRow. *)
Definition truncated_session : PgIO := session (wire data_row) [].

(** The server completes an INSERT of five rows, or an UPDATE of three. *)
Definition insert_session : PgIO :=
  session (wire (backend_msg network.IdentifiesBindComplete []) ++
           wire (command_complete "INSERT 0 5") ++
           wire (ready_for_query "I")) [].

Definition update_session : PgIO :=
  session (wire (backend_msg network.IdentifiesBindComplete []) ++
           wire (command_complete "UPDATE 3") ++
           wire (ready_for_query "I")) [].

(** The server parses a statement with two parameters and no result
    columns: ParseComplete, ParameterDescription, NoData, ReadyForQuery. *)
Definition prepared_session : PgIO :=
  session (wire (backend_msg network.IdentifiesParseComplete []) ++
           wire (backend_msg network.IdentifiesParameterDescription
                   (BigEndian.PutUint16 2 ++ BigEndian.PutUint32 23
                      ++ BigEndian.PutUint32 23)) ++
           wire (backend_msg "n"%byte []) ++
           wire (ready_for_query "I")) [].

(** The server closes a statement: CloseComplete, ReadyForQuery. *)
Definition closing_session : PgIO :=
  session (wire (backend_msg network.IdentifiesCloseComplete []) ++
           wire (ready_for_query "I")) [].

(** A simple query that returns two rows, the first with a NULL. *)
Definition two_rows_session : PgIO :=
  session (wire (backend_msg network.IdentifiesRowDescription
                   (BigEndian.PutUint16 2 ++ column_description "a" 23 4
                      ++ column_description "b" 25 (-1))) ++
           wire (row [Some (bytes_of "1"); None]) ++
           wire (row [Some (bytes_of "2"); Some (bytes_of "hi")]) ++
           wire (command_complete "SELECT 2") ++
           wire (ready_for_query "I")) [].

(** The server asks for an MD5 password with salt 01 02 03 04 and then
    accepts it. *)
Definition md5_request : PgMessage := authentication 5 [x01; x02; x03; x04].

Definition md5_session : PgIO :=
  session (wire (authentication 0 [])) [].

(** Start-up with MD5 authentication. *)
Definition md5_startup_stream : list byte :=
  wire md5_request ++
  wire (authentication 0 []) ++
  wire (backend_msg network.IdentifiesParameterStatus
          (bytes_of "server_version" ++ [x00] ++ bytes_of "13.0" ++ [x00])) ++
  wire (backend_msg network.IdentifiesBackendKeyData
          (BigEndian.PutUint32 4242 ++ BigEndian.PutUint32 0xDEADBEEF)) ++
  wire (ready_for_query "I").

(** A server that asks for an authentication method the engine does not
    know (code 10), and then goes on with the start-up messages. *)
Definition sasl_request : PgMessage :=
  authentication 10 (bytes_of "SCRAM-SHA-256" ++ [x00; x00]).

Definition startup_stream : list byte :=
  wire sasl_request ++
  wire (backend_msg network.IdentifiesParameterStatus
          (bytes_of "server_version" ++ [x00] ++ bytes_of "13.0" ++ [x00])) ++
  wire (backend_msg network.IdentifiesBackendKeyData
          (BigEndian.PutUint32 4242 ++ BigEndian.PutUint32 0xDEADBEEF)) ++
  wire (ready_for_query "I").

Definition no_ssl (pi : PgIO) : option error * PgIO := (None, pi).
Definition no_location (name : string) : option string := None.

(** * Vocabulary of the further properties *)

(** A message under construction that [encode] can frame: the length
    field is there, and the length fits its 32 bits. *)
Definition encodable (m : PgMessage) : Prop :=
  (4 <= length (network.Content m))%nat /\
  Z.of_nat (length (network.Content m)) < 4294967296.

(** The message that a reader makes of the frame [encode m]. *)
Definition as_read (m : PgMessage) : PgMessage :=
  network.mkPgMessage (network.Identifies m)
    (Z.of_nat (length (network.Content m))) 4 (network.encode_content m).

(** The error of a read that finds only the first bytes [cut] of a
    frame: the stream ends before the length field is complete, or
    inside the content. *)
Definition cut_error (cut : list byte) : error :=
  if (length cut <=? 4)%nat then io_EOF else io_ErrUnexpectedEOF.

(** The session after a query call that wrote the batch [out] and read
    the response [resp], whose ReadyForQuery carried [status]; [rest] is
    left on the stream. *)
Definition after_exchange (pi : PgIO) (out resp : list PgMessage)
           (rest : list byte) (status : byte) : PgIO :=
  network.set_txStatus
    (after_reading
       (after_writing pi (concat (map network.encode out))
                      (tl (network.wfaults (network.conn pi))) None)
       rest resp None)
    status.

(** A row that a DataRow frame can carry: the column count fits 16
    bits and the frame's length fits 32 bits. *)
Definition row_fits (vals : list (option (list byte))) : Prop :=
  Z.of_nat (length vals) < 65536 /\
  6 + Z.of_nat (length (concat (map column_wire vals))) < 4294967296.

(** The ParameterDescription message for the given type OIDs. *)
Definition parameter_description (oids : list Z) : PgMessage :=
  backend_msg network.IdentifiesParameterDescription
    (BigEndian.PutUint16 (Z.of_nat (length oids))
       ++ concat (map BigEndian.PutUint32 oids)).

(** The answer to Describe: a RowDescription that the cursor reads as
    [cols], or NoData for a statement that returns no rows. *)
Definition describes (desc : PgMessage) (cols : list network.PgColumn) : Prop :=
  (is_id network.IdentifiesRowDescription desc = true /\
   network.columns desc = Some cols) \/
  (is_id "n"%byte desc = true /\ cols = []).

(** Decimal numerals: the digits, most significant first, as a string
    and as a number. *)
Definition digit_char (d : Z) : ascii := ascii_of_nat (Z.to_nat (48 + d)).

Definition numeral (ds : list Z) : string :=
  string_of_list_ascii (map digit_char ds).

Definition numeral_value (ds : list Z) : Z :=
  fold_left (fun acc d => acc * 10 + d) ds 0.

Definition is_digit (d : Z) : Prop := 0 <= d <= 9.

(** A string without the given character, and one that the wire can
    carry as a NUL-terminated string. *)
Definition without (c : ascii) (s : string) : Prop :=
  Forall (fun x => x <> c) (list_ascii_of_string s).

Definition nul_free (s : string) : Prop :=
  Forall (fun b => b <> x00) (bytes_of s).

(** ** Further example sessions *)

Definition two_rows_description : PgMessage :=
  backend_msg network.IdentifiesRowDescription
    (BigEndian.PutUint16 2 ++ column_description "a" 23 4
       ++ column_description "b" 25 (-1)).

Definition two_rows : network.rowsData :=
  [[Some (bytes_of "1"); None]; [Some (bytes_of "2"); Some (bytes_of "hi")]].

Definition bind_complete : PgMessage :=
  backend_msg network.IdentifiesBindComplete [].

(** The server answers Bind, Execute and Sync with two rows. *)
Definition select_session : PgIO :=
  session (wire bind_complete ++ concat (map wire (map row two_rows)) ++
           wire (command_complete "SELECT 2") ++ wire (ready_for_query "T")) [].

(** Type OIDs that a ParameterDescription can carry. *)
Definition oids_fit (oids : list Z) : Prop :=
  Z.of_nat (length oids) < 65536 /\
  Forall (fun o => 0 <= o < 4294967296) oids.

Definition parse_complete : PgMessage :=
  backend_msg network.IdentifiesParseComplete [].

Definition no_data : PgMessage := backend_msg "n"%byte [].

(** The server completes a DELETE of 120 rows. *)
Definition delete_session : PgIO :=
  session (wire bind_complete ++ wire (command_complete "DELETE 120") ++
           wire (ready_for_query "I")) [].

(** Between [pi] and [pi'] nothing was read: the stream, the history
    and the transaction status are as they were, and the error flag
    holds [e]. *)
Definition unread (pi pi' : PgIO) (e : error) : Prop :=
  network.inbound (network.conn pi') = network.inbound (network.conn pi) /\
  network.received (network.conn pi') = network.received (network.conn pi) /\
  network.txStatus pi' = network.txStatus pi /\
  network.IOError pi' = Some e.

(** ** Start-up *)

(** The ParameterStatus and BackendKeyData messages of a server. *)
Definition parameter_status (kv : string * string) : PgMessage :=
  backend_msg network.IdentifiesParameterStatus
    (bytes_of (fst kv) ++ [x00] ++ bytes_of (snd kv) ++ [x00]).

Definition backend_key_data (pid key : list byte) : PgMessage :=
  backend_msg network.IdentifiesBackendKeyData (pid ++ key).

Definition param_fits (kv : string * string) : Prop :=
  nul_free (fst kv) /\ nul_free (snd kv) /\ framed (parameter_status kv).

(** The parameter map and the location after the parameters [kvs] have
    come in this order: a later value replaces an earlier one, and the
    location is what [LoadLocation] makes of the last TimeZone. *)
Definition server_conf_after (kvs : list (string * string))
           (conf : gmap string string) : gmap string string :=
  fold_left (fun m kv => <[fst kv := snd kv]> m) kvs conf.

Definition location_after (LoadLocation : string -> option string)
           (kvs : list (string * string)) (loc : option string) : option string :=
  fold_left (fun loc kv => if String.eqb (fst kv) "TimeZone"
                           then LoadLocation (snd kv) else loc)
            kvs loc.

(** A message that the start-up loop passes over. *)
Definition passed_over (v : PgMessage) : Prop :=
  is_id network.IdentifiesErrorResponse v = false /\
  is_id network.IdentifiesAuth v = false /\
  is_id network.IdentifiesParameterStatus v = false /\
  is_id network.IdentifiesBackendKeyData v = false /\
  is_id network.IdentifiesReadyForQuery v = false.

(** The start-up message on the wire: the length, the protocol
    version, the parameters as NUL-terminated names and values, and a
    closing NUL; there is no identifier byte. *)
Definition startup_parameters (params : list (string * string)) : list byte :=
  concat (map (fun kv => bytes_of (fst kv) ++ [x00] ++ bytes_of (snd kv) ++ [x00])
              params).

Definition startup_frame (params : list (string * string)) : list byte :=
  BigEndian.PutUint32 (9 + Z.of_nat (length (startup_parameters params)))
    ++ BigEndian.PutUint32 196608 ++ startup_parameters params ++ [x00].

(** The session in the middle of the start-up: the start-up message is
    written, the frames [new] are read, the parameters [kvs] are
    stored, [inb] is left on the stream. *)
Definition during_startup (LoadLocation : string -> option string) (pi : PgIO)
           (raw : list byte) (new : list PgMessage) (kvs : list (string * string))
           (inb : list byte) : PgIO :=
  network.mkPgIO (network.dsn pi)
    (network.mkConn inb (network.received (network.conn pi) ++ new)
       (network.written (network.conn pi) ++ [raw])
       (tl (network.wfaults (network.conn pi))) (network.closed (network.conn pi)))
    (network.txStatus pi) (network.serverPid pi)
    (server_conf_after kvs (network.ServerConf pi)) (network.backendKey pi)
    (location_after LoadLocation kvs (network.Location pi)) (network.IOError pi).

Definition ssl_skipped (pi : PgIO) : Prop :=
  network.SSLMode (network.dsn pi) = "disable" \/
  network.SSLMode (network.dsn pi) = "allow".

(** A server that asks for no password, reports two parameters, the
    second an unknown time zone, and hands out its key data. *)
Definition trusting_stream : list byte :=
  wire (authentication 0 []) ++
  wire (parameter_status ("server_version", "13.0")) ++
  wire (parameter_status ("TimeZone", "Mars/Olympus")) ++
  wire (backend_key_data (BigEndian.PutUint32 4242) (BigEndian.PutUint32 0xDEADBEEF)) ++
  wire (ready_for_query "I").

(** A server that refuses the start-up, and would go on talking. *)
Definition refusing_stream : list byte :=
  wire (backend_msg network.IdentifiesNoticeResponse (bytes_of "SWARNING" ++ [x00; x00])) ++
  wire error_response ++ wire (ready_for_query "I").

(** The CancelRequest message on the wire: the length 16, the request
    code, the process id and the key; there is no identifier byte. *)
Definition cancel_frame (pid key : list byte) : list byte :=
  BigEndian.PutUint32 16 ++ BigEndian.PutUint32 80877102 ++ pid ++ key.

(** A dialler that always gets a fresh socket. *)
Definition fresh_socket : Conn := network.mkConn [] [] [] [] false.

Definition dial_ok (d : network.DataSourceName) : Conn + error := inl fresh_socket.

(** ** The statement layer *)

(** One call of the statement layer takes the connection from [conn]
    to [conn']. *)
Inductive driver_call {Value : Type} (value2bytes : Value -> list byte)
          (conn conn' : driver.PgConn) : Prop :=
| stmt_NewPgStmt query r err :
    driver.NewPgStmt conn query = Some (r, err, conn') ->
    driver_call value2bytes conn conn'
| stmt_NewNoPortalPgStmt query r err :
    driver.NewNoPortalPgStmt conn query = Some (r, err, conn') ->
    driver_call value2bytes conn conn'
| stmt_Close s err :
    driver.Close s conn = Some (err, conn') ->
    driver_call value2bytes conn conn'
| stmt_Exec s args r err :
    driver.Exec value2bytes s args conn = Some (r, err, conn') ->
    driver_call value2bytes conn conn'
| stmt_Query s args pr err :
    driver.Query value2bytes s args conn = Some (pr, err, conn') ->
    driver_call value2bytes conn conn'.

(** The server parses a statement and then closes it. *)
Definition prepare_close_session : PgIO :=
  session (wire parse_complete ++ wire (parameter_description [23; 23]) ++
           wire no_data ++ wire (ready_for_query "I") ++
           wire (backend_msg network.IdentifiesCloseComplete []) ++
           wire (ready_for_query "I")) [].

(** The server parses a statement and then executes it. *)
Definition prepare_execute_session : PgIO :=
  session ((wire parse_complete ++ wire (parameter_description [23; 23]) ++
            wire no_data ++ wire (ready_for_query "I")) ++
           (wire bind_complete ++ wire (command_complete "UPDATE 3") ++
            wire (ready_for_query "I")) ++ []) [].

(** A response to Bind, Execute and Sync that breaks off inside the
    CommandComplete frame. *)
Definition broken_session : PgIO :=
  session (wire bind_complete ++ firstn 7 (wire (command_complete "UPDATE 3"))) [].

(** * Bytes and big-endian integers *)

Lemma Z_of_byte_of_Z (z : Z) : Z_of_byte (byte_of_Z z) = z mod 256.
Proof.
  unfold Z_of_byte, byte_of_Z.
  assert (Hz : 0 <= z mod 256 < 256) by (apply Z.mod_pos_bound; lia).
  destruct (Byte.of_N (Z.to_N (z mod 256))) as [b|] eqn:Hb.
  - apply Byte.to_of_N in Hb. rewrite Hb. lia.
  - apply Byte.of_N_None_iff in Hb. lia.
Qed.

Lemma byte_bits (z n : Z) (k : Z) :
  0 <= k -> 0 <= n ->
  Z.testbit (((z / 2 ^ k) mod 256) * 2 ^ k) n
  = (k <=? n) && (n <? k + 8) && Z.testbit z n.
Proof.
  intros Hk Hn.
  rewrite <- Z.shiftl_mul_pow2 by lia.
  destruct (k <=? n) eqn:Hkn; simpl.
  - apply Z.leb_le in Hkn. rewrite Z.shiftl_spec by lia.
    change 256 with (2 ^ 8).
    destruct (n <? k + 8) eqn:Hn8; simpl.
    + apply Z.ltb_lt in Hn8.
      rewrite Z.mod_pow2_bits_low by lia.
      rewrite <- Z.shiftr_div_pow2 by lia. rewrite Z.shiftr_spec by lia.
      f_equal. lia.
    + apply Z.ltb_ge in Hn8. apply Z.mod_pow2_bits_high. lia.
  - apply Z.leb_gt in Hkn. rewrite Z.shiftl_spec by lia.
    apply Z.testbit_neg_r. lia.
Qed.

Lemma Uint16_PutUint16 (v : Z) :
  BigEndian.Uint16 (BigEndian.PutUint16 v) = v mod 65536.
Proof.
  unfold BigEndian.Uint16, BigEndian.PutUint16.
  rewrite !Z_of_byte_of_Z, !Z.shiftr_div_pow2, !Z.shiftl_mul_pow2 by lia.
  apply Z.bits_inj'. intros n Hn.
  rewrite !Z.lor_spec.
  rewrite (byte_bits v n 8) by lia.
  replace (v mod 256) with (((v / 2 ^ 0) mod 256) * 2 ^ 0)
    by (rewrite Z.pow_0_r, Z.div_1_r; lia).
  rewrite (byte_bits v n 0) by lia.
  change 65536 with (2 ^ 16).
  destruct (n <? 16) eqn:H16.
  - apply Z.ltb_lt in H16. rewrite Z.mod_pow2_bits_low by lia.
    destruct (Z.testbit v n); [|now rewrite !andb_false_r].
    rewrite !andb_true_r.
    destruct (0 <=? n) eqn:?, (n <? 0 + 8) eqn:?, (8 <=? n) eqn:?, (n <? 8 + 8) eqn:?;
      simpl; try reflexivity; lia.
  - apply Z.ltb_ge in H16. rewrite Z.mod_pow2_bits_high by lia.
    destruct (0 <=? n) eqn:?, (n <? 0 + 8) eqn:?, (8 <=? n) eqn:?, (n <? 8 + 8) eqn:?;
      simpl; try reflexivity; lia.
Qed.

Lemma Uint32_PutUint32 (v : Z) :
  BigEndian.Uint32 (BigEndian.PutUint32 v) = v mod 4294967296.
Proof.
  unfold BigEndian.Uint32, BigEndian.PutUint32.
  rewrite !Z_of_byte_of_Z, !Z.shiftr_div_pow2, !Z.shiftl_mul_pow2 by lia.
  apply Z.bits_inj'. intros n Hn.
  rewrite !Z.lor_spec.
  rewrite (byte_bits v n 8), (byte_bits v n 16), (byte_bits v n 24) by lia.
  replace (v mod 256) with (((v / 2 ^ 0) mod 256) * 2 ^ 0)
    by (rewrite Z.pow_0_r, Z.div_1_r; lia).
  rewrite (byte_bits v n 0) by lia.
  change 4294967296 with (2 ^ 32).
  destruct (n <? 32) eqn:H32.
  - apply Z.ltb_lt in H32. rewrite Z.mod_pow2_bits_low by lia.
    destruct (Z.testbit v n); [|now rewrite !andb_false_r].
    rewrite !andb_true_r.
    destruct (0 <=? n) eqn:?, (n <? 0 + 8) eqn:?, (8 <=? n) eqn:?, (n <? 8 + 8) eqn:?,
             (16 <=? n) eqn:?, (n <? 16 + 8) eqn:?, (24 <=? n) eqn:?, (n <? 24 + 8) eqn:?;
      simpl; try reflexivity; lia.
  - apply Z.ltb_ge in H32. rewrite Z.mod_pow2_bits_high by lia.
    destruct (0 <=? n) eqn:?, (n <? 0 + 8) eqn:?, (8 <=? n) eqn:?, (n <? 8 + 8) eqn:?,
             (16 <=? n) eqn:?, (n <? 16 + 8) eqn:?, (24 <=? n) eqn:?, (n <? 24 + 8) eqn:?;
      simpl; try reflexivity; lia.
Qed.

(** * Reading frames *)

Lemma after_reading_id (pi : PgIO) :
  after_reading pi (network.inbound (network.conn pi)) [] (network.IOError pi) = pi.
Proof.
  destruct pi as [d c tx pid sc key loc ioe]; destruct c as [inb rcv wr wf cl].
  unfold after_reading; simpl. now rewrite app_nil_r.
Qed.

Lemma after_reading_again (pi : PgIO) inb1 new1 e1 inb2 new2 e2 :
  after_reading (after_reading pi inb1 new1 e1) inb2 new2 e2
  = after_reading pi inb2 (new1 ++ new2) e2.
Proof. unfold after_reading; simpl. now rewrite app_assoc. Qed.

Lemma ReadByte_inv (c c' : Conn) (r : byte + error) :
  network.ReadByte c = (r, c') ->
  match r with
  | inl b => exists rest, network.inbound c = b :: rest /\
                          c' = network.set_inbound c rest
  | inr e => e = io_EOF /\ c' = c /\ network.inbound c = []
  end.
Proof.
  unfold network.ReadByte.
  destruct (network.inbound c) as [|b rest] eqn:Hin; intros H; injection H as <- <-.
  - auto.
  - exists rest. auto.
Qed.

Lemma Peek_inv (n : nat) (c : Conn) (r : list byte + error) :
  network.Peek n c = r ->
  match r with
  | inl hdr => hdr = firstn n (network.inbound c) /\
               (n <= length (network.inbound c))%nat
  | inr e => e = io_EOF /\ (length (network.inbound c) < n)%nat
  end.
Proof.
  unfold network.Peek.
  destruct (n <=? length (network.inbound c))%nat eqn:Hn; intros <-.
  - apply Nat.leb_le in Hn. auto.
  - apply Nat.leb_gt in Hn. auto.
Qed.

Lemma ReadFull_inv (n : nat) (c c' : Conn) (r : list byte + error) :
  network.ReadFull n c = (r, c') ->
  match r with
  | inl content => content = firstn n (network.inbound c) /\
                   c' = network.set_inbound c (skipn n (network.inbound c)) /\
                   (n <= length (network.inbound c))%nat
  | inr e => socket_failure e = true /\ c' = network.set_inbound c []
  end.
Proof.
  unfold network.ReadFull.
  destruct (n <=? length (network.inbound c))%nat eqn:Hn;
    intros H; injection H as <- <-.
  - apply Nat.leb_le in Hn. auto.
  - split; [|reflexivity]. now destruct (network.inbound c).
Qed.

(** One round of the reader either completes a frame, which it records,
    or fails; a failure is a socket failure, and only the failure to read
    the identifier byte sets the error flag. *)
Lemma read_frame_inl (pi pi' : PgIO) (msg : PgMessage) :
  network.read_frame pi = (inl msg, pi') ->
  exists inb,
    pi' = after_reading pi inb [msg] (network.IOError pi) /\
    (length inb < length (network.inbound (network.conn pi)))%nat /\
    network.Position msg = 4%nat.
Proof.
  unfold network.read_frame.
  destruct (network.ReadByte (network.conn pi)) as [[id|e] c] eqn:HR;
    [|intros H; discriminate H].
  apply ReadByte_inv in HR as (rest & Hin & ->).
  destruct (network.Peek 4 _) as [hdr|e] eqn:HP; [|intros H; discriminate H].
  destruct (network.ReadFull _ _) as [[content|e] c'] eqn:HF;
    [|intros H; discriminate H].
  apply ReadFull_inv in HF as (-> & -> & Hn).
  intros H; injection H as <- <-. simpl in *.
  eexists. split; [reflexivity|]. split; [|reflexivity].
  rewrite Hin. simpl. rewrite length_skipn. lia.
Qed.

Lemma read_frame_inr (pi pi' : PgIO) (e : error) :
  network.read_frame pi = (inr e, pi') ->
  socket_failure e = true /\
  exists inb ioe,
    pi' = after_reading pi inb [] ioe /\
    (ioe = network.IOError pi \/ ioe = Some e).
Proof.
  unfold network.read_frame.
  destruct (network.ReadByte (network.conn pi)) as [[id|e0] c] eqn:HR.
  - apply ReadByte_inv in HR as (rest & Hin & ->).
    destruct (network.Peek 4 _) as [hdr|e1] eqn:HP.
    + destruct (network.ReadFull _ _) as [[content|e2] c'] eqn:HF;
        [intros H; discriminate H|].
      apply ReadFull_inv in HF as [He ->].
      intros H; injection H as <- <-. split; [assumption|].
      exists [], (network.IOError pi). split; [|now left].
      unfold after_reading; simpl. rewrite app_nil_r. now destruct pi.
    + apply Peek_inv in HP as [-> _].
      intros H; injection H as <- <-. split; [reflexivity|].
      eexists _, (network.IOError pi). split; [|now left].
      unfold after_reading; simpl. rewrite app_nil_r. now destruct pi.
  - apply ReadByte_inv in HR as (-> & -> & Hin).
    intros H; injection H as <- <-. split; [reflexivity|].
    exists (network.inbound (network.conn pi)), (Some io_EOF).
    split; [|now right].
    unfold after_reading; simpl. rewrite app_nil_r.
    destruct pi as [d c tx pid sc key loc ioe]; now destruct c.
Qed.

(** The receive loop, read backwards from its result: the frames it
    returns are those it recorded; without an error the last of them is
    the first one with the separator's identifier; an error is a socket
    failure and comes before any frame with that identifier. *)
Lemma receive_loop_inv (budget : nat) (sep : byte) :
  forall (ms : list PgMessage) (pi : PgIO) ms' err pi',
    network.receive_loop budget sep ms pi = ((ms', err), pi') ->
    exists inb new ioe,
      ms' = ms ++ new /\
      pi' = after_reading pi inb new ioe /\
      Forall (fun m => network.Position m = 4%nat) new /\
      match err with
      | None =>
          ioe = network.IOError pi /\
          exists init a,
            new = init ++ [a] /\ is_id sep a = true /\
            Forall (fun m => is_id sep m = false) init
      | Some e =>
          socket_failure e = true /\
          Forall (fun m => is_id sep m = false) new
      end.
Proof.
  induction budget as [|budget IH]; intros ms pi ms' err pi'; simpl;
    destruct (network.read_frame pi) as [[msg|e] pi1] eqn:Hrf.
  - apply read_frame_inl in Hrf as (inb & -> & _ & Hpos).
    destruct (Byte.eqb (network.Identifies msg) sep) eqn:Hsep;
      intros H; injection H as <- <- <-; exists inb, [msg], (network.IOError pi).
    + repeat split; auto. exists [], msg. repeat split; auto.
    + repeat split; auto.
  - apply read_frame_inr in Hrf as (He & inb & ioe & -> & _).
    intros H; injection H as <- <- <-. exists inb, [], ioe.
    rewrite app_nil_r. repeat split; auto.
  - apply read_frame_inl in Hrf as (inb & -> & _ & Hpos).
    destruct (Byte.eqb (network.Identifies msg) sep) eqn:Hsep.
    + intros H; injection H as <- <- <-. exists inb, [msg], (network.IOError pi).
      repeat split; auto. exists [], msg. repeat split; auto.
    + intros H. apply IH in H as (inb' & new & ioe & -> & -> & Hp & Herr).
      exists inb', (msg :: new), ioe.
      rewrite after_reading_again, <- app_assoc. repeat split; auto.
      destruct err as [e|].
      * destruct Herr as [He Hnew]. split; auto.
      * destruct Herr as (-> & init & a & -> & Ha & Hinit). split; [reflexivity|].
        exists (msg :: init), a. repeat split; auto.
  - apply read_frame_inr in Hrf as (He & inb & ioe & -> & _).
    intros H; injection H as <- <- <-. exists inb, [], ioe.
    rewrite app_nil_r. repeat split; auto.
Qed.

(** The budget of the loop is never used up: any budget that covers the
    bytes left on the wire gives the same result. *)
Lemma receive_loop_budget (sep : byte) (b1 : nat) :
  forall (b2 : nat) (ms : list PgMessage) (pi : PgIO),
    (length (network.inbound (network.conn pi)) <= b1)%nat ->
    (length (network.inbound (network.conn pi)) <= b2)%nat ->
    network.receive_loop b1 sep ms pi = network.receive_loop b2 sep ms pi.
Proof.
  induction b1 as [|b1 IH]; intros b2 ms pi H1 H2.
  - destruct b2; simpl; destruct (network.read_frame pi) as [[msg|e] pi1] eqn:Hrf;
      try reflexivity;
      apply read_frame_inl in Hrf as (inb & -> & Hlt & _); lia.
  - destruct b2 as [|b2]; simpl;
      destruct (network.read_frame pi) as [[msg|e] pi1] eqn:Hrf;
      try reflexivity;
      apply read_frame_inl in Hrf as (inb & -> & Hlt & _); [lia|].
    destruct (Byte.eqb (network.Identifies msg) sep); [reflexivity|].
    apply IH; simpl; lia.
Qed.

Lemma receivePgMsg_inv (sep : byte) (pi : PgIO) ms err pi' :
  network.receivePgMsg sep pi = ((ms, err), pi') ->
  exists inb ioe,
    pi' = after_reading pi inb ms ioe /\
    Forall (fun m => network.Position m = 4%nat) ms /\
    match err with
    | None =>
        ioe = network.IOError pi /\
        exists init a,
          ms = init ++ [a] /\ is_id sep a = true /\
          Forall (fun m => is_id sep m = false) init
    | Some e =>
        socket_failure e = true /\
        Forall (fun m => is_id sep m = false) ms
    end.
Proof.
  unfold network.receivePgMsg. intros H.
  apply receive_loop_inv in H as (inb & new & ioe & -> & -> & Hp & Herr).
  now exists inb, ioe.
Qed.

(** The receive loop, read forwards from the stream. *)
Lemma ReadByte_cons (c : Conn) (b : byte) (rest : list byte) :
  network.inbound c = b :: rest ->
  network.ReadByte c = (inl b, network.set_inbound c rest).
Proof. unfold network.ReadByte. now intros ->. Qed.

Lemma Peek_ok (n : nat) (c : Conn) (l : list byte) :
  network.inbound c = l -> (n <= length l)%nat ->
  network.Peek n c = inl (firstn n l).
Proof.
  unfold network.Peek. intros -> Hn.
  apply Nat.leb_le in Hn. now rewrite Hn.
Qed.

Lemma ReadFull_ok (n : nat) (c : Conn) (l : list byte) :
  network.inbound c = l -> (n <= length l)%nat ->
  network.ReadFull n c = (inl (firstn n l), network.set_inbound c (skipn n l)).
Proof.
  unfold network.ReadFull. intros -> Hn.
  apply Nat.leb_le in Hn. now rewrite Hn.
Qed.

Lemma read_frame_wire (pi : PgIO) (m : PgMessage) (rest : list byte) :
  framed m ->
  network.inbound (network.conn pi) = wire m ++ rest ->
  network.read_frame pi = (inl m, after_reading pi rest [m] (network.IOError pi)).
Proof.
  intros (Hpos & Hlen & Hhdr & H4) Hin.
  unfold network.read_frame.
  rewrite (ReadByte_cons _ (network.Identifies m) (network.Content m ++ rest) Hin).
  set (c := network.set_inbound (network.conn pi) (network.Content m ++ rest)).
  rewrite (Peek_ok 4 c (network.Content m ++ rest) eq_refl)
    by (rewrite length_app; lia).
  assert (Hhd : firstn 4 (network.Content m ++ rest) = firstn 4 (network.Content m)).
  { rewrite firstn_app. replace (4 - length (network.Content m))%nat with 0%nat by lia.
    simpl. now rewrite app_nil_r. }
  rewrite Hhd, Hhdr, Hlen, Nat2Z.id.
  rewrite (ReadFull_ok _ c (network.Content m ++ rest) eq_refl)
    by (rewrite length_app; lia).
  rewrite firstn_app, Nat.sub_diag, firstn_all, firstn_O, app_nil_r.
  rewrite skipn_app, Nat.sub_diag, skipn_all, skipn_O.
  destruct m as [id len pos content]; simpl in *. subst. reflexivity.
Qed.

Lemma receive_loop_wire (sep : byte) (a : PgMessage) (rest : list byte) :
  framed a -> is_id sep a = true ->
  forall (init : list PgMessage) (budget : nat) (ms : list PgMessage) (pi : PgIO),
    Forall framed init ->
    Forall (fun m => is_id sep m = false) init ->
    network.inbound (network.conn pi) = concat (map wire init) ++ wire a ++ rest ->
    (length init <= budget)%nat ->
    network.receive_loop budget sep ms pi
    = ((ms ++ init ++ [a], None),
       after_reading pi rest (init ++ [a]) (network.IOError pi)).
Proof.
  intros Ha Hsep. induction init as [|m init IH]; intros budget ms pi Hfr Hns Hin Hb.
  - simpl in Hin. destruct budget; simpl;
      rewrite (read_frame_wire pi a rest Ha Hin);
      unfold is_id in Hsep; rewrite Hsep; reflexivity.
  - inversion Hfr as [|? ? Hm Hfr']; subst. inversion Hns as [|? ? Hmn Hns']; subst.
    simpl in Hin. rewrite <- app_assoc in Hin.
    destruct budget as [|budget]; [simpl in Hb; lia|]. simpl.
    rewrite (read_frame_wire pi m _ Hm Hin).
    unfold is_id in Hmn; rewrite Hmn.
    rewrite IH; auto; [|simpl in Hb; lia].
    rewrite after_reading_again. simpl. now rewrite <- app_assoc.
Qed.

Lemma concat_wire_length (init : list PgMessage) :
  (length init <= length (concat (map wire init)))%nat.
Proof.
  induction init as [|m init IH]; simpl; [lia|].
  rewrite length_app. simpl. lia.
Qed.

Lemma receivePgMsg_wire (sep : byte) (pi : PgIO)
      (init : list PgMessage) (a : PgMessage) (rest : list byte) :
  Forall framed init -> framed a ->
  Forall (fun m => is_id sep m = false) init -> is_id sep a = true ->
  network.inbound (network.conn pi) = concat (map wire init) ++ wire a ++ rest ->
  network.receivePgMsg sep pi
  = ((init ++ [a], None), after_reading pi rest (init ++ [a]) (network.IOError pi)).
Proof.
  intros Hfr Ha Hns Hsep Hin. unfold network.receivePgMsg.
  rewrite (receive_loop_wire sep a rest Ha Hsep init _ [] pi Hfr Hns Hin); [reflexivity|].
  rewrite Hin, length_app. pose proof (concat_wire_length init). lia.
Qed.

(** * The response loops *)

Lemma byte_payload (v v' : PgMessage) (b : byte) :
  network.Position v = 4%nat ->
  network.byte v = Some (b, v') -> payload_byte v = Some b.
Proof.
  unfold network.byte, network.bytes, payload_byte. intros ->.
  rewrite <- hd_error_skipn.
  destruct (4 + Z.to_nat 1 <=? length (network.Content v))%nat; [|discriminate].
  destruct (skipn 4 (network.Content v)) as [|c l]; simpl; [discriminate|].
  intros H; now injection H as -> _.
Qed.

Lemma ReadyForQuery_inv (pi pi' : PgIO) (v : PgMessage) :
  network.Position v = 4%nat ->
  network.ReadyForQuery pi v = Some pi' ->
  exists b, payload_byte v = Some b /\ pi' = network.set_txStatus pi b.
Proof.
  unfold network.ReadyForQuery. intros Hpos.
  destruct (network.byte v) as [[b v']|] eqn:Hb; simpl; [|discriminate].
  intros H; injection H as <-. exists b. split; [|reflexivity].
  eapply byte_payload; eauto.
Qed.

(** Case analysis on the identifier tests of a response loop. *)
Ltac by_identifier v :=
  repeat match goal with
    | |- context [Byte.eqb (network.Identifies v) ?c] =>
        let H := fresh "Hid" in
        destruct (Byte.eqb (network.Identifies v) c) eqn:H;
        [apply Byte.byte_dec_bl in H; rewrite H in *; cbn [Byte.eqb] | ]
    end.

Ltac loop_case Hpos :=
  let H := fresh "H" in
  intros H;
  repeat first
    [ progress simplify_option_eq
    | match goal with p : (_ * _)%type |- _ => destruct p end
    | case_match ];
  simplify_eq; cbn [fst snd];
  try (split; [reflexivity|]);
  match goal with
  | R : network.ReadyForQuery _ _ = Some _ |- _ =>
      destruct (ReadyForQuery_inv _ _ _ Hpos R) as (? & ? & ->); eauto
  | _ => cbn; reflexivity
  end.

Lemma QueryNoArgs_case_spec :
  case_spec (fun st => snd (fst st)) snd network.QueryNoArgs_case.
Proof.
  intros [[[[cols fl] data] err] pi] v st' Hpos. unfold is_id. simpl.
  by_identifier v; loop_case Hpos.
Qed.

Lemma Parse_case_spec :
  case_spec (fun st => snd (fst st)) snd network.Parse_case.
Proof.
  intros [[[cols parameters] err] pi] v st' Hpos. unfold is_id. simpl.
  by_identifier v; loop_case Hpos.
Qed.

Lemma ParseExec_case_spec :
  case_spec (fun st => snd (fst st)) snd network.ParseExec_case.
Proof.
  intros [[n err] pi] v st' Hpos. unfold is_id. simpl.
  by_identifier v; loop_case Hpos.
Qed.

Lemma ParseQuery_case_spec :
  case_spec (fun st => snd (fst st)) snd network.ParseQuery_case.
Proof.
  intros [[[fl data] err] pi] v st' Hpos. unfold is_id. simpl.
  by_identifier v; loop_case Hpos.
Qed.

Lemma CloseParse_case_spec :
  case_spec fst snd network.CloseParse_case.
Proof.
  intros [err pi] v st' Hpos. unfold is_id. simpl.
  by_identifier v; loop_case Hpos.
Qed.

Lemma set_txStatus_id (pi : PgIO) : network.set_txStatus pi (network.txStatus pi) = pi.
Proof. now destruct pi. Qed.

Section ResponseLoop.

Context {St : Type} (err_of : St -> option error) (pi_of : St -> PgIO).
Variable f : St -> PgMessage -> option St.
Hypothesis Hf : case_spec err_of pi_of f.

(** A response loop that ends leaves the last ErrorResponse as the
    error and the last ReadyForQuery's byte as the transaction status. *)
Lemma range_spec (list : list PgMessage) :
  forall st st',
    Forall (fun m => network.Position m = 4%nat) list ->
    network.range f st list = Some st' ->
    err_of st' = last_error list (err_of st) /\
    pi_of st' = network.set_txStatus (pi_of st)
                  (last_status list (network.txStatus (pi_of st))) /\
    Forall (fun v => is_id network.IdentifiesReadyForQuery v = true ->
                     payload_byte v <> None) list.
Proof.
  induction list as [|v list IH]; intros st st' Hpos; simpl.
  - intros H; injection H as <-. rewrite set_txStatus_id. auto.
  - inversion Hpos as [|? ? Hv Hl]; subst.
    destruct (f st v) as [a|] eqn:Hfv; simpl; [|intros H; discriminate H].
    intros Hr. destruct (Hf st v a Hv Hfv) as [He Hp].
    destruct (IH a st' Hl Hr) as (IHe & IHp & IHf).
    rewrite IHe, IHp, He. unfold last_error, last_status; simpl.
    destruct (is_id network.IdentifiesReadyForQuery v) eqn:Hz.
    + destruct Hp as (b & Hb & ->). rewrite Hb. simpl.
      repeat split; auto. constructor; auto. intros _. congruence.
    + rewrite Hp. repeat split; auto. constructor; auto.
      intros Ht; unfold is_id in *; congruence.
Qed.

End ResponseLoop.

Lemma last_status_app (l1 l2 : list PgMessage) (b : byte) :
  last_status (l1 ++ l2) b = last_status l2 (last_status l1 b).
Proof. unfold last_status. now rewrite fold_left_app. Qed.

Lemma last_status_final (init : list PgMessage) (rfq : PgMessage) (b0 b : byte) :
  is_id network.IdentifiesReadyForQuery rfq = true ->
  payload_byte rfq = Some b ->
  last_status (init ++ [rfq]) b0 = b.
Proof.
  intros Hz Hb. rewrite last_status_app. unfold last_status at 1; simpl.
  now rewrite Hz, Hb.
Qed.

Lemma last_error_app (l1 l2 : list PgMessage) (e : option error) :
  last_error (l1 ++ l2) e = last_error l2 (last_error l1 e).
Proof. unfold last_error. now rewrite fold_left_app. Qed.

Lemma last_error_none (l : list PgMessage) (e : option error) :
  Forall (fun m => is_id network.IdentifiesErrorResponse m = false) l ->
  last_error l e = e.
Proof.
  induction 1 as [|m l Hm _ IH]; [reflexivity|].
  unfold last_error in *; simpl. now rewrite Hm.
Qed.

(** With an ErrorResponse in the response, the error of the call is the
    parse of the last one, wherever it stands. *)
Lemma last_error_ErrorResponse (l1 l2 : list PgMessage) (v : PgMessage) (e : option error) :
  is_id network.IdentifiesErrorResponse v = true ->
  Forall (fun m => is_id network.IdentifiesErrorResponse m = false) l2 ->
  last_error (l1 ++ v :: l2) e = Some (network.ParseError v).
Proof.
  intros Hv Hl2. rewrite last_error_app.
  change (v :: l2) with ([v] ++ l2). rewrite last_error_app.
  rewrite last_error_none by assumption.
  unfold last_error; simpl. now rewrite Hv.
Qed.

(** * The query operations on the wire *)

Lemma range_outcome {St : Type} (err_of : St -> option error) (pi_of : St -> PgIO)
      (f : St -> PgMessage -> option St) (pi pi1 pi2 : PgIO)
      (out list : list PgMessage) (st0 st' : St) :
  case_spec err_of pi_of f ->
  network.send out pi = (None, pi1) ->
  network.receivePgMsg network.IdentifiesReadyForQuery pi1 = ((list, None), pi2) ->
  err_of st0 = None -> pi_of st0 = pi2 ->
  network.range f st0 list = Some st' ->
  call_outcome pi out (err_of st') (pi_of st').
Proof.
  intros Hf Hs Hr He0 Hp0 Hrange.
  destruct (receivePgMsg_inv _ _ _ _ _ Hr)
    as (inb & ioe & _ & Hpos & _ & init & rfq & -> & Hz & Hinit).
  destruct (range_spec err_of pi_of f Hf _ _ _ Hpos Hrange) as (He & Hp & Hpay).
  apply Forall_app in Hpay as [_ Hpay]. inversion Hpay as [|? ? Hb _]; subst.
  destruct (payload_byte rfq) as [b|] eqn:Hpb; [|now elim (Hb Hz)].
  rewrite He, Hp, He0, (last_status_final init rfq _ b Hz Hpb).
  eapply drained; eauto.
Qed.

Lemma QueryNoArgs_outcome (query : string) (pi pi' : PgIO) cols fieldLen data err :
  network.QueryNoArgs query pi = Some (cols, fieldLen, data, err, pi') ->
  call_outcome pi (query_batch query) err pi'.
Proof.
  unfold network.QueryNoArgs. fold (query_batch query).
  destruct (network.send _ pi) as [[e|] pi1] eqn:Hs.
  { intros H; injection H as <- <- <- <- <-. now apply write_failed. }
  destruct (network.receivePgMsg _ pi1) as [[list [e|]] pi2] eqn:Hr.
  { intros H; injection H as <- <- <- <- <-. eapply read_failed; eauto. }
  destruct (network.range _ _ list) as [[[[[c fl] d] e] p]|] eqn:Hrange;
    simpl; [|intros H; discriminate H].
  intros H; injection H as <- <- <- <- <-.
  eapply (range_outcome (fun st => snd (fst st)) snd) in Hrange;
    [exact Hrange | apply QueryNoArgs_case_spec | exact Hs | exact Hr | reflexivity | reflexivity].
Qed.

Lemma Parse_outcome (name query : string) (pi pi' : PgIO) cols parameters err :
  network.Parse name query pi = Some (cols, parameters, err, pi') ->
  call_outcome pi (parse_batch name query) err pi'.
Proof.
  unfold network.Parse. fold (parse_batch name query).
  destruct (network.send _ pi) as [[e|] pi1] eqn:Hs.
  { intros H; injection H as <- <- <- <-. now apply write_failed. }
  destruct (network.receivePgMsg _ pi1) as [[list [e|]] pi2] eqn:Hr.
  { intros H; injection H as <- <- <- <-. eapply read_failed; eauto. }
  intros Hrange.
  eapply (range_outcome (fun st => snd (fst st)) snd) in Hrange;
    [exact Hrange | apply Parse_case_spec | exact Hs | exact Hr | reflexivity | reflexivity].
Qed.

Lemma ParseExec_outcome {Value : Type} (value2bytes : Value -> list byte)
      (name : string) (args : list (option Value)) (pi pi' : PgIO) n err :
  network.ParseExec value2bytes name args pi = Some (n, err, pi') ->
  call_outcome pi (bind_batch value2bytes name args) err pi'.
Proof.
  unfold network.ParseExec. fold (bind_batch value2bytes name args).
  destruct (network.send _ pi) as [[e|] pi1] eqn:Hs.
  { intros H; injection H as <- <- <-. now apply write_failed. }
  destruct (network.receivePgMsg _ pi1) as [[list [e|]] pi2] eqn:Hr.
  { intros H; injection H as <- <- <-. eapply read_failed; eauto. }
  intros Hrange.
  eapply (range_outcome (fun st => snd (fst st)) snd) in Hrange;
    [exact Hrange | apply ParseExec_case_spec | exact Hs | exact Hr | reflexivity | reflexivity].
Qed.

Lemma ParseQuery_outcome {Value : Type} (value2bytes : Value -> list byte)
      (name : string) (args : list (option Value)) (pi pi' : PgIO) fieldLen data err :
  network.ParseQuery value2bytes name args pi = Some (fieldLen, data, err, pi') ->
  call_outcome pi (bind_batch value2bytes name args) err pi'.
Proof.
  unfold network.ParseQuery. fold (bind_batch value2bytes name args).
  destruct (network.send _ pi) as [[e|] pi1] eqn:Hs.
  { intros H; injection H as <- <- <- <-. now apply write_failed. }
  destruct (network.receivePgMsg _ pi1) as [[list [e|]] pi2] eqn:Hr.
  { intros H; injection H as <- <- <- <-. eapply read_failed; eauto. }
  destruct (network.range _ _ list) as [[[[fl d] e] p]|] eqn:Hrange;
    simpl; [|intros H; discriminate H].
  intros H; injection H as <- <- <- <-.
  eapply (range_outcome (fun st => snd (fst st)) snd) in Hrange;
    [exact Hrange | apply ParseQuery_case_spec | exact Hs | exact Hr | reflexivity | reflexivity].
Qed.

Lemma CloseParse_outcome (name : string) (pi pi' : PgIO) err :
  network.CloseParse name pi = Some (err, pi') ->
  call_outcome pi (close_batch name) err pi'.
Proof.
  unfold network.CloseParse. fold (close_batch name).
  destruct (network.send _ pi) as [[e|] pi1] eqn:Hs.
  { intros H; injection H as <- <-. now apply write_failed. }
  destruct (network.receivePgMsg _ pi1) as [[list [e|]] pi2] eqn:Hr.
  { intros H; injection H as <- <-. eapply read_failed; eauto. }
  intros Hrange.
  eapply (range_outcome fst snd) in Hrange;
    [exact Hrange | apply CloseParse_case_spec | exact Hs | exact Hr | reflexivity | reflexivity].
Qed.

Lemma send_inv (out : list PgMessage) (pi pi1 : PgIO) (e : option error) :
  network.send out pi = (e, pi1) ->
  exists wf,
    pi1 = after_writing pi (concat (map network.encode out)) wf e /\
    (write_ok (network.conn pi) = true <-> e = None) /\
    (forall x, e = Some x -> socket_failure x = true).
Proof.
  unfold network.send, network.conn_Write, write_ok.
  destruct (network.closed (network.conn pi)) eqn:Hc; simpl.
  - intros H; injection H as <- <-. eexists. split.
    + unfold after_writing; simpl. rewrite Hc. reflexivity.
    + split; [split; discriminate|]. intros x H; now injection H as <-.
  - destruct (network.wfaults (network.conn pi)) as [|[tag|] wf] eqn:Hw; simpl;
      intros H; injection H as <- <-; eexists;
      (split; [unfold after_writing; simpl; rewrite Hc; reflexivity|]).
    + split; [tauto|]. discriminate.
    + split; [split; discriminate|]. intros x H; now injection H as <-.
    + split; [tauto|]. discriminate.
Qed.

Lemma query_call_outcome {Value : Type} (value2bytes : Value -> list byte)
      (pi pi' : PgIO) (err : option error) :
  query_call value2bytes pi err pi' ->
  exists out, call_outcome pi out err pi'.
Proof.
  intros [query cols fl data H|name query cols ps H|name args n H
         |name args fl data H|name H]; eexists.
  - eapply QueryNoArgs_outcome; eauto.
  - eapply Parse_outcome; eauto.
  - eapply ParseExec_outcome; eauto.
  - eapply ParseQuery_outcome; eauto.
  - eapply CloseParse_outcome; eauto.
Qed.

Lemma call_outcome_drained (pi pi' : PgIO) (out : list PgMessage) (err : option error) :
  call_outcome pi out err pi' ->
  no_socket_failure err ->
  drained_to_ready pi pi'.
Proof.
  intros [e pi1 Hs|e ms pi1 pi2 Hs Hr|init rfq b pi1 pi2 Hs Hr Hinit Hz Hb] Hok.
  - apply send_inv in Hs as (wf & _ & _ & He).
    simpl in Hok. rewrite (He e eq_refl) in Hok. discriminate.
  - apply receivePgMsg_inv in Hr as (inb & ioe & _ & _ & He & _).
    simpl in Hok. rewrite He in Hok. discriminate.
  - apply send_inv in Hs as (wf & -> & _ & _).
    apply receivePgMsg_inv in Hr as (inb & ioe & -> & _ & _ & _).
    exists init, rfq. simpl. repeat split; auto.
    rewrite app_assoc. apply last_snoc.
Qed.

(** * The operations return

    The response loops stop without a result only when a cursor read
    fails.  On a response made of messages that the loops do not read
    with the cursor (an ErrorResponse is one), closed by a ReadyForQuery
    that has its status byte, every query operation returns. *)

Lemma payload_byte_read (v : PgMessage) (b : byte) :
  network.Position v = 4%nat ->
  payload_byte v = Some b ->
  network.byte v = Some (b, network.advance v 1).
Proof.
  unfold payload_byte, network.byte, network.bytes. intros -> Hb.
  assert (Hlen : (4 < length (network.Content v))%nat)
    by (apply nth_error_Some; congruence).
  rewrite <- hd_error_skipn in Hb.
  change (Z.to_nat 1) with 1%nat.
  assert (Hle : (4 + 1 <=? length (network.Content v))%nat = true)
    by (apply Nat.leb_le; lia).
  rewrite Hle. destruct (skipn 4 (network.Content v)) as [|c l]; simpl in *;
    [discriminate Hb|].
  now injection Hb as ->.
Qed.

Lemma range_total {St : Type} (f : St -> PgMessage -> option St)
      (list : list PgMessage) :
  Forall (fun v => forall st, f st v <> None) list ->
  forall st, network.range f st list <> None.
Proof.
  induction 1 as [|v list Hv _ IH]; intros st; simpl; [discriminate|].
  destruct (f st v) as [a|] eqn:Hf; simpl; [apply IH|]. now elim (Hv st).
Qed.

Ltac plain_case v Hplain :=
  destruct Hplain as (HD & HT & Ht & HC & HZ); unfold is_id in *;
  by_identifier v; simpl; congruence.

Ltac ready_case v Hz Hpos Hb :=
  unfold is_id in Hz; apply Byte.byte_dec_bl in Hz;
  unfold network.ReadyForQuery; rewrite Hz; simpl;
  rewrite (payload_byte_read _ _ Hpos Hb); simpl; discriminate.

(** Each case analysis accepts such a response. *)
Lemma accepted_response {St : Type} (f : St -> PgMessage -> option St)
      (init : list PgMessage) (rfq : PgMessage) :
  (forall st v, plain v -> f st v <> None) ->
  (forall st, f st rfq <> None) ->
  Forall plain init ->
  forall st, network.range f st (init ++ [rfq]) <> None.
Proof.
  intros Hplain Hrfq Hinit. apply range_total.
  apply Forall_app. split.
  - eapply List.Forall_impl; [|exact Hinit]. intros v Hv st. now apply Hplain.
  - constructor; [exact Hrfq|constructor].
Qed.

Section Returns.

Context {Value : Type} (value2bytes : Value -> list byte).
Variables (pi : PgIO) (init : list PgMessage) (rfq : PgMessage) (rest : list byte).
Variable b : byte.
Hypothesis Hw : write_ok (network.conn pi) = true.
Hypothesis Hin :
  network.inbound (network.conn pi) = concat (map wire init) ++ wire rfq ++ rest.
Hypothesis Hfr : Forall framed init.
Hypothesis Hfz : framed rfq.
Hypothesis Hplain : Forall plain init.
Hypothesis Hz : is_id network.IdentifiesReadyForQuery rfq = true.
Hypothesis Hb : payload_byte rfq = Some b.

Lemma plain_not_ready :
  Forall (fun m => is_id network.IdentifiesReadyForQuery m = false) init.
Proof.
  eapply List.Forall_impl; [|exact Hplain]. now intros v (_ & _ & _ & _ & H).
Qed.

(** What every operation finds once its batch is written. *)
Lemma exchange_wire (out : list PgMessage) :
  exists pi1,
    network.send out pi = (None, pi1) /\
    network.receivePgMsg network.IdentifiesReadyForQuery pi1
    = ((init ++ [rfq], None),
       after_reading pi1 rest (init ++ [rfq]) (network.IOError pi1)).
Proof.
  destruct (network.send out pi) as [e pi1] eqn:Hs. exists pi1.
  pose proof Hs as Hs'. apply send_inv in Hs' as (wf & -> & Hok & _).
  apply Hok in Hw as ->. split; [reflexivity|].
  apply receivePgMsg_wire; auto using plain_not_ready.
Qed.

Lemma QueryNoArgs_returns (query : string) :
  network.QueryNoArgs query pi <> None.
Proof.
  unfold network.QueryNoArgs.
  destruct (exchange_wire (query_batch query)) as (pi1 & Hs & Hr).
  unfold query_batch in Hs. rewrite Hs, Hr.
  destruct (network.range _ _ _) as [[[[[c fl] d] e] p]|] eqn:Hrange;
    [simpl; discriminate|].
  exfalso. revert Hrange. apply accepted_response; auto.
  - intros [[[[c fl] d] e] p] v Hv. unfold network.QueryNoArgs_case.
    plain_case v Hv.
  - intros [[[[c fl] d] e] p]. unfold network.QueryNoArgs_case.
    ready_case rfq Hz (proj1 Hfz) Hb.
Qed.

Lemma Parse_returns (name query : string) :
  network.Parse name query pi <> None.
Proof.
  unfold network.Parse.
  destruct (exchange_wire (parse_batch name query)) as (pi1 & Hs & Hr).
  unfold parse_batch in Hs. rewrite Hs, Hr.
  apply accepted_response; auto.
  - intros [[[c ps] e] p] v Hv. unfold network.Parse_case.
    plain_case v Hv.
  - intros [[[c ps] e] p]. unfold network.Parse_case.
    ready_case rfq Hz (proj1 Hfz) Hb.
Qed.

Lemma ParseExec_returns (name : string) (args : list (option Value)) :
  network.ParseExec value2bytes name args pi <> None.
Proof.
  unfold network.ParseExec.
  destruct (exchange_wire (bind_batch value2bytes name args)) as (pi1 & Hs & Hr).
  unfold bind_batch in Hs. rewrite Hs, Hr.
  apply accepted_response; auto.
  - intros [[n e] p] v Hv. unfold network.ParseExec_case.
    plain_case v Hv.
  - intros [[n e] p]. unfold network.ParseExec_case.
    ready_case rfq Hz (proj1 Hfz) Hb.
Qed.

Lemma ParseQuery_returns (name : string) (args : list (option Value)) :
  network.ParseQuery value2bytes name args pi <> None.
Proof.
  unfold network.ParseQuery.
  destruct (exchange_wire (bind_batch value2bytes name args)) as (pi1 & Hs & Hr).
  unfold bind_batch in Hs. rewrite Hs, Hr.
  destruct (network.range _ _ _) as [[[[fl d] e] p]|] eqn:Hrange;
    [simpl; discriminate|].
  exfalso. revert Hrange. apply accepted_response; auto.
  - intros [[[fl d] e] p] v Hv. unfold network.ParseQuery_case.
    plain_case v Hv.
  - intros [[[fl d] e] p]. unfold network.ParseQuery_case.
    ready_case rfq Hz (proj1 Hfz) Hb.
Qed.

Lemma CloseParse_returns (name : string) :
  network.CloseParse name pi <> None.
Proof.
  unfold network.CloseParse.
  destruct (exchange_wire (close_batch name)) as (pi1 & Hs & Hr).
  unfold close_batch in Hs. rewrite Hs, Hr.
  apply accepted_response; auto.
  - intros [e p] v Hv. unfold network.CloseParse_case.
    plain_case v Hv.
  - intros [e p]. unfold network.CloseParse_case.
    ready_case rfq Hz (proj1 Hfz) Hb.
Qed.

End Returns.

(** * The budget of the start-up loop *)

Lemma read_frame_inbound (pi pi' : PgIO) (r : PgMessage + error) :
  network.read_frame pi = (r, pi') ->
  (length (network.inbound (network.conn pi'))
   <= length (network.inbound (network.conn pi)))%nat.
Proof.
  destruct r as [msg|e]; intros H.
  - apply read_frame_inl in H as (inb & -> & Hlt & _). simpl. lia.
  - unfold network.read_frame in H.
    destruct (network.ReadByte (network.conn pi)) as [[id|e0] c] eqn:HR.
    + apply ReadByte_inv in HR as (rest & Hin & ->).
      destruct (network.Peek 4 _) as [hdr|e1] eqn:HP.
      * destruct (network.ReadFull _ _) as [[content|e2] c'] eqn:HF;
          [discriminate H|].
        apply ReadFull_inv in HF as [_ ->].
        injection H as _ <-. simpl. lia.
      * injection H as _ <-. simpl. rewrite Hin. simpl. lia.
    + apply ReadByte_inv in HR as (_ & -> & _).
      injection H as _ <-. simpl. lia.
Qed.

Lemma receive_loop_inbound (sep : byte) (budget : nat) :
  forall (ms : list PgMessage) (pi : PgIO) r pi',
    network.receive_loop budget sep ms pi = (r, pi') ->
    (length (network.inbound (network.conn pi'))
     <= length (network.inbound (network.conn pi)))%nat.
Proof.
  induction budget as [|budget IH]; intros ms pi r pi'; simpl;
    destruct (network.read_frame pi) as [[msg|e] pi1] eqn:Hrf;
    apply read_frame_inbound in Hrf.
  - destruct (Byte.eqb _ _); intros H; injection H as _ <-; exact Hrf.
  - intros H; injection H as _ <-; exact Hrf.
  - destruct (Byte.eqb _ _); [intros H; injection H as _ <-; exact Hrf|].
    intros H. apply IH in H. lia.
  - intros H; injection H as _ <-; exact Hrf.
Qed.

Lemma password_exchange_inbound (reqPwd : PgMessage) (pi pi' : PgIO) err :
  network.password_exchange reqPwd pi = Some (err, pi') ->
  (length (network.inbound (network.conn pi'))
   <= length (network.inbound (network.conn pi)))%nat.
Proof.
  unfold network.password_exchange.
  destruct (network.send _ pi) as [[e|] pi1] eqn:Hs;
    apply send_inv in Hs as (wf & -> & _ & _).
  { intros H; injection H as _ <-. simpl. lia. }
  unfold network.receivePgMsg.
  destruct (network.receive_loop _ _ _ _) as [[list [e|]] pi2] eqn:Hr;
    apply receive_loop_inbound in Hr; simpl in Hr.
  { intros H; injection H as _ <-. exact Hr. }
  destruct (network.auth_answer list) as [a|]; simpl; [|intros H; discriminate H].
  intros H; injection H as _ <-. exact Hr.
Qed.

Lemma auth_inbound (msg : PgMessage) (pi pi' : PgIO) err :
  network.auth msg pi = Some (err, pi') ->
  (length (network.inbound (network.conn pi'))
   <= length (network.inbound (network.conn pi)))%nat.
Proof.
  unfold network.auth.
  destruct (network.int32 msg) as [[code msg1]|]; simpl; [|intros H; discriminate H].
  destruct (code =? 0); [intros H; injection H as _ <-; lia|].
  destruct (code =? 3); [apply password_exchange_inbound|].
  destruct (code =? 5); [|intros H; injection H as _ <-; lia].
  destruct (network.bytes msg1 4) as [[salt msg2]|]; simpl;
    [|intros H; discriminate H].
  apply password_exchange_inbound.
Qed.

Section StartUpBudget.

Variable LoadLocation : string -> option string.

(** As for [receive_loop]: any budget that covers the bytes left on
    the wire gives the same result. *)
Lemma StartUp_loop_budget (b1 : nat) :
  forall (b2 : nat) (pi : PgIO),
    (length (network.inbound (network.conn pi)) <= b1)%nat ->
    (length (network.inbound (network.conn pi)) <= b2)%nat ->
    network.StartUp_loop LoadLocation b1 pi = network.StartUp_loop LoadLocation b2 pi.
Proof.
  induction b1 as [|b1 IH]; intros b2 pi H1 H2.
  - destruct b2; simpl; unfold network.receivePgMsgOnce;
      destruct (network.read_frame pi) as [[msg|e] pi1] eqn:Hrf;
      try reflexivity;
      apply read_frame_inl in Hrf as (inb & -> & Hlt & _); lia.
  - destruct b2 as [|b2]; simpl; unfold network.receivePgMsgOnce;
      destruct (network.read_frame pi) as [[msg|e] pi1] eqn:Hrf;
      try reflexivity;
      apply read_frame_inl in Hrf as (inb & -> & Hlt & _); [lia|].
    destruct (Byte.eqb (network.Identifies msg) network.IdentifiesErrorResponse);
      [reflexivity|].
    destruct (Byte.eqb (network.Identifies msg) network.IdentifiesAuth).
    { destruct (network.auth msg _) as [[[e|] pi2]|] eqn:Ha; simpl;
        try reflexivity.
      apply auth_inbound in Ha. simpl in Ha. apply IH; lia. }
    destruct (Byte.eqb (network.Identifies msg) network.IdentifiesParameterStatus).
    { destruct (network.string msg) as [[k m1]|]; simpl; [|reflexivity].
      destruct (network.string m1) as [[v m2]|]; simpl; [|reflexivity].
      apply IH; simpl; lia. }
    destruct (Byte.eqb (network.Identifies msg) network.IdentifiesBackendKeyData).
    { destruct (network.int32 msg) as [[pid m1]|]; simpl; [|reflexivity].
      destruct (network.int32 m1) as [[key m2]|]; simpl; [|reflexivity].
      apply IH; simpl; lia. }
    destruct (Byte.eqb (network.Identifies msg) network.IdentifiesReadyForQuery);
      [reflexivity|].
    apply IH; simpl; lia.
Qed.

End StartUpBudget.

(** * The scenarios of the specification *)

(** Start-up with MD5 authentication: the start-up message and the
    password message are written, and the session ends with the backend
    key data and the idle status. *)
Example scenario_startup_md5 :
  exists pi',
    network.StartUp no_ssl x00 no_location (session md5_startup_stream [])
    = Some (None, pi') /\
    network.written (network.conn pi')
    = [BigEndian.PutUint32 20 ++ BigEndian.PutUint32 196608 ++
       bytes_of "user" ++ [x00] ++ bytes_of "alice" ++ [x00] ++ [x00];
       password_frame (md5_password_body "secret" "alice" [x01; x02; x03; x04])] /\
    network.serverPid pi' = 4242 /\
    network.backendKey pi' = 0xDEADBEEF /\
    network.txStatus pi' = "I"%byte /\
    network.ServerConf pi' !! "server_version" = Some "13.0".
Proof.
  eexists. split; [vm_compute; reflexivity|].
  split; [vm_compute; reflexivity|]. repeat split.
Qed.

(** A simple query with two rows: two columns, the second value of the
    first row is NULL, the second value of the second row is "hi". *)
Example scenario_two_rows :
  exists cols pi',
    network.QueryNoArgs "SELECT a,b FROM t;" two_rows_session
    = Some (cols,
            Some [[1; 4294967295]; [1; 2]],
            Some [[Some (bytes_of "1"); None];
                  [Some (bytes_of "2"); Some (bytes_of "hi")]],
            None, pi') /\
    map network.Name cols = ["a"; "b"] /\
    network.txStatus pi' = "I"%byte.
Proof.
  eexists _, _. split; [vm_compute; reflexivity|]. split; reflexivity.
Qed.

(** Extended execution: the statement is parsed with two parameters,
    and the UPDATE reports three rows. *)
Example scenario_extended_exec :
  (exists pi',
      network.Parse "h" example_sql prepared_session
      = Some ([], [23; 23], None, pi')) /\
  (exists pi',
      network.ParseExec text_value "h" example_args update_session
      = Some (3, None, pi') /\
      network.written (network.conn pi')
      = [concat (map network.encode (bind_batch text_value "h" example_args))]).
Proof.
  split.
  - eexists. vm_compute. reflexivity.
  - eexists. split; [vm_compute; reflexivity|]. reflexivity.
Qed.

(** Closing a statement writes Close and Sync and reads CloseComplete
    and ReadyForQuery. *)
Example scenario_close :
  exists pi',
    network.CloseParse "h" closing_session = Some (None, pi') /\
    network.written (network.conn pi')
    = [[network.IdentifiesClose; x00; x00; x00; x07; "S"%byte; "h"%byte; x00;
        network.IdentifiesSync; x00; x00; x00; x04]] /\
    network.inbound (network.conn pi') = [].
Proof.
  eexists. split; [vm_compute; reflexivity|]. split; reflexivity.
Qed.

(** * ErrorResponse in the middle of a response *)

Lemma ready_is_not_error (m : PgMessage) :
  is_id network.IdentifiesReadyForQuery m = true ->
  is_id network.IdentifiesErrorResponse m = false.
Proof.
  unfold is_id. intros H. apply Byte.byte_dec_bl in H. now rewrite H.
Qed.

(** The five query operations of the engine do what the propagation
    policy says: with an ErrorResponse in the middle of the response, the
    call that returns has read on to the ReadyForQuery, has stored its
    transaction status, and returns the parsed ErrorResponse. *)
Lemma query_call_ErrorResponse {Value : Type} (value2bytes : Value -> list byte)
      (pi pi' : PgIO) (err : option error)
      (before after : list PgMessage) (e rfq : PgMessage) (rest : list byte) :
  query_call value2bytes pi err pi' ->
  write_ok (network.conn pi) = true ->
  network.inbound (network.conn pi)
  = concat (map wire (before ++ e :: after)) ++ wire rfq ++ rest ->
  Forall framed (before ++ e :: after) -> framed rfq ->
  Forall (fun m => is_id network.IdentifiesReadyForQuery m = false)
         (before ++ e :: after) ->
  is_id network.IdentifiesReadyForQuery rfq = true ->
  is_id network.IdentifiesErrorResponse e = true ->
  Forall (fun m => is_id network.IdentifiesErrorResponse m = false) after ->
  err = Some (network.ParseError e) /\
  network.inbound (network.conn pi') = rest /\
  network.received (network.conn pi')
  = network.received (network.conn pi) ++ (before ++ e :: after) ++ [rfq] /\
  payload_byte rfq = Some (network.txStatus pi').
Proof.
  intros Hcall Hw Hin Hfr Hfz Hnz Hz He Hafter.
  apply query_call_outcome in Hcall as [out Hout].
  destruct Hout as [x pi1 Hs|x ms pi1 pi2 Hs Hr|init z b pi1 pi2 Hs Hr Hinit Hz' Hb];
    apply send_inv in Hs as (wf & -> & Hok & _).
  - apply Hok in Hw. discriminate.
  - rewrite (receivePgMsg_wire _ _ (before ++ e :: after) rfq rest) in Hr by auto.
    discriminate.
  - rewrite (receivePgMsg_wire _ _ (before ++ e :: after) rfq rest) in Hr by auto.
    injection Hr as Hl <-. apply app_inj_tail in Hl as [<- <-].
    simpl. repeat split; auto.
    rewrite <- app_assoc. simpl.
    apply last_error_ErrorResponse; auto.
    apply Forall_app. split; auto. constructor; auto using ready_is_not_error.
Qed.

(** * The statement layer and server errors *)

Lemma Exec_error {Value : Type} (value2bytes : Value -> list byte)
      (s : driver.PgStmt) (args : list (option Value)) (conn conn' : driver.PgConn)
      (r : option Z) (err : option error) :
  network.IOError (driver.io conn) = None ->
  driver.Exec value2bytes s args conn = Some (r, err, conn') ->
  exists n,
    network.ParseExec value2bytes (driver.Identifies s) args (driver.io conn)
    = Some (n, err, driver.io conn').
Proof.
  unfold driver.Exec. intros ->. simpl.
  destruct (network.ParseExec _ _ _ _) as [[[n e] pi]|]; simpl;
    [|intros H; discriminate H].
  intros H; injection H as <- <- <-. now exists n.
Qed.

(** [PgStmt.Query] returns a nil error whatever [ParseQuery] returned. *)
Lemma Query_error_nil {Value : Type} (value2bytes : Value -> list byte)
      (s : driver.PgStmt) (args : list (option Value)) (conn conn' : driver.PgConn)
      (pr : driver.PgRows) (err : option error) :
  driver.Query value2bytes s args conn = Some (pr, err, conn') ->
  err = None.
Proof.
  unfold driver.Query.
  destruct (network.ParseQuery _ _ _ _) as [[[[fl d] e] pi]|]; simpl;
    [|intros H; discriminate H].
  intros H; now injection H as _ <- _.
Qed.

Lemma error_is_plain (e : PgMessage) :
  is_id network.IdentifiesErrorResponse e = true -> plain e.
Proof.
  unfold plain, is_id. intros H. apply Byte.byte_dec_bl in H. rewrite H.
  repeat split.
Qed.

Section ServerError.

Context {Value : Type} (value2bytes : Value -> list byte).
Variables (conn : driver.PgConn) (s : driver.PgStmt) (args : list (option Value)).
Variables (e rfq : PgMessage) (rest : list byte) (b : byte).
Hypothesis Hw : write_ok (network.conn (driver.io conn)) = true.
Hypothesis Hin :
  network.inbound (network.conn (driver.io conn)) = wire e ++ wire rfq ++ rest.
Hypothesis Hfe : framed e.
Hypothesis Hfz : framed rfq.
Hypothesis He : is_id network.IdentifiesErrorResponse e = true.
Hypothesis Hz : is_id network.IdentifiesReadyForQuery rfq = true.
Hypothesis Hb : payload_byte rfq = Some b.

Lemma error_stream :
  network.inbound (network.conn (driver.io conn))
  = concat (map wire ([] ++ e :: [])) ++ wire rfq ++ rest.
Proof. rewrite Hin. cbn [app map concat]. now rewrite app_nil_r. Qed.

Lemma error_stream_framed : Forall framed ([] ++ e :: []).
Proof. apply List.Forall_cons; [exact Hfe|apply List.Forall_nil]. Qed.

Lemma error_stream_not_ready :
  Forall (fun m => is_id network.IdentifiesReadyForQuery m = false) ([] ++ e :: []).
Proof.
  apply List.Forall_cons; [|apply List.Forall_nil].
  now destruct (error_is_plain e He) as (_ & _ & _ & _ & H).
Qed.

(** When the server answers a Bind/Execute batch with an
    ErrorResponse and a ReadyForQuery, [ParseQuery] returns, with the
    parsed ErrorResponse as its error and the response read to its
    end. *)
Lemma ParseQuery_ErrorResponse :
  exists fieldLen data pi',
    network.ParseQuery value2bytes (driver.Identifies s) args (driver.io conn)
    = Some (fieldLen, data, Some (network.ParseError e), pi') /\
    network.inbound (network.conn pi') = rest /\
    network.txStatus pi' = b.
Proof.
  destruct (network.ParseQuery value2bytes (driver.Identifies s) args (driver.io conn))
    as [[[[fl d] err] pi']|] eqn:HPQ.
  - destruct (query_call_ErrorResponse value2bytes _ _ _ [] [] e rfq rest
                (call_ParseQuery value2bytes _ _ _ _ _ _ _ HPQ) Hw error_stream
                error_stream_framed Hfz error_stream_not_ready Hz He
                (List.Forall_nil _)) as (-> & Hi & _ & Hp).
    exists fl, d, pi'. repeat split; auto. congruence.
  - exfalso. revert HPQ.
    apply (ParseQuery_returns value2bytes (driver.io conn) [e] rfq rest b);
      [exact Hw | | | exact Hfz | | exact Hz | exact Hb].
    + rewrite Hin. cbn [app map concat]. now rewrite app_nil_r.
    + apply List.Forall_cons; [exact Hfe|apply List.Forall_nil].
    + apply List.Forall_cons; [now apply error_is_plain|apply List.Forall_nil].
Qed.

(** [PgStmt.Query] makes that exchange and returns a nil error. *)
Lemma Query_ErrorResponse :
  exists pr conn',
    driver.Query value2bytes s args conn = Some (pr, None, conn') /\
    network.inbound (network.conn (driver.io conn')) = rest /\
    network.txStatus (driver.io conn') = b.
Proof.
  destruct ParseQuery_ErrorResponse as (fl & d & pi' & HPQ & Hi & Hp).
  unfold driver.Query. rewrite HPQ. simpl. eexists _, _. repeat split; auto.
Qed.

End ServerError.

(** C1.  The server answers a Bind/Execute batch with an ErrorResponse
    and a ReadyForQuery.  [ParseQuery] and [PgStmt.Exec] read on to the
    ReadyForQuery, store its status and return the parsed ErrorResponse;
    [PgStmt.Query] makes the same exchange and returns a nil error: the
    ErrorResponse is lost to its caller. *)
Theorem Query_drops_ErrorResponse :
  (exists pi',
      network.ParseQuery text_value "h" example_args rejecting_session
      = Some (Some [], Some [], Some (network.ParseError error_response), pi') /\
      network.inbound (network.conn pi') = [] /\
      network.txStatus pi' = "I"%byte) /\
  (exists conn',
      driver.Exec text_value example_stmt example_args (example_conn rejecting_session)
      = Some (Some 0, Some (network.ParseError error_response), conn')) /\
  (exists pr conn',
      driver.Query text_value example_stmt example_args (example_conn rejecting_session)
      = Some (pr, None, conn') /\
      network.inbound (network.conn (driver.io conn')) = [] /\
      network.txStatus (driver.io conn') = "I"%byte).
Proof.
  split; [|split].
  - eexists. split; [vm_compute; reflexivity|]. split; reflexivity.
  - eexists. vm_compute. reflexivity.
  - eexists _, _. split; [vm_compute; reflexivity|]. split; reflexivity.
Qed.

(** * The sticky error flag *)


(** [send] stores the outcome of its write in the error flag, whatever
    the flag was. *)
Lemma send_ignores_flag (out : list PgMessage) (pi : PgIO) (e : option error) :
  network.send out (network.set_IOError pi e) = network.send out pi.
Proof.
  unfold network.send. simpl.
  now destruct (network.conn_Write _ (network.conn pi)).
Qed.



(** * The affected-row count *)

(** What the CommandComplete case does with a tag: with exactly two
    fields the count is what [Atoi] makes of the second; with any other
    number of fields the count stays as it was. *)
Lemma CommandComplete_count (v v' : PgMessage) (tag : string)
      (n : Z) (err : option error) (pi : PgIO) :
  network.Identifies v = network.IdentifiesCommandComplete ->
  network.string v = Some (tag, v') ->
  network.ParseExec_case (n, err, pi) v
  = Some (match strings.Split tag " " with
          | [_; count] => fst (strconv.Atoi count)
          | _ => n
          end, err, pi).
Proof.
  intros Hid Hs. unfold network.ParseExec_case. rewrite Hid, Hs. simpl.
  destruct (strings.Split tag " ") as [|a [|b [|c l]]]; reflexivity.
Qed.

(** C3.  The tag "UPDATE 3" gives 3 affected rows, but the tag
    "INSERT 0 5" gives 0, not 5: the count is taken from tags of two
    fields only, and an INSERT tag has three. *)
Theorem ParseExec_INSERT_count :
  (exists pi', network.ParseExec text_value "h" example_args update_session
               = Some (3, None, pi')) /\
  (exists pi', network.ParseExec text_value "h" example_args insert_session
               = Some (0, None, pi')) /\
  strings.Split "INSERT 0 5" " " = ["INSERT"; "0"; "5"] /\
  strconv.Atoi "5" = (5, true).
Proof.
  split; [|split; [|split]].
  - eexists. vm_compute. reflexivity.
  - eexists. vm_compute. reflexivity.
  - reflexivity.
  - reflexivity.
Qed.

(** * Draining to ReadyForQuery *)

(** C4, as stated, fails: when the stream ends in the middle of a
    response the call returns the socket's error, and the last message
    read is not a ReadyForQuery. *)
Lemma QueryNoArgs_truncated :
  exists pi',
    network.QueryNoArgs "SELECT 1" truncated_session
    = Some ([], Some [], Some [], Some io_EOF, pi') /\
    last (network.received (network.conn pi')) = Some data_row /\
    is_id network.IdentifiesReadyForQuery data_row = false.
Proof.
  eexists. split; [vm_compute; reflexivity|]. split; reflexivity.
Qed.

(** C4, amended: after a query operation returns without a socket
    failure (with a nil error or with a server's ErrorResponse), the last
    message read from the wire is a ReadyForQuery, read by this call, and
    the stored transaction status is its payload byte. *)
Theorem drain_to_ready {Value : Type} (value2bytes : Value -> list byte)
        (pi pi' : PgIO) (err : option error) :
  query_call value2bytes pi err pi' ->
  no_socket_failure err ->
  drained_to_ready pi pi'.
Proof.
  intros Hcall Hok.
  apply query_call_outcome in Hcall as [out Hout].
  eapply call_outcome_drained; eauto.
Qed.

Lemma drain_to_ready_witness :
  exists pi',
    query_call text_value rejecting_session
               (Some (network.ParseError error_response)) pi' /\
    no_socket_failure (Some (network.ParseError error_response)) /\
    drained_to_ready rejecting_session pi'.
Proof.
  eexists.
  assert (Hcall : network.ParseQuery text_value "h" example_args rejecting_session
                  = Some (Some [], Some [], Some (network.ParseError error_response),
                          ltac:(let r := eval vm_compute in
                                  (match network.ParseQuery text_value "h" example_args
                                           rejecting_session with
                                   | Some (_, _, _, p) => p
                                   | None => rejecting_session
                                   end) in exact r)))
    by (vm_compute; reflexivity).
  split; [exact (call_ParseQuery text_value _ _ _ _ _ _ _ Hcall)|].
  split; [reflexivity|].
  exact (drain_to_ready text_value _ _ _
           (call_ParseQuery text_value _ _ _ _ _ _ _ Hcall) eq_refl).
Defined.

(** * Authentication *)

(** For a code other than 0, 3 and 5 the handler returns a nil error and
    leaves the session as it was: nothing is sent. *)
Lemma auth_other_code (msg msg' : PgMessage) (code : Z) (pi : PgIO) :
  network.int32 msg = Some (code, msg') ->
  code <> 0 -> code <> 3 -> code <> 5 ->
  network.auth msg pi = Some (None, pi).
Proof.
  intros Hc H0 H3 H5. unfold network.auth. rewrite Hc. simpl.
  apply Z.eqb_neq in H0, H3, H5. now rewrite H0, H3, H5.
Qed.

(** C5.  The server asks for a method with code 10.  The handler does
    not fail: it returns a nil error and leaves the session as it was,
    and [StartUp] goes on with the messages that follow and ends without
    an error.  The same message, had it come as the answer to a password,
    would have been refused: there every code other than 0 is an error. *)
Theorem auth_unknown_code_continues :
  network.int32 sasl_request = Some (10, network.advance sasl_request 4) /\
  network.auth sasl_request (session [] []) = Some (None, session [] []) /\
  (exists pi',
      network.StartUp no_ssl x00 no_location (session startup_stream [])
      = Some (None, pi') /\
      network.written (network.conn pi')
      = [network.encode_content
           (network.startup_message x00 (session startup_stream []))] /\
      network.serverPid pi' = 4242 /\
      network.txStatus pi' = "I"%byte) /\
  network.auth_answer [sasl_request]
  = Some (Some (ErrAuthResponse network.IdentifiesAuth)).
Proof.
  split; [reflexivity|].
  split; [apply (auth_other_code _ (network.advance sasl_request 4) 10);
          [reflexivity|discriminate..]|].
  split; [|reflexivity].
  eexists. split; [vm_compute; reflexivity|].
  split; [vm_compute; reflexivity|]. split; reflexivity.
Qed.

Lemma bytes_of_append (a b : string) :
  bytes_of (a +:+ b) = bytes_of a ++ bytes_of b.
Proof.
  unfold bytes_of, list_byte_of_string.
  induction a as [|c a IH]; simpl; [reflexivity|]. now rewrite IH.
Qed.

Lemma bytes_of_string_of_list_byte (l : list byte) :
  bytes_of (string_of_list_byte l) = l.
Proof. apply list_byte_of_string_of_list_byte. Qed.

(** The source's way of building the MD5 password agrees with the
    protocol's words. *)
Lemma md5_password_bytes (pi : PgIO) (salt : list byte) :
  bytes_of (network.md5_password pi salt) ++ [x00]
  = md5_password_body (network.Password (network.dsn pi)) (network.user pi) salt.
Proof.
  unfold network.md5_password, network.Md5, md5_password_body.
  rewrite !bytes_of_append, bytes_of_string_of_list_byte.
  now rewrite <- app_assoc.
Qed.

Lemma encode_addString (id : byte) (s : string) :
  network.encode (network.addString (network.NewPgMessage id) s)
  = id :: BigEndian.PutUint32 (4 + Z.of_nat (length (bytes_of s ++ [x00])))
       ++ bytes_of s ++ [x00].
Proof.
  unfold network.encode, network.encode_content, network.body,
    network.addString, network.addBytes, network.NewPgMessage.
  cbn [network.Identifies network.Content].
  replace (Z.of_nat (length ([x00; x00; x00; x00] ++ bytes_of s ++ [x00])))
    with (4 + Z.of_nat (length (bytes_of s ++ [x00])))
    by (rewrite (length_app [x00; x00; x00; x00]); simpl length; lia).
  reflexivity.
Qed.

Lemma auth_answer_final (init : list PgMessage) (a : PgMessage) :
  Forall (fun m => is_id network.IdentifiesAuth m = false) init ->
  is_id network.IdentifiesAuth a = true ->
  network.auth_answer (init ++ [a])
  = '(code, _) ← network.int32 a;
    Some (if code =? 0 then None
          else Some (ErrAuthResponse (network.Identifies a))).
Proof.
  unfold is_id. intros Hinit Ha.
  induction Hinit as [|m init Hm _ IH]; simpl.
  - rewrite Ha. destruct (network.int32 a) as [[code a']|]; simpl; [|reflexivity].
    now destruct (code =? 0).
  - now rewrite Hm.
Qed.

(** What a password exchange does, whatever the message. *)
Lemma password_exchange_inv (reqPwd : PgMessage) (pi pi' : PgIO) (err : option error) :
  network.password_exchange reqPwd pi = Some (err, pi') ->
  network.written (network.conn pi')
  = network.written (network.conn pi) ++ [network.encode reqPwd] /\
  (err = None ->
   exists ms a a',
     network.received (network.conn pi')
     = network.received (network.conn pi) ++ ms ++ [a] /\
     Forall (fun m => is_id network.IdentifiesAuth m = false) ms /\
     is_id network.IdentifiesAuth a = true /\
     network.int32 a = Some (0, a')).
Proof.
  unfold network.password_exchange.
  destruct (network.send _ pi) as [[e|] pi1] eqn:Hs;
    apply send_inv in Hs as (wf & -> & _ & _).
  { intros H; injection H as <- <-. simpl. rewrite app_nil_r.
    split; [reflexivity|discriminate]. }
  destruct (network.receivePgMsg _ _) as [[list [e|]] pi2] eqn:Hr;
    apply receivePgMsg_inv in Hr as (inb & ioe & -> & _ & Hr).
  { intros H; injection H as <- <-. simpl. rewrite app_nil_r.
    split; [reflexivity|discriminate]. }
  destruct Hr as (_ & init & a & -> & Ha & Hinit).
  rewrite (auth_answer_final init a Hinit Ha).
  destruct (network.int32 a) as [[code a']|] eqn:Hc; simpl;
    [|intros H; discriminate H].
  intros H; injection H as <- <-. simpl. rewrite app_nil_r.
  split; [reflexivity|].
  destruct (code =? 0) eqn:Hz; [|discriminate].
  apply Z.eqb_eq in Hz as ->. intros _. now exists init, a, a'.
Qed.

(** A password exchange on a stream that brings frames up to an
    Authentication message: all of them are read, and the exchange
    succeeds exactly when the code of that message is 0. *)
Lemma password_exchange_wire (reqPwd : PgMessage) (pi : PgIO)
      (ms : list PgMessage) (a a' : PgMessage) (code : Z) (rest : list byte) :
  write_ok (network.conn pi) = true ->
  network.inbound (network.conn pi) = concat (map wire ms) ++ wire a ++ rest ->
  Forall framed ms -> framed a ->
  Forall (fun m => is_id network.IdentifiesAuth m = false) ms ->
  is_id network.IdentifiesAuth a = true ->
  network.int32 a = Some (code, a') ->
  network.password_exchange reqPwd pi
  = Some (if code =? 0 then None else Some (ErrAuthResponse network.IdentifiesAuth),
          after_reading
            (after_writing pi (network.encode reqPwd)
                           (tl (network.wfaults (network.conn pi))) None)
            rest (ms ++ [a]) None).
Proof.
  intros Hw Hin Hfr Hfa Hms Ha Hc. unfold network.password_exchange.
  destruct (network.send _ pi) as [e pi1] eqn:Hs.
  pose proof Hs as Hs'. apply send_inv in Hs' as (wf & -> & Hok & _).
  apply Hok in Hw as ->.
  assert (Hwf : wf = tl (network.wfaults (network.conn pi))).
  { revert Hs. unfold network.send, network.conn_Write, after_writing.
    destruct (network.closed (network.conn pi)); [intros H; discriminate H|].
    destruct (network.wfaults (network.conn pi)) as [|[t|] l]; simpl;
      intros H; injection H; congruence. }
  subst wf. simpl. rewrite app_nil_r.
  erewrite receivePgMsg_wire; eauto.
  rewrite (auth_answer_final ms a Hms Ha), Hc. simpl.
  unfold is_id in Ha. apply Byte.byte_dec_bl in Ha. now rewrite Ha.
Qed.

(** C6.  On an Authentication message with code 5 the handler takes the
    four bytes after the code as the salt and writes one PasswordMessage
    whose body is "md5" followed by hex(md5(hex(md5(password, user)),
    salt)) and a NUL.  It then reads up to the next Authentication
    message: a nil error means that this message was read and carries
    code 0; and on a stream that brings such a message the handler
    returns, with a nil error if the code is 0 and with an error
    otherwise. *)
Theorem auth_md5 (msg msg1 msg2 : PgMessage) (salt : list byte) (pi : PgIO) :
  network.int32 msg = Some (5, msg1) ->
  network.bytes msg1 4 = Some (salt, msg2) ->
  let frame :=
    password_frame
      (md5_password_body (network.Password (network.dsn pi)) (network.user pi) salt) in
  (forall err pi',
      network.auth msg pi = Some (err, pi') ->
      network.written (network.conn pi')
      = network.written (network.conn pi) ++ [frame] /\
      (err = None ->
       exists ms a a',
         network.received (network.conn pi')
         = network.received (network.conn pi) ++ ms ++ [a] /\
         Forall (fun m => is_id network.IdentifiesAuth m = false) ms /\
         is_id network.IdentifiesAuth a = true /\
         network.int32 a = Some (0, a'))) /\
  (forall ms a a' code rest,
      write_ok (network.conn pi) = true ->
      network.inbound (network.conn pi) = concat (map wire ms) ++ wire a ++ rest ->
      Forall framed ms -> framed a ->
      Forall (fun m => is_id network.IdentifiesAuth m = false) ms ->
      is_id network.IdentifiesAuth a = true ->
      network.int32 a = Some (code, a') ->
      network.auth msg pi
      = Some (if code =? 0 then None
              else Some (ErrAuthResponse network.IdentifiesAuth),
              after_reading
                (after_writing pi frame (tl (network.wfaults (network.conn pi))) None)
                rest (ms ++ [a]) None)).
Proof.
  intros Hcode Hsalt frame.
  assert (Hframe :
            network.encode
              (network.addString (network.NewPgMessage network.IdentifiesPasswordMessage)
                                 (network.md5_password pi salt)) = frame).
  { rewrite encode_addString. unfold frame, password_frame.
    now rewrite md5_password_bytes. }
  assert (Hauth :
            network.auth msg pi
            = network.password_exchange
                (network.addString
                   (network.NewPgMessage network.IdentifiesPasswordMessage)
                   (network.md5_password pi salt)) pi).
  { unfold network.auth. rewrite Hcode. simpl. now rewrite Hsalt. }
  split.
  - intros err pi' H. rewrite Hauth in H.
    apply password_exchange_inv in H. now rewrite Hframe in H.
  - intros ms a a' code rest Hw Hin Hfr Hfa Hms Ha Hc.
    rewrite Hauth, <- Hframe.
    now apply password_exchange_wire with (a' := a').
Qed.

(** A backend frame is read as [backend_msg] makes it. *)
Lemma framed_backend_msg (id : byte) (p : list byte) :
  4 + Z.of_nat (length p) < 4294967296 -> framed (backend_msg id p).
Proof.
  intros Hp. unfold framed, backend_msg.
  cbn [network.Position network.Len network.Content].
  assert (Hlen : length (BigEndian.PutUint32 (4 + Z.of_nat (length p)) ++ p)
                 = (4 + length p)%nat) by (rewrite length_app; reflexivity).
  repeat split.
  - rewrite Hlen. lia.
  - change (firstn 4 (BigEndian.PutUint32 (4 + Z.of_nat (length p)) ++ p))
      with (BigEndian.PutUint32 (4 + Z.of_nat (length p))).
    rewrite Uint32_PutUint32. apply Z.mod_small. lia.
  - rewrite Hlen. lia.
Qed.

Lemma auth_md5_witness :
  network.int32 md5_request = Some (5, network.advance md5_request 4) /\
  network.bytes (network.advance md5_request 4) 4
  = Some ([x01; x02; x03; x04], network.advance (network.advance md5_request 4) 4) /\
  exists pi',
    network.auth md5_request md5_session = Some (None, pi') /\
    network.written (network.conn pi')
    = [password_frame (bytes_of "md598a0412b9c31436fc53776e863350083" ++ [x00])] /\
    network.inbound (network.conn pi') = [].
Proof.
  assert (Hcode : network.int32 md5_request = Some (5, network.advance md5_request 4))
    by reflexivity.
  assert (Hsalt : network.bytes (network.advance md5_request 4) 4
                  = Some ([x01; x02; x03; x04],
                          network.advance (network.advance md5_request 4) 4))
    by reflexivity.
  split; [exact Hcode|]. split; [exact Hsalt|].
  eexists. split.
  - refine (proj2 (auth_md5 md5_request _ _ _ md5_session Hcode Hsalt)
              [] (authentication 0 []) (network.advance (authentication 0 []) 4)
              0 [] eq_refl eq_refl (List.Forall_nil _) _ (List.Forall_nil _) eq_refl eq_refl).
    apply framed_backend_msg. simpl. lia.
  - split; [vm_compute; reflexivity|reflexivity].
Defined.

(** * NULL in Bind arguments and DataRow columns *)

Lemma remaining_advance (v : PgMessage) (k : nat) :
  remaining (network.advance v k) = skipn k (remaining v).
Proof.
  unfold remaining, network.advance. simpl.
  rewrite skipn_skipn. f_equal. lia.
Qed.

Lemma bytes_remaining (v : PgMessage) (b rest : list byte) :
  remaining v = b ++ rest ->
  (network.Position v <= length (network.Content v))%nat ->
  network.bytes v (Z.of_nat (length b)) = Some (b, network.advance v (length b)) /\
  remaining (network.advance v (length b)) = rest /\
  (network.Position (network.advance v (length b))
   <= length (network.Content (network.advance v (length b))))%nat.
Proof.
  intros Hrem Hpos.
  assert (Hlen : (network.Position v + length b <= length (network.Content v))%nat).
  { assert (H : length (remaining v) = (length b + length rest)%nat)
      by (rewrite Hrem; apply length_app).
    unfold remaining in H. rewrite length_skipn in H. lia. }
  split; [|split].
  - unfold network.bytes. rewrite Nat2Z.id.
    apply Nat.leb_le in Hlen. rewrite Hlen.
    fold (remaining v). rewrite Hrem.
    now rewrite firstn_app, Nat.sub_diag, firstn_all, firstn_O, app_nil_r.
  - rewrite remaining_advance, Hrem.
    now rewrite skipn_app, Nat.sub_diag, skipn_all, skipn_O.
  - simpl. exact Hlen.
Qed.

Lemma int32_remaining (v : PgMessage) (b rest : list byte) :
  length b = 4%nat ->
  remaining v = b ++ rest ->
  (network.Position v <= length (network.Content v))%nat ->
  network.int32 v = Some (BigEndian.Uint32 b, network.advance v 4) /\
  remaining (network.advance v 4) = rest /\
  (network.Position (network.advance v 4)
   <= length (network.Content (network.advance v 4)))%nat.
Proof.
  intros H4 Hrem Hpos.
  destruct (bytes_remaining v b rest Hrem Hpos) as (Hb & Hr & Hp).
  rewrite H4 in Hb, Hr, Hp. unfold network.int32.
  change (Z.of_nat 4) with 4 in Hb. rewrite Hb. auto.
Qed.


(** The column loop of DataRow reads back what [column_wire] writes. *)
Lemma DataRow_loop_wire (vals : list (option (list byte))) :
  forall (v : PgMessage) (suffix : list byte) rowLen row,
    Forall (fun val => forall b, val = Some b -> Z.of_nat (length b) < 4294967295)
           vals ->
    remaining v = concat (map column_wire vals) ++ suffix ->
    (network.Position v <= length (network.Content v))%nat ->
    network.DataRow_loop (length vals) v rowLen row
    = Some (rowLen ++ map column_len vals, row ++ vals).
Proof.
  induction vals as [|[b|] vals IH]; intros v suffix rowLen row Hlt Hrem Hpos.
  - simpl. now rewrite !app_nil_r.
  - inversion Hlt as [|? ? Hb Hlt']; subst. specialize (Hb b eq_refl).
    cbn [map concat column_wire] in Hrem. rewrite <- !app_assoc in Hrem.
    destruct (int32_remaining v (BigEndian.PutUint32 (Z.of_nat (length b))) _
                eq_refl Hrem Hpos) as (Hi & Hr & Hp).
    destruct (bytes_remaining _ _ _ Hr Hp) as (Hbs & Hr' & Hp').
    cbn [length network.DataRow_loop]. rewrite Hi. cbn [mbind option_bind].
    rewrite Uint32_PutUint32, Z.mod_small by lia.
    assert (Hs : (Z.of_nat (length b) =? 4294967295) = false)
      by (apply Z.eqb_neq; lia).
    rewrite Hs, Hbs. cbn [mbind option_bind].
    rewrite (IH _ suffix) by assumption.
    simpl. now rewrite <- !app_assoc.
  - inversion Hlt as [|? ? Hb Hlt']; subst.
    cbn [map concat column_wire] in Hrem. rewrite <- !app_assoc in Hrem.
    destruct (int32_remaining v [xff; xff; xff; xff] _ eq_refl Hrem Hpos)
      as (Hi & Hr & Hp).
    cbn [length network.DataRow_loop]. rewrite Hi. cbn [mbind option_bind].
    change (BigEndian.Uint32 [xff; xff; xff; xff] =? 4294967295) with true.
    cbn iota. rewrite (IH _ suffix) by assumption.
    simpl. now rewrite <- !app_assoc.
Qed.


Lemma int16_remaining (v : PgMessage) (b rest : list byte) :
  length b = 2%nat ->
  remaining v = b ++ rest ->
  (network.Position v <= length (network.Content v))%nat ->
  network.int16 v = Some (BigEndian.Uint16 b, network.advance v 2) /\
  remaining (network.advance v 2) = rest /\
  (network.Position (network.advance v 2)
   <= length (network.Content (network.advance v 2)))%nat.
Proof.
  intros H2 Hrem Hpos.
  destruct (bytes_remaining v b rest Hrem Hpos) as (Hb & Hr & Hp).
  rewrite H2 in Hb, Hr, Hp. unfold network.int16.
  change (Z.of_nat 2) with 2 in Hb. rewrite Hb. auto.
Qed.

(** A DataRow built from column values is parsed back into them. *)
Lemma DataRow_wire (vals : list (option (list byte))) (v : PgMessage)
      (suffix : list byte) :
  Z.of_nat (length vals) < 65536 ->
  Forall (fun val => forall b, val = Some b -> Z.of_nat (length b) < 4294967295)
         vals ->
  remaining v
  = BigEndian.PutUint16 (Z.of_nat (length vals))
      ++ concat (map column_wire vals) ++ suffix ->
  (network.Position v <= length (network.Content v))%nat ->
  network.DataRow v = Some (map column_len vals, vals).
Proof.
  intros Hn Hvals Hrem Hpos. unfold network.DataRow.
  destruct (int16_remaining v (BigEndian.PutUint16 (Z.of_nat (length vals))) _
              eq_refl Hrem Hpos) as (Hi & Hr & Hp).
  rewrite Hi. cbn [mbind option_bind].
  rewrite Uint16_PutUint16, Z.mod_small, Nat2Z.id by lia.
  exact (DataRow_loop_wire vals _ suffix [] [] Hvals Hr Hp).
Qed.



(** * Terminate *)

(** C9, as stated, fails: when the Terminate message is sent without an
    error, the socket is left open and the error flag is nil. *)
Lemma Terminate_leaves_socket_open :
  exists pi',
    network.Terminate idle_session = (None, pi') /\
    network.written (network.conn pi') = [terminate_frame] /\
    network.closed (network.conn pi') = false /\
    network.IOError pi' = None.
Proof.
  eexists. split; [vm_compute; reflexivity|]. repeat split.
Qed.

(** C9, amended: [Terminate] writes a Terminate message; when the write
    fails it closes the socket and sets the error flag to the
    bad-connection error; when the write succeeds it returns nil, does
    not close the socket, and the flag is nil. *)
Theorem Terminate_spec (pi pi' : PgIO) (err : option error) :
  network.Terminate pi = (err, pi') ->
  network.written (network.conn pi')
  = network.written (network.conn pi) ++ [terminate_frame] /\
  (err <> None ->
   network.closed (network.conn pi') = true /\
   network.IOError pi' = Some ErrBadConn) /\
  (err = None ->
   network.closed (network.conn pi') = network.closed (network.conn pi) /\
   network.IOError pi' = None).
Proof.
  unfold network.Terminate.
  destruct (network.send _ pi) as [[e|] pi1] eqn:Hs;
    apply send_inv in Hs as (wf & -> & _ & _);
    intros H; injection H as <- <-; simpl.
  - split; [reflexivity|]. split; [auto|discriminate].
  - split; [reflexivity|]. split; [intros H; now elim H|auto].
Qed.

Lemma Terminate_spec_witness :
  exists pi',
    network.Terminate faulty_session = (Some (net_OpError 1), pi') /\
    network.written (network.conn pi') = [terminate_frame] /\
    network.closed (network.conn pi') = true /\
    network.IOError pi' = Some ErrBadConn.
Proof.
  eexists.
  assert (H : network.Terminate faulty_session
              = (Some (net_OpError 1),
                 ltac:(let r := eval vm_compute in (snd (network.Terminate faulty_session))
                       in exact r)))
    by (vm_compute; reflexivity).
  split; [exact H|].
  destruct (Terminate_spec _ _ _ H) as (Hw & Hfail & _).
  split; [exact Hw|].
  apply Hfail. discriminate.
Defined.

(** * The statement cache *)

Lemma call_outcome_flag (pi pi' : PgIO) (out : list PgMessage) (err : option error) :
  call_outcome pi out err pi' -> err = None -> network.IOError pi' = None.
Proof.
  intros [e pi1 Hs|e ms pi1 pi2 Hs Hr|init rfq b pi1 pi2 Hs Hr Hinit Hz Hb] He;
    try discriminate He.
  apply send_inv in Hs as (wf & -> & _ & _).
  apply receivePgMsg_inv in Hr as (inb & ioe & -> & _ & Hr).
  simpl in Hr. destruct Hr as [-> _]. reflexivity.
Qed.

Lemma stmts_wf_empty (pi : PgIO) : stmts_wf (driver.mkPgConn pi ∅).
Proof. intros id st H. simpl in H. now rewrite lookup_empty in H. Qed.

(** [NewPgStmt] keeps every statement filed under its own name. *)
Lemma NewPgStmt_stmts_wf (conn conn' : driver.PgConn) (query : string)
      (r : option driver.PgStmt) (err : option error) :
  stmts_wf conn ->
  driver.NewPgStmt conn query = Some (r, err, conn') ->
  stmts_wf conn'.
Proof.
  intros Hwf. unfold driver.NewPgStmt.
  destruct (negb _); [intros H; now injection H as _ _ <-|].
  destruct (driver.stmts conn !! driver.statement_name query) as [st|] eqn:Hl;
    [intros H; now injection H as _ _ <-|].
  destruct (network.Parse _ _ _) as [[[[cols ps] e] pi]|]; simpl;
    [|intros H; discriminate H].
  intros H; injection H as _ _ <-. intros id st. simpl.
  destruct (decide (driver.statement_name query = id)) as [<-|Hne].
  - rewrite lookup_insert_eq. intros H; now injection H as <-.
  - rewrite lookup_insert_ne by assumption. apply Hwf.
Qed.

(** A cached statement is handed out as it is, without any traffic,
    while the error flag is nil. *)
Lemma NewPgStmt_cached (conn : driver.PgConn) (query : string) (st : driver.PgStmt) :
  network.IOError (driver.io conn) = None ->
  driver.stmts conn !! driver.statement_name query = Some st ->
  driver.NewPgStmt conn query = Some (Some st, None, conn).
Proof.
  intros Hflag Hl. unfold driver.NewPgStmt. now rewrite Hflag, Hl.
Qed.

(** A call of [NewPgStmt] that follows one with the same text never
    touches the connection: it answers from the guard or from the cache. *)
Lemma NewPgStmt_again (conn conn1 : driver.PgConn) (query : string)
      (r1 : option driver.PgStmt) (e1 : option error) :
  driver.NewPgStmt conn query = Some (r1, e1, conn1) ->
  exists r2 e2, driver.NewPgStmt conn1 query = Some (r2, e2, conn1).
Proof.
  unfold driver.NewPgStmt at 1.
  destruct (network.IOError (driver.io conn)) as [e|] eqn:Hflag; simpl.
  { intros H; injection H as _ _ <-. unfold driver.NewPgStmt. rewrite Hflag.
    simpl. eauto. }
  destruct (driver.stmts conn !! driver.statement_name query) as [st0|] eqn:Hl.
  { intros H; injection H as _ _ <-. unfold driver.NewPgStmt. rewrite Hflag, Hl.
    simpl. eauto. }
  destruct (network.Parse _ _ _) as [[[[cols ps] e] pi]|] eqn:HP; simpl;
    [|intros H; discriminate H].
  intros H; injection H as _ _ <-. unfold driver.NewPgStmt. simpl.
  destruct (network.IOError pi); simpl; [eauto|].
  rewrite lookup_insert_eq. eauto.
Qed.

(** C8.  Preparing a text and preparing it again gives the same
    statement, whose name is the CRC-32 of the text in hexadecimal; the
    second call answers from the cache and leaves the connection as it
    was, so it sends no Parse. *)
Theorem statement_cache_identity (conn conn1 : driver.PgConn) (query : string)
        (st : driver.PgStmt) :
  stmts_wf conn ->
  driver.NewPgStmt conn query = Some (Some st, None, conn1) ->
  driver.Identifies st = fmt.hex_uint32 (crc32.ChecksumIEEE (bytes_of query)) /\
  driver.stmts conn1 !! driver.Identifies st = Some st /\
  driver.NewPgStmt conn1 query = Some (Some st, None, conn1).
Proof.
  intros Hwf. unfold driver.NewPgStmt at 1.
  destruct (network.IOError (driver.io conn)) as [e|] eqn:Hflag; simpl;
    [intros H; discriminate H|].
  fold (driver.statement_name query).
  destruct (driver.stmts conn !! driver.statement_name query) as [st0|] eqn:Hl.
  - intros H; injection H as <- <-.
    rewrite (Hwf _ _ Hl). repeat split; auto using NewPgStmt_cached.
  - destruct (network.Parse _ _ _) as [[[[cols ps] e] pi]|] eqn:HP; simpl;
      [|intros H; discriminate H].
    intros H; injection H as <- -> <-. simpl.
    assert (Hins : <[driver.statement_name query :=
                       driver.mkPgStmt (driver.statement_name query) query cols ps]>
                     (driver.stmts conn) !! driver.statement_name query
                   = Some (driver.mkPgStmt (driver.statement_name query) query cols ps))
      by apply lookup_insert_eq.
    repeat split; [exact Hins|].
    apply NewPgStmt_cached; [|exact Hins].
    apply Parse_outcome in HP. simpl. eapply call_outcome_flag; eauto.
Qed.

Lemma statement_cache_identity_witness :
  exists st conn1,
    stmts_wf (example_conn prepared_session) /\
    driver.NewPgStmt (example_conn prepared_session) example_sql
    = Some (Some st, None, conn1) /\
    driver.Identifies st = "e4f23441" /\
    driver.parameterTypes st = [23; 23] /\
    driver.NewPgStmt conn1 example_sql = Some (Some st, None, conn1).
Proof.
  eexists _, _.
  assert (H : driver.NewPgStmt (example_conn prepared_session) example_sql
              = ltac:(let r := eval vm_compute in
                        (driver.NewPgStmt (example_conn prepared_session) example_sql)
                      in exact r))
    by (vm_compute; reflexivity).
  split; [apply stmts_wf_empty|].
  split; [exact H|].
  destruct (statement_cache_identity _ _ _ _ (stmts_wf_empty prepared_session) H)
    as (Hname & _ & Hagain).
  split; [exact Hname|]. split; [reflexivity|exact Hagain].
Defined.

(** C10, as stated, fails for a Parse that fails on the socket: the
    failed write sets the error flag, the statement is cached all the
    same, and the next call with the same text returns the
    bad-connection error and no statement. *)
Lemma NewPgStmt_failed_then_bad_connection :
  exists st conn1,
    driver.NewPgStmt (example_conn faulty_session) example_sql
    = Some (Some st, Some (net_OpError 1), conn1) /\
    driver.stmts conn1 !! driver.statement_name example_sql = Some st /\
    driver.NewPgStmt conn1 example_sql = Some (None, Some ErrBadConn, conn1).
Proof.
  eexists _, _. split; [vm_compute; reflexivity|].
  split; vm_compute; reflexivity.
Qed.

(** C10, amended: a call of [NewPgStmt] that returns a statement
    together with an error has had that error from [Parse], and has put
    the statement into the cache; every later call with the same text
    that finds the error flag nil returns that statement with a nil
    error and leaves the connection as it was: Parse is not tried
    again. *)
Theorem failed_Parse_is_cached (conn conn1 : driver.PgConn) (query : string)
        (st : driver.PgStmt) (e : error) :
  driver.NewPgStmt conn query = Some (Some st, Some e, conn1) ->
  (exists cols parameters,
      network.Parse (driver.statement_name query) query (driver.io conn)
      = Some (cols, parameters, Some e, driver.io conn1)) /\
  driver.stmts conn !! driver.statement_name query = None /\
  driver.stmts conn1 !! driver.statement_name query = Some st /\
  (forall conn2,
      driver.stmts conn2 !! driver.statement_name query = Some st ->
      network.IOError (driver.io conn2) = None ->
      driver.NewPgStmt conn2 query = Some (Some st, None, conn2)).
Proof.
  unfold driver.NewPgStmt at 1.
  destruct (negb _); [intros H; discriminate H|].
  destruct (driver.stmts conn !! driver.statement_name query) as [st0|] eqn:Hl;
    [intros H; discriminate H|].
  destruct (network.Parse _ _ _) as [[[[cols ps] e0] pi]|] eqn:HP; simpl;
    [|intros H; discriminate H].
  intros H; injection H as <- -> <-. simpl.
  split; [now exists cols, ps|]. split; [reflexivity|].
  split; [apply lookup_insert_eq|].
  intros conn2 Hl2 Hflag. now apply NewPgStmt_cached.
Qed.

Lemma failed_Parse_is_cached_witness :
  exists st conn1,
    driver.NewPgStmt (example_conn rejecting_session) example_sql
    = Some (Some st, Some (network.ParseError error_response), conn1) /\
    driver.stmts conn1 !! driver.statement_name example_sql = Some st /\
    network.IOError (driver.io conn1) = None /\
    driver.NewPgStmt conn1 example_sql = Some (Some st, None, conn1).
Proof.
  eexists _, _.
  assert (H : driver.NewPgStmt (example_conn rejecting_session) example_sql
              = ltac:(let r := eval vm_compute in
                        (driver.NewPgStmt (example_conn rejecting_session) example_sql)
                      in exact r))
    by (vm_compute; reflexivity).
  split; [exact H|].
  destruct (failed_Parse_is_cached _ _ _ _ _ H) as (_ & _ & Hin & Hlater).
  split; [exact Hin|]. split; [reflexivity|].
  exact (Hlater _ Hin eq_refl).
Defined.

(** * Frames on the stream *)

Lemma Z_of_byte_nonneg (b : byte) : 0 <= Z_of_byte b.
Proof. unfold Z_of_byte. apply N2Z.is_nonneg. Qed.

Lemma Uint32_nonneg (b : list byte) : 0 <= BigEndian.Uint32 b.
Proof.
  unfold BigEndian.Uint32.
  destruct b as [|b0 [|b1 [|b2 [|b3 l]]]]; try lia.
  repeat (apply Z.lor_nonneg; split);
    try apply Z.shiftl_nonneg; apply Z_of_byte_nonneg.
Qed.

(** A completed frame is the head of the stream, byte for byte. *)
Lemma read_frame_consumes (pi pi' : PgIO) (msg : PgMessage) :
  network.read_frame pi = (inl msg, pi') ->
  network.inbound (network.conn pi) = wire msg ++ network.inbound (network.conn pi') /\
  network.Len msg = Z.of_nat (length (network.Content msg)).
Proof.
  unfold network.read_frame.
  destruct (network.ReadByte (network.conn pi)) as [[id|e] c] eqn:HR;
    [|intros H; discriminate H].
  apply ReadByte_inv in HR as (rest & Hin & ->).
  destruct (network.Peek 4 _) as [hdr|e] eqn:HP; [|intros H; discriminate H].
  destruct (network.ReadFull _ _) as [[content|e] c'] eqn:HF;
    [|intros H; discriminate H].
  apply ReadFull_inv in HF as (-> & -> & Hn).
  intros H; injection H as <- <-. simpl in *. split.
  - rewrite Hin. unfold wire; simpl. now rewrite firstn_skipn.
  - rewrite length_firstn, Nat.min_l by exact Hn.
    rewrite Z2Nat.id; [reflexivity|apply Uint32_nonneg].
Qed.

Lemma receive_loop_consumes (budget : nat) (sep : byte) :
  forall (ms : list PgMessage) (pi : PgIO) ms' err pi',
    network.receive_loop budget sep ms pi = ((ms', err), pi') ->
    exists new tail,
      ms' = ms ++ new /\
      network.received (network.conn pi') = network.received (network.conn pi) ++ new /\
      network.written (network.conn pi') = network.written (network.conn pi) /\
      Forall (fun m => network.Len m = Z.of_nat (length (network.Content m))) new /\
      network.inbound (network.conn pi) = concat (map wire new) ++ tail /\
      (err = None -> network.inbound (network.conn pi') = tail).
Proof.
  assert (Hfail : forall (pi pi1 : PgIO) (e : error) (ms : list PgMessage),
             network.read_frame pi = (inr e, pi1) ->
             exists new tail,
               ms = ms ++ new /\
               network.received (network.conn pi1)
               = network.received (network.conn pi) ++ new /\
               network.written (network.conn pi1) = network.written (network.conn pi) /\
               Forall (fun m => network.Len m = Z.of_nat (length (network.Content m))) new /\
               network.inbound (network.conn pi) = concat (map wire new) ++ tail /\
               (Some e = None -> network.inbound (network.conn pi1) = tail)).
  { intros pi pi1 e ms Hrf.
    apply read_frame_inr in Hrf as (_ & inb & ioe & -> & _).
    exists [], (network.inbound (network.conn pi)). simpl.
    rewrite !app_nil_r. repeat split; auto. discriminate. }
  assert (Hone : forall (pi pi1 : PgIO) (msg : PgMessage) (ms : list PgMessage) err,
             network.read_frame pi = (inl msg, pi1) ->
             exists new tail,
               ms ++ [msg] = ms ++ new /\
               network.received (network.conn pi1)
               = network.received (network.conn pi) ++ new /\
               network.written (network.conn pi1) = network.written (network.conn pi) /\
               Forall (fun m => network.Len m = Z.of_nat (length (network.Content m))) new /\
               network.inbound (network.conn pi) = concat (map wire new) ++ tail /\
               (err = @None error -> network.inbound (network.conn pi1) = tail)).
  { intros pi pi1 msg ms err Hrf.
    destruct (read_frame_consumes _ _ _ Hrf) as [Hin Hlen].
    apply read_frame_inl in Hrf as (inb & -> & _ & _).
    exists [msg], inb. simpl in *. rewrite app_nil_r. repeat split; auto. }
  induction budget as [|budget IH]; intros ms pi ms' err pi'; simpl;
    destruct (network.read_frame pi) as [[msg|e] pi1] eqn:Hrf.
  - destruct (Byte.eqb (network.Identifies msg) sep);
      intros H; injection H as <- <- <-; eapply Hone; eauto.
  - intros H; injection H as <- <- <-. eapply Hfail; eauto.
  - destruct (Byte.eqb (network.Identifies msg) sep).
    + intros H; injection H as <- <- <-. eapply Hone; eauto.
    + intros H. apply IH in H as (new & tail & -> & Hrcv & Hwr & Hlen & Hin & Htail).
      destruct (read_frame_consumes _ _ _ Hrf) as [Hin1 Hlen1].
      apply read_frame_inl in Hrf as (inb & -> & _ & _). simpl in *.
      exists (msg :: new), tail.
      split; [now rewrite <- app_assoc|].
      split; [rewrite Hrcv; now rewrite <- app_assoc|].
      split; [exact Hwr|]. split; [now constructor|].
      split; [|exact Htail].
      rewrite Hin1, Hin. simpl. now rewrite <- app_assoc.
  - intros H; injection H as <- <- <-. eapply Hfail; eauto.
Qed.

(** X1.  What [receivePgMsg] returns is what it took from the stream:
    the frames it returns are recorded in order, their wire forms are
    the head of the stream as it was, each has a length field equal to
    the size of its content, and the write log is as it was; without an
    error, what follows the last frame is left on the stream. *)
Theorem receivePgMsg_consumes (sep : byte) (pi pi' : PgIO)
        (ms : list PgMessage) (err : option error) :
  network.receivePgMsg sep pi = ((ms, err), pi') ->
  network.received (network.conn pi') = network.received (network.conn pi) ++ ms /\
  network.written (network.conn pi') = network.written (network.conn pi) /\
  Forall (fun m => network.Len m = Z.of_nat (length (network.Content m))) ms /\
  exists tail,
    network.inbound (network.conn pi) = concat (map wire ms) ++ tail /\
    (err = None -> network.inbound (network.conn pi') = tail).
Proof.
  unfold network.receivePgMsg. intros H.
  apply receive_loop_consumes in H
    as (new & tail & Hms & Hrcv & Hwr & Hlen & Hin & Htail).
  simpl in Hms. subst new. repeat split; auto. now exists tail.
Qed.

Lemma receivePgMsg_consumes_witness :
  exists ms pi',
    network.receivePgMsg network.IdentifiesReadyForQuery two_rows_session
    = ((ms, None), pi') /\
    length ms = 5%nat /\
    network.received (network.conn pi') = ms /\
    network.inbound (network.conn two_rows_session) = concat (map wire ms).
Proof.
  eexists _, _.
  assert (H : network.receivePgMsg network.IdentifiesReadyForQuery two_rows_session
              = ltac:(let r := eval vm_compute in
                        (network.receivePgMsg network.IdentifiesReadyForQuery
                                              two_rows_session)
                      in exact r))
    by (vm_compute; reflexivity).
  split; [exact H|]. split; [reflexivity|].
  destruct (receivePgMsg_consumes _ _ _ _ _ H) as (Hrcv & _ & _ & tail & Hin & Htail).
  split; [exact Hrcv|].
  rewrite Hin, <- (Htail eq_refl). vm_compute. reflexivity.
Defined.

(** The first bytes of a frame, and then the end of the stream. *)
Lemma read_frame_cut (pi : PgIO) (m : PgMessage) (cut tail : list byte) :
  framed m -> wire m = cut ++ tail -> tail <> [] ->
  network.inbound (network.conn pi) = cut ->
  exists pi',
    network.read_frame pi = (inr (cut_error cut), pi') /\
    network.received (network.conn pi') = network.received (network.conn pi) /\
    network.written (network.conn pi') = network.written (network.conn pi) /\
    network.IOError pi' = match cut with
                          | [] => Some io_EOF
                          | _ :: _ => network.IOError pi
                          end.
Proof.
  intros (Hpos & Hlen & Hhdr & H4) Hw Ht Hin.
  unfold network.read_frame, network.ReadByte. rewrite Hin.
  destruct cut as [|id c1].
  { eexists. split; [reflexivity|]. simpl. auto. }
  unfold wire in Hw. simpl in Hw. injection Hw as Hid Hc.
  unfold network.Peek. cbn [network.inbound network.set_inbound].
  unfold cut_error. cbn [length].
  destruct (Nat.leb_spec 4 (length c1)) as [Hle|Hgt].
  - assert (Hhd : firstn 4 c1 = firstn 4 (network.Content m)).
    { rewrite Hc, firstn_app.
      replace (4 - length c1)%nat with 0%nat by lia.
      simpl. now rewrite app_nil_r. }
    rewrite Hhd, Hhdr, Hlen, Nat2Z.id.
    unfold network.ReadFull. cbn [network.inbound network.set_inbound].
    assert (Hlt : (length c1 < length (network.Content m))%nat).
    { rewrite Hc, length_app. destruct tail; [now elim Ht|simpl; lia]. }
    destruct (Nat.leb_spec (length (network.Content m)) (length c1)) as [Hbad|_];
      [lia|].
    destruct (Nat.leb_spec (S (length c1)) 4) as [Hbad|_]; [lia|].
    destruct c1 as [|b c1]; [simpl in Hle; lia|].
    eexists. split; [reflexivity|]. simpl. auto.
  - destruct (Nat.leb_spec (S (length c1)) 4) as [_|Hbad]; [|lia].
    eexists. split; [reflexivity|]. simpl. auto.
Qed.

Lemma receive_loop_cut (sep : byte) (m : PgMessage) (cut tail : list byte) :
  framed m -> wire m = cut ++ tail -> tail <> [] ->
  forall (init : list PgMessage) (budget : nat) (ms : list PgMessage) (pi : PgIO),
    Forall framed init ->
    Forall (fun m => is_id sep m = false) init ->
    network.inbound (network.conn pi) = concat (map wire init) ++ cut ->
    (length init <= budget)%nat ->
    exists pi',
      network.receive_loop budget sep ms pi
      = ((ms ++ init, Some (cut_error cut)), pi') /\
      network.received (network.conn pi') = network.received (network.conn pi) ++ init /\
      network.written (network.conn pi') = network.written (network.conn pi) /\
      network.IOError pi' = match cut with
                            | [] => Some io_EOF
                            | _ :: _ => network.IOError pi
                            end.
Proof.
  intros Hm Hw Ht. induction init as [|m0 init IH]; intros budget ms pi Hfr Hns Hin Hb.
  - simpl in Hin.
    destruct (read_frame_cut pi m cut tail Hm Hw Ht Hin) as (pi' & Hrf & Hrcv & Hwr & Hio).
    exists pi'. rewrite !app_nil_r.
    split; [destruct budget; simpl; now rewrite Hrf|]. auto.
  - inversion Hfr as [|? ? Hm0 Hfr']; subst. inversion Hns as [|? ? Hmn Hns']; subst.
    simpl in Hin. rewrite <- app_assoc in Hin.
    destruct budget as [|budget]; [simpl in Hb; lia|].
    destruct (IH budget (ms ++ [m0])
                 (after_reading pi (concat (map wire init) ++ cut) [m0] (network.IOError pi))
                 Hfr' Hns' eq_refl ltac:(simpl in Hb; lia))
      as (pi' & Hloop & Hrcv & Hwr & Hio).
    exists pi'. simpl. rewrite (read_frame_wire pi m0 _ Hm0 Hin).
    unfold is_id in Hmn; rewrite Hmn. rewrite Hloop.
    simpl in Hrcv, Hwr, Hio. rewrite <- !app_assoc in *. simpl. auto.
Qed.

(** X2.  The stream ends before the separator has come.  The complete
    frames are returned with a socket error: io.EOF when the stream ends
    between two frames or before the length field of a frame is
    complete, io.ErrUnexpectedEOF when it ends inside the content.  The
    error flag is set only in the first case, the end between two
    frames; a frame cut short leaves the flag as it was. *)
Theorem receivePgMsg_cut_short (sep : byte) (pi : PgIO) (init : list PgMessage)
        (m : PgMessage) (cut tail : list byte) :
  Forall framed init ->
  Forall (fun m => is_id sep m = false) init ->
  framed m -> wire m = cut ++ tail -> tail <> [] ->
  network.inbound (network.conn pi) = concat (map wire init) ++ cut ->
  exists pi',
    network.receivePgMsg sep pi = ((init, Some (cut_error cut)), pi') /\
    network.received (network.conn pi') = network.received (network.conn pi) ++ init /\
    network.IOError pi' = match cut with
                          | [] => Some io_EOF
                          | _ :: _ => network.IOError pi
                          end.
Proof.
  intros Hfr Hns Hm Hw Ht Hin. unfold network.receivePgMsg.
  destruct (receive_loop_cut sep m cut tail Hm Hw Ht init
              (length (network.inbound (network.conn pi))) [] pi Hfr Hns Hin)
    as (pi' & Hloop & Hrcv & _ & Hio).
  - rewrite Hin, length_app. pose proof (concat_wire_length init). lia.
  - exists pi'. auto.
Qed.

Lemma receivePgMsg_cut_short_witness :
  exists pi',
    network.receivePgMsg network.IdentifiesReadyForQuery
      (session (wire data_row ++ firstn 7 (wire (command_complete "SELECT 1"))) [])
    = (([data_row], Some io_ErrUnexpectedEOF), pi') /\
    network.received (network.conn pi') = [data_row] /\
    network.IOError pi' = None.
Proof.
  assert (Hd : framed data_row) by (apply framed_backend_msg; simpl; lia).
  assert (Hc : framed (command_complete "SELECT 1"))
    by (apply framed_backend_msg; simpl; lia).
  exact (receivePgMsg_cut_short network.IdentifiesReadyForQuery
           (session (wire data_row ++ firstn 7 (wire (command_complete "SELECT 1"))) [])
           [data_row] (command_complete "SELECT 1")
           (firstn 7 (wire (command_complete "SELECT 1")))
           (skipn 7 (wire (command_complete "SELECT 1")))
           ltac:(repeat constructor; exact Hd)
           ltac:(repeat constructor)
           Hc eq_refl ltac:(discriminate) eq_refl).
Defined.

(** The frames that [send] writes are frames to a reader. *)
Lemma framed_as_read (m : PgMessage) : encodable m -> framed (as_read m).
Proof.
  intros [H4 H32]. unfold framed, as_read, network.encode_content, network.body.
  cbn [network.Position network.Len network.Content].
  assert (Hlen : length (BigEndian.PutUint32 (Z.of_nat (length (network.Content m)))
                           ++ skipn 4 (network.Content m))
                 = length (network.Content m)).
  { rewrite length_app, length_skipn. simpl. lia. }
  repeat split.
  - now rewrite Hlen.
  - change (firstn 4 (BigEndian.PutUint32 (Z.of_nat (length (network.Content m)))
                        ++ skipn 4 (network.Content m)))
      with (BigEndian.PutUint32 (Z.of_nat (length (network.Content m)))).
    rewrite Uint32_PutUint32. apply Z.mod_small. lia.
  - now rewrite Hlen.
Qed.

Lemma concat_encode_as_read (l : list PgMessage) :
  concat (map network.encode l) = concat (map wire (map as_read l)).
Proof. induction l as [|m l IH]; simpl; [reflexivity|]. now rewrite IH. Qed.

(** X3.  Writing and reading agree on the frame.  The messages of one
    [send], written in a single buffer, are read back from a stream that
    starts with that buffer as messages with the same identifiers and
    the same bodies, up to and including the first one that has the
    separator's identifier; what follows the buffer stays on the
    stream. *)
Theorem send_receive_round_trip (sep : byte) (pi : PgIO)
        (init : list PgMessage) (a : PgMessage) :
  Forall encodable (init ++ [a]) ->
  Forall (fun m => is_id sep m = false) init -> is_id sep a = true ->
  write_ok (network.conn pi) = true ->
  exists pi1 raw,
    network.send (init ++ [a]) pi = (None, pi1) /\
    network.written (network.conn pi1) = network.written (network.conn pi) ++ [raw] /\
    forall (peer : PgIO) (rest : list byte),
      network.inbound (network.conn peer) = raw ++ rest ->
      exists ms,
        network.receivePgMsg sep peer
        = ((ms, None), after_reading peer rest ms (network.IOError peer)) /\
        Forall2 (fun m r => network.Identifies r = network.Identifies m /\
                            network.body r = network.body m /\
                            network.Position r = 4%nat)
                (init ++ [a]) ms.
Proof.
  intros Henc Hns Hsep Hw.
  destruct (network.send (init ++ [a]) pi) as [e pi1] eqn:Hs.
  pose proof Hs as Hs'. apply send_inv in Hs' as (wf & -> & Hok & _).
  apply Hok in Hw as ->.
  exists (after_writing pi (concat (map network.encode (init ++ [a]))) wf None),
    (concat (map network.encode (init ++ [a]))).
  split; [reflexivity|]. split; [reflexivity|].
  intros peer rest Hin. exists (map as_read (init ++ [a])). split.
  - rewrite map_app. simpl map.
    apply Forall_app in Henc as [Hinit Ha]. inversion Ha as [|? ? Ha' _]; subst.
    apply receivePgMsg_wire.
    + clear -Hinit. induction Hinit; simpl; constructor; auto using framed_as_read.
    + now apply framed_as_read.
    + clear -Hns. induction Hns; simpl; constructor; auto.
    + exact Hsep.
    + rewrite Hin, concat_encode_as_read, !map_app, concat_app. simpl.
      now rewrite app_nil_r, <- app_assoc.
  - clear. induction (init ++ [a]) as [|m l IH]; simpl; constructor; auto.
Qed.

Lemma send_receive_round_trip_witness :
  exists pi1 ms,
    network.send (parse_batch "h" example_sql) (session [] []) = (None, pi1) /\
    network.receivePgMsg network.IdentifiesSync
      (session (concat (network.written (network.conn pi1))) [])
    = ((ms, None),
       after_reading (session (concat (network.written (network.conn pi1))) [])
                     [] ms None) /\
    map network.body ms = map network.body (parse_batch "h" example_sql).
Proof.
  destruct (send_receive_round_trip network.IdentifiesSync (session [] [])
              [network.addInt16
                 (network.addString
                    (network.addString (network.NewPgMessage network.IdentifiesParse) "h")
                    example_sql) 0;
               network.addString
                 (network.addByte (network.NewPgMessage network.IdentifiesDescribe)
                                  "S"%byte) "h"]
              (network.NewPgMessage network.IdentifiesSync))
    as (pi1 & raw & Hs & Hwr & Hback).
  - repeat (apply List.Forall_cons; [split; simpl; lia|]). apply List.Forall_nil.
  - repeat (apply List.Forall_cons; [reflexivity|]). apply List.Forall_nil.
  - reflexivity.
  - reflexivity.
  - destruct (Hback (session (concat (network.written (network.conn pi1))) []) [])
      as (ms & Hr & Hsame).
    + rewrite Hwr. simpl. now rewrite !app_nil_r.
    + exists pi1, ms. split; [exact Hs|]. split; [exact Hr|].
      unfold parse_batch. revert Hsame. simpl app.
      generalize (network.NewPgMessage network.IdentifiesSync),
        (network.addString
           (network.addByte (network.NewPgMessage network.IdentifiesDescribe)
                            "S"%byte) "h"),
        (network.addInt16
           (network.addString
              (network.addString (network.NewPgMessage network.IdentifiesParse) "h")
              example_sql) 0).
      intros m3 m2 m1 Hsame.
      inversion Hsame as [|? r1 ? l1 (_ & Hb1 & _) H1]; subst.
      inversion H1 as [|? r2 ? l2 (_ & Hb2 & _) H2]; subst.
      inversion H2 as [|? r3 ? l3 (_ & Hb3 & _) H3]; subst.
      inversion H3; subst. simpl. now rewrite Hb1, Hb2, Hb3.
Defined.

(** * The query operations on a response that is there *)

Lemma tl_wfaults (pi pi1 : PgIO) (out : list PgMessage) :
  network.send out pi = (None, pi1) ->
  pi1 = after_writing pi (concat (map network.encode out))
                      (tl (network.wfaults (network.conn pi))) None.
Proof.
  unfold network.send, network.conn_Write, after_writing.
  destruct (network.closed (network.conn pi)) eqn:Hc; [intros H; discriminate H|].
  destruct (network.wfaults (network.conn pi)) as [|[t|] l] eqn:Hw; simpl;
    intros H; try discriminate H; injection H as <-;
    reflexivity.
Qed.

(** A batch is written, and the response is on the stream up to its
    ReadyForQuery. *)
Lemma exchange_drained (pi : PgIO) (out init : list PgMessage) (rfq : PgMessage)
      (rest : list byte) :
  write_ok (network.conn pi) = true ->
  network.inbound (network.conn pi) = concat (map wire init) ++ wire rfq ++ rest ->
  Forall framed init -> framed rfq ->
  Forall (fun m => is_id network.IdentifiesReadyForQuery m = false) init ->
  is_id network.IdentifiesReadyForQuery rfq = true ->
  exists pi1,
    network.send out pi = (None, pi1) /\
    pi1 = after_writing pi (concat (map network.encode out))
                        (tl (network.wfaults (network.conn pi))) None /\
    network.receivePgMsg network.IdentifiesReadyForQuery pi1
    = ((init ++ [rfq], None), after_reading pi1 rest (init ++ [rfq]) None).
Proof.
  intros Hw Hin Hfr Hfz Hnz Hz.
  destruct (network.send out pi) as [e pi1] eqn:Hs. exists pi1.
  pose proof Hs as Hs'. apply send_inv in Hs' as (wf & Hpi1 & Hok & _).
  apply Hok in Hw. subst e. split; [reflexivity|].
  pose proof (tl_wfaults _ _ _ Hs) as Htl. split; [exact Htl|].
  rewrite (receivePgMsg_wire network.IdentifiesReadyForQuery pi1 init rfq rest);
    auto; [now rewrite Htl|].
  rewrite Htl. exact Hin.
Qed.

Lemma ReadyForQuery_ready (pi : PgIO) (rfq : PgMessage) (status : byte) :
  framed rfq -> payload_byte rfq = Some status ->
  network.ReadyForQuery pi rfq = Some (network.set_txStatus pi status).
Proof.
  intros (Hpos & _) Hb. unfold network.ReadyForQuery.
  now rewrite (payload_byte_read _ _ Hpos Hb).
Qed.

Lemma is_id_eq (id : byte) (m : PgMessage) :
  is_id id m = true -> network.Identifies m = id.
Proof. unfold is_id. apply Byte.byte_dec_bl. Qed.

Lemma range_app {A : Type} (f : A -> PgMessage -> option A) (l1 l2 : list PgMessage) :
  forall a, network.range f a (l1 ++ l2)
            = a' ← network.range f a l1; network.range f a' l2.
Proof.
  induction l1 as [|v l1 IH]; intros a; simpl; [reflexivity|].
  destruct (f a v) as [a'|]; simpl; [apply IH|reflexivity].
Qed.

(** ** Rows *)

Lemma row_fits_values (vals : list (option (list byte))) :
  6 + Z.of_nat (length (concat (map column_wire vals))) < 4294967296 ->
  Forall (fun val => forall b, val = Some b -> Z.of_nat (length b) < 4294967295) vals.
Proof.
  induction vals as [|val vals IH]; simpl; [constructor|].
  rewrite length_app. intros H. constructor.
  - intros b ->. simpl in H. lia.
  - apply IH. lia.
Qed.

Lemma framed_row (vals : list (option (list byte))) :
  row_fits vals -> framed (row vals).
Proof.
  intros [_ H]. apply framed_backend_msg.
  rewrite length_app. simpl length. lia.
Qed.

Lemma DataRow_row (vals : list (option (list byte))) :
  row_fits vals -> network.DataRow (row vals) = Some (map column_len vals, vals).
Proof.
  intros [Hn H]. apply (DataRow_wire vals (row vals) []); auto using row_fits_values.
  - now rewrite app_nil_r.
  - simpl. lia.
Qed.

Lemma QueryNoArgs_rows_loop (rows : network.rowsData) :
  Forall row_fits rows ->
  forall cols fieldLen data err pi,
    network.range network.QueryNoArgs_case (cols, fieldLen, data, err, pi) (map row rows)
    = Some (cols, fieldLen ++ map (map column_len) rows, data ++ rows, err, pi).
Proof.
  induction 1 as [|vals rows Hv _ IH]; intros cols fieldLen data err pi; simpl.
  - now rewrite !app_nil_r.
  - unfold network.QueryNoArgs_case at 1.
    change (network.Identifies (row vals)) with network.IdentifiesDataRow.
    cbn [Byte.eqb]. change (Byte.eqb network.IdentifiesDataRow network.IdentifiesErrorResponse)
      with false.
    change (Byte.eqb network.IdentifiesDataRow network.IdentifiesDataRow) with true.
    cbn iota. rewrite (DataRow_row vals Hv). cbn [mbind option_bind].
    rewrite IH. now rewrite <- !app_assoc.
Qed.

Lemma ParseQuery_rows_loop (rows : network.rowsData) :
  Forall row_fits rows ->
  forall fieldLen data err pi,
    network.range network.ParseQuery_case (fieldLen, data, err, pi) (map row rows)
    = Some (fieldLen ++ map (map column_len) rows, data ++ rows, err, pi).
Proof.
  induction 1 as [|vals rows Hv _ IH]; intros fieldLen data err pi; simpl.
  - now rewrite !app_nil_r.
  - unfold network.ParseQuery_case at 1.
    change (network.Identifies (row vals)) with network.IdentifiesDataRow.
    change (Byte.eqb network.IdentifiesDataRow network.IdentifiesErrorResponse)
      with false.
    change (Byte.eqb network.IdentifiesDataRow network.IdentifiesDataRow) with true.
    cbn iota. rewrite (DataRow_row vals Hv). cbn [mbind option_bind].
    rewrite IH. now rewrite <- !app_assoc.
Qed.

Lemma Forall_framed_rows (rows : network.rowsData) :
  Forall row_fits rows -> Forall framed (map row rows).
Proof. induction 1; simpl; constructor; auto using framed_row. Qed.

Lemma rows_not_ready (rows : network.rowsData) :
  Forall (fun m => is_id network.IdentifiesReadyForQuery m = false) (map row rows).
Proof. induction rows; simpl; constructor; auto. Qed.

Lemma range_cons {A : Type} (f : A -> PgMessage -> option A) (v : PgMessage)
      (l : list PgMessage) (a : A) :
  network.range f a (v :: l) = a' ← f a v; network.range f a' l.
Proof. reflexivity. Qed.

Lemma QueryNoArgs_case_RowDescription (desc : PgMessage) cols' cols fieldLen data err pi :
  is_id network.IdentifiesRowDescription desc = true ->
  network.columns desc = Some cols' ->
  network.QueryNoArgs_case (cols, fieldLen, data, err, pi) desc
  = Some (cols', fieldLen, data, err, pi).
Proof.
  intros Hd Hcols. unfold network.QueryNoArgs_case.
  rewrite (is_id_eq _ _ Hd). cbn. now rewrite Hcols.
Qed.

Lemma QueryNoArgs_case_CommandComplete (done : PgMessage) st :
  is_id network.IdentifiesCommandComplete done = true ->
  network.QueryNoArgs_case st done = Some st.
Proof.
  intros Hc. destruct st as [[[[cols fieldLen] data] err] pi].
  unfold network.QueryNoArgs_case. now rewrite (is_id_eq _ _ Hc).
Qed.

Lemma QueryNoArgs_case_ReadyForQuery (rfq : PgMessage) (status : byte)
      cols fieldLen data err pi :
  framed rfq -> is_id network.IdentifiesReadyForQuery rfq = true ->
  payload_byte rfq = Some status ->
  network.QueryNoArgs_case (cols, fieldLen, data, err, pi) rfq
  = Some (cols, fieldLen, data, err, network.set_txStatus pi status).
Proof.
  intros Hfz Hz Hb. unfold network.QueryNoArgs_case.
  rewrite (ReadyForQuery_ready pi rfq status Hfz Hb).
  now rewrite (is_id_eq _ _ Hz).
Qed.

(** X4.  A simple query whose response is a RowDescription, DataRows,
    a CommandComplete and a ReadyForQuery: the call returns the columns
    of the description, the rows in the order of the stream with NULL as
    an absent value, one list of lengths per row with 0xFFFFFFFF for
    NULL, and a nil error; the status byte is stored, and what follows
    the ReadyForQuery is left on the stream. *)
Theorem QueryNoArgs_rows (query : string) (pi : PgIO) (desc done rfq : PgMessage)
        (cols : list network.PgColumn) (rows : network.rowsData)
        (status : byte) (rest : list byte) :
  write_ok (network.conn pi) = true ->
  framed desc -> is_id network.IdentifiesRowDescription desc = true ->
  network.columns desc = Some cols ->
  Forall row_fits rows ->
  framed done -> is_id network.IdentifiesCommandComplete done = true ->
  framed rfq -> is_id network.IdentifiesReadyForQuery rfq = true ->
  payload_byte rfq = Some status ->
  network.inbound (network.conn pi)
  = wire desc ++ concat (map wire (map row rows)) ++ wire done ++ wire rfq ++ rest ->
  network.QueryNoArgs query pi
  = Some (cols, Some (map (map column_len) rows), Some rows, None,
          after_exchange pi (query_batch query)
                         (desc :: map row rows ++ [done; rfq]) rest status).
Proof.
  intros Hw Hfd Hd Hcols Hrows Hfc Hc Hfz Hz Hb Hin.
  destruct (exchange_drained pi (query_batch query) (desc :: map row rows ++ [done])
              rfq rest Hw) as (pi1 & Hs & Hpi1 & Hr).
  - rewrite Hin. simpl. rewrite map_app, concat_app. simpl.
    now rewrite app_nil_r, <- !app_assoc.
  - constructor; [exact Hfd|]. apply Forall_app. split.
    + now apply Forall_framed_rows.
    + constructor; [exact Hfc|constructor].
  - exact Hfz.
  - constructor; [unfold is_id; now rewrite (is_id_eq _ _ Hd)|].
    apply Forall_app. split; [apply rows_not_ready|].
    constructor; [|constructor]. unfold is_id. now rewrite (is_id_eq _ _ Hc).
  - exact Hz.
  - unfold network.QueryNoArgs. unfold query_batch in Hs. rewrite Hs, Hr.
    replace ((desc :: map row rows ++ [done]) ++ [rfq])
      with (desc :: map row rows ++ [done; rfq])
      by (simpl; now rewrite <- app_assoc).
    rewrite range_cons, (QueryNoArgs_case_RowDescription desc cols) by assumption.
    cbn [mbind option_bind].
    rewrite range_app, (QueryNoArgs_rows_loop rows Hrows). cbn [mbind option_bind].
    rewrite range_cons, (QueryNoArgs_case_CommandComplete done) by assumption.
    cbn [mbind option_bind].
    rewrite range_cons, (QueryNoArgs_case_ReadyForQuery rfq status) by assumption.
    cbn [mbind option_bind network.range app].
    unfold after_exchange. now rewrite Hpi1.
Qed.

Lemma QueryNoArgs_rows_witness :
  exists cols,
    network.QueryNoArgs "SELECT a,b FROM t;" two_rows_session
    = Some (cols, Some [[1; 4294967295]; [1; 2]], Some two_rows, None,
            after_exchange two_rows_session (query_batch "SELECT a,b FROM t;")
              (two_rows_description
                 :: map row two_rows ++ [command_complete "SELECT 2"; ready_for_query "I"])
              [] "I"%byte) /\
    map network.Name cols = ["a"; "b"].
Proof.
  eexists. split.
  - apply (QueryNoArgs_rows "SELECT a,b FROM t;" two_rows_session
             two_rows_description (command_complete "SELECT 2") (ready_for_query "I")
             _ two_rows "I"%byte []).
    + reflexivity.
    + apply framed_backend_msg. simpl. lia.
    + reflexivity.
    + reflexivity.
    + repeat (apply List.Forall_cons; [split; simpl; lia|]). apply List.Forall_nil.
    + apply framed_backend_msg. simpl. lia.
    + reflexivity.
    + apply framed_backend_msg. simpl. lia.
    + reflexivity.
    + reflexivity.
    + reflexivity.
  - reflexivity.
Defined.

Lemma ParseQuery_case_other (v : PgMessage) st :
  is_id network.IdentifiesErrorResponse v = false ->
  is_id network.IdentifiesDataRow v = false ->
  is_id network.IdentifiesReadyForQuery v = false ->
  network.ParseQuery_case st v = Some st.
Proof.
  unfold is_id. intros HE HD HZ. destruct st as [[[fieldLen data] err] pi].
  unfold network.ParseQuery_case. now rewrite HE, HD, HZ.
Qed.

Lemma ParseQuery_case_ReadyForQuery (rfq : PgMessage) (status : byte)
      fieldLen data err pi :
  framed rfq -> is_id network.IdentifiesReadyForQuery rfq = true ->
  payload_byte rfq = Some status ->
  network.ParseQuery_case (fieldLen, data, err, pi) rfq
  = Some (fieldLen, data, err, network.set_txStatus pi status).
Proof.
  intros Hfz Hz Hb. unfold network.ParseQuery_case.
  rewrite (ReadyForQuery_ready pi rfq status Hfz Hb).
  now rewrite (is_id_eq _ _ Hz).
Qed.

Lemma is_id_other (a b : byte) (v : PgMessage) :
  is_id a v = true -> Byte.eqb a b = false -> is_id b v = false.
Proof.
  intros Ha Hab. unfold is_id. rewrite (is_id_eq _ _ Ha). exact Hab.
Qed.

(** The rows of an extended query, as [ParseQuery] returns them. *)
Lemma ParseQuery_rows {Value : Type} (value2bytes : Value -> list byte)
      (name : string) (args : list (option Value)) (pi : PgIO)
      (bc done rfq : PgMessage) (rows : network.rowsData)
      (status : byte) (rest : list byte) :
  write_ok (network.conn pi) = true ->
  framed bc -> is_id network.IdentifiesBindComplete bc = true ->
  Forall row_fits rows ->
  framed done -> is_id network.IdentifiesCommandComplete done = true ->
  framed rfq -> is_id network.IdentifiesReadyForQuery rfq = true ->
  payload_byte rfq = Some status ->
  network.inbound (network.conn pi)
  = wire bc ++ concat (map wire (map row rows)) ++ wire done ++ wire rfq ++ rest ->
  network.ParseQuery value2bytes name args pi
  = Some (Some (map (map column_len) rows), Some rows, None,
          after_exchange pi (bind_batch value2bytes name args)
                         (bc :: map row rows ++ [done; rfq]) rest status).
Proof.
  intros Hw Hfb Hbc Hrows Hfc Hc Hfz Hz Hb Hin.
  destruct (exchange_drained pi (bind_batch value2bytes name args)
              (bc :: map row rows ++ [done]) rfq rest Hw) as (pi1 & Hs & Hpi1 & Hr).
  - rewrite Hin. simpl. rewrite map_app, concat_app. simpl.
    now rewrite app_nil_r, <- !app_assoc.
  - constructor; [exact Hfb|]. apply Forall_app. split.
    + now apply Forall_framed_rows.
    + constructor; [exact Hfc|constructor].
  - exact Hfz.
  - constructor; [now apply (is_id_other _ _ _ Hbc)|].
    apply Forall_app. split; [apply rows_not_ready|].
    constructor; [|constructor]. now apply (is_id_other _ _ _ Hc).
  - exact Hz.
  - unfold network.ParseQuery. unfold bind_batch in Hs. rewrite Hs, Hr.
    replace ((bc :: map row rows ++ [done]) ++ [rfq])
      with (bc :: map row rows ++ [done; rfq])
      by (simpl; now rewrite <- app_assoc).
    rewrite range_cons, (ParseQuery_case_other bc)
      by (now apply (is_id_other _ _ _ Hbc)).
    cbn [mbind option_bind].
    rewrite range_app, (ParseQuery_rows_loop rows Hrows). cbn [mbind option_bind].
    rewrite range_cons, (ParseQuery_case_other done)
      by (now apply (is_id_other _ _ _ Hc)).
    cbn [mbind option_bind].
    rewrite range_cons, (ParseQuery_case_ReadyForQuery rfq status) by assumption.
    cbn [mbind option_bind network.range app].
    unfold after_exchange. now rewrite Hpi1.
Qed.

(** X5.  [PgStmt.Query] on a response of BindComplete, DataRows,
    CommandComplete and ReadyForQuery returns rows that carry the
    columns and parameter types of the statement, the rows of the stream
    in order and their lengths; the Bind names the statement, and the
    error is nil. *)
Theorem Query_rows {Value : Type} (value2bytes : Value -> list byte)
        (s : driver.PgStmt) (args : list (option Value)) (conn : driver.PgConn)
        (bc done rfq : PgMessage) (rows : network.rowsData)
        (status : byte) (rest : list byte) :
  write_ok (network.conn (driver.io conn)) = true ->
  framed bc -> is_id network.IdentifiesBindComplete bc = true ->
  Forall row_fits rows ->
  framed done -> is_id network.IdentifiesCommandComplete done = true ->
  framed rfq -> is_id network.IdentifiesReadyForQuery rfq = true ->
  payload_byte rfq = Some status ->
  network.inbound (network.conn (driver.io conn))
  = wire bc ++ concat (map wire (map row rows)) ++ wire done ++ wire rfq ++ rest ->
  driver.Query value2bytes s args conn
  = Some (driver.mkPgRows (driver.columns s) (driver.parameterTypes s)
            (Some (map (map column_len) rows)) (Some rows),
          None,
          driver.set_io conn
            (after_exchange (driver.io conn)
               (bind_batch value2bytes (driver.Identifies s) args)
               (bc :: map row rows ++ [done; rfq]) rest status)).
Proof.
  intros Hw Hfb Hbc Hrows Hfc Hc Hfz Hz Hb Hin. unfold driver.Query.
  now rewrite (ParseQuery_rows value2bytes (driver.Identifies s) args (driver.io conn)
                 bc done rfq rows status rest).
Qed.

Lemma Query_rows_witness :
  exists pr conn',
    driver.Query text_value example_stmt example_args (example_conn select_session)
    = Some (pr, None, conn') /\
    driver.rows pr = Some two_rows /\
    driver.fieldLen pr = Some [[1; 4294967295]; [1; 2]] /\
    driver.rows_parameterTypes pr = [23; 23] /\
    network.txStatus (driver.io conn') = "T"%byte.
Proof.
  eexists _, _. split.
  - apply (Query_rows text_value example_stmt example_args (example_conn select_session)
             bind_complete (command_complete "SELECT 2") (ready_for_query "T")
             two_rows "T"%byte []).
    + reflexivity.
    + apply framed_backend_msg. simpl. lia.
    + reflexivity.
    + repeat (apply List.Forall_cons; [split; simpl; lia|]). apply List.Forall_nil.
    + apply framed_backend_msg. simpl. lia.
    + reflexivity.
    + apply framed_backend_msg. simpl. lia.
    + reflexivity.
    + reflexivity.
    + reflexivity.
  - repeat split.
Defined.

(** ** Preparing a statement *)

Lemma Parse_case_other (v : PgMessage) st :
  is_id network.IdentifiesErrorResponse v = false ->
  is_id network.IdentifiesParameterDescription v = false ->
  is_id network.IdentifiesRowDescription v = false ->
  is_id network.IdentifiesReadyForQuery v = false ->
  network.Parse_case st v = Some st.
Proof.
  unfold is_id. intros HE Ht HT HZ. destruct st as [[[cols ps] err] pi].
  unfold network.Parse_case. now rewrite HE, Ht, HT, HZ.
Qed.

Lemma Parse_case_ReadyForQuery (rfq : PgMessage) (status : byte) cols ps err pi :
  framed rfq -> is_id network.IdentifiesReadyForQuery rfq = true ->
  payload_byte rfq = Some status ->
  network.Parse_case (cols, ps, err, pi) rfq
  = Some (cols, ps, err, network.set_txStatus pi status).
Proof.
  intros Hfz Hz Hb. unfold network.Parse_case.
  rewrite (ReadyForQuery_ready pi rfq status Hfz Hb).
  now rewrite (is_id_eq _ _ Hz).
Qed.

Lemma Parse_case_describes (desc : PgMessage) cols' cols ps err pi :
  describes desc cols' ->
  network.Parse_case (cols, ps, err, pi) desc
  = Some (match cols' with [] => if is_id "n"%byte desc then cols else cols' | _ => cols' end,
          ps, err, pi).
Proof.
  intros [[Hd Hcols]|[Hn ->]]; unfold network.Parse_case.
  - rewrite (is_id_eq _ _ Hd). cbn. rewrite Hcols. cbn.
    unfold is_id. rewrite (is_id_eq _ _ Hd). cbn. now destruct cols'.
  - rewrite Hn. now rewrite (is_id_eq _ _ Hn).
Qed.

Lemma ParameterDescription_loop_wire (oids : list Z) :
  Forall (fun o => 0 <= o < 4294967296) oids ->
  forall (v : PgMessage) (suffix : list byte) (ps : list Z),
    remaining v = concat (map BigEndian.PutUint32 oids) ++ suffix ->
    (network.Position v <= length (network.Content v))%nat ->
    network.ParameterDescription_loop (length oids) v ps = Some (ps ++ oids).
Proof.
  induction 1 as [|o oids Ho _ IH]; intros v suffix ps Hrem Hpos; simpl.
  - now rewrite app_nil_r.
  - simpl in Hrem.
    destruct (int32_remaining v (BigEndian.PutUint32 o) _ eq_refl Hrem Hpos)
      as (Hi & Hr & Hp).
    rewrite Hi. cbn [mbind option_bind].
    rewrite Uint32_PutUint32, Z.mod_small by lia.
    rewrite (IH _ suffix) by assumption. now rewrite <- app_assoc.
Qed.

Lemma length_concat_PutUint32 (oids : list Z) :
  length (concat (map BigEndian.PutUint32 oids)) = (4 * length oids)%nat.
Proof. induction oids as [|o oids IH]; simpl; [reflexivity|]. rewrite IH. lia. Qed.

Lemma framed_parameter_description (oids : list Z) :
  oids_fit oids -> framed (parameter_description oids).
Proof.
  intros [Hn _]. apply framed_backend_msg.
  rewrite length_app, length_concat_PutUint32. simpl length. lia.
Qed.

Lemma Parse_case_ParameterDescription (oids : list Z) cols ps err pi :
  oids_fit oids ->
  network.Parse_case (cols, ps, err, pi) (parameter_description oids)
  = Some (cols, ps ++ oids, err, pi).
Proof.
  intros [Hn Ho]. unfold network.Parse_case.
  change (network.Identifies (parameter_description oids))
    with network.IdentifiesParameterDescription.
  cbn [Byte.eqb].
  change (Byte.eqb network.IdentifiesParameterDescription network.IdentifiesErrorResponse)
    with false.
  change (Byte.eqb network.IdentifiesParameterDescription
                   network.IdentifiesParameterDescription) with true.
  cbn iota.
  destruct (int16_remaining (parameter_description oids)
              (BigEndian.PutUint16 (Z.of_nat (length oids)))
              (concat (map BigEndian.PutUint32 oids)) eq_refl eq_refl)
    as (Hi & Hr & Hp); [simpl; lia|].
  rewrite Hi. cbn [mbind option_bind].
  rewrite Uint16_PutUint16, Z.mod_small, Nat2Z.id by lia.
  rewrite (ParameterDescription_loop_wire oids Ho _ []); auto.
  now rewrite app_nil_r.
Qed.

(** [Parse] on the answer of a server that accepts the statement. *)
Lemma Parse_described (name query : string) (pi : PgIO) (pc desc rfq : PgMessage)
      (oids : list Z) (cols : list network.PgColumn) (status : byte) (rest : list byte) :
  write_ok (network.conn pi) = true ->
  framed pc -> is_id network.IdentifiesParseComplete pc = true ->
  oids_fit oids ->
  framed desc -> describes desc cols ->
  framed rfq -> is_id network.IdentifiesReadyForQuery rfq = true ->
  payload_byte rfq = Some status ->
  network.inbound (network.conn pi)
  = wire pc ++ wire (parameter_description oids) ++ wire desc ++ wire rfq ++ rest ->
  network.Parse name query pi
  = Some (cols, oids, None,
          after_exchange pi (parse_batch name query)
                         [pc; parameter_description oids; desc; rfq] rest status).
Proof.
  intros Hw Hfp Hpc Ho Hfd Hdesc Hfz Hz Hb Hin.
  assert (Hdz : is_id network.IdentifiesReadyForQuery desc = false).
  { destruct Hdesc as [[Hd _]|[Hn _]]; [now apply (is_id_other _ _ _ Hd)|
                                         now apply (is_id_other _ _ _ Hn)]. }
  destruct (exchange_drained pi (parse_batch name query)
              [pc; parameter_description oids; desc] rfq rest Hw)
    as (pi1 & Hs & Hpi1 & Hr).
  - rewrite Hin. cbn [concat map]. now rewrite app_nil_r, <- !app_assoc.
  - repeat (apply List.Forall_cons; [first [assumption
                                          |now apply framed_parameter_description]|]).
    apply List.Forall_nil.
  - exact Hfz.
  - apply List.Forall_cons; [now apply (is_id_other _ _ _ Hpc)|].
    apply List.Forall_cons; [reflexivity|].
    apply List.Forall_cons; [exact Hdz|apply List.Forall_nil].
  - exact Hz.
  - unfold network.Parse. unfold parse_batch in Hs. rewrite Hs, Hr. simpl app.
    rewrite range_cons, (Parse_case_other pc)
      by (now apply (is_id_other _ _ _ Hpc)).
    cbn [mbind option_bind].
    rewrite range_cons, (Parse_case_ParameterDescription oids) by assumption.
    cbn [mbind option_bind app].
    rewrite range_cons, (Parse_case_describes desc cols) by assumption.
    cbn [mbind option_bind].
    rewrite range_cons, (Parse_case_ReadyForQuery rfq status) by assumption.
    cbn [mbind option_bind network.range].
    unfold after_exchange. rewrite Hpi1.
    destruct Hdesc as [[Hd _]|[Hn ->]].
    + assert (Hnn : is_id "n"%byte desc = false) by now apply (is_id_other _ _ _ Hd).
      rewrite Hnn. now destruct cols.
    + now rewrite Hn.
Qed.

(** X6.  [NewPgStmt] for a text that is not in the cache, on a session
    without error flag, and a server that answers ParseComplete, a
    ParameterDescription with the type OIDs, a RowDescription or NoData,
    and ReadyForQuery: the statement is named by the checksum of the
    text, has these OIDs as its parameter types (so [NumInput] is their
    number) and the described columns (none for NoData), is filed in the
    cache under its name, and the error is nil. *)
Theorem NewPgStmt_prepares (conn : driver.PgConn) (query : string)
        (pc desc rfq : PgMessage) (oids : list Z) (cols : list network.PgColumn)
        (status : byte) (rest : list byte) :
  network.IOError (driver.io conn) = None ->
  driver.stmts conn !! driver.statement_name query = None ->
  write_ok (network.conn (driver.io conn)) = true ->
  framed pc -> is_id network.IdentifiesParseComplete pc = true ->
  oids_fit oids ->
  framed desc -> describes desc cols ->
  framed rfq -> is_id network.IdentifiesReadyForQuery rfq = true ->
  payload_byte rfq = Some status ->
  network.inbound (network.conn (driver.io conn))
  = wire pc ++ wire (parameter_description oids) ++ wire desc ++ wire rfq ++ rest ->
  exists st,
    st = driver.mkPgStmt (driver.statement_name query) query cols oids /\
    driver.NumInput st = length oids /\
    driver.NewPgStmt conn query
    = Some (Some st, None,
            driver.mkPgConn
              (after_exchange (driver.io conn)
                 (parse_batch (driver.statement_name query) query)
                 [pc; parameter_description oids; desc; rfq] rest status)
              (<[driver.statement_name query := st]> (driver.stmts conn))).
Proof.
  intros Hflag Hmiss Hw Hfp Hpc Ho Hfd Hdesc Hfz Hz Hb Hin.
  eexists. split; [reflexivity|]. split; [reflexivity|].
  unfold driver.NewPgStmt. rewrite Hflag, Hmiss. simpl.
  now rewrite (Parse_described (driver.statement_name query) query (driver.io conn)
                 pc desc rfq oids cols status rest).
Qed.

Lemma NewPgStmt_prepares_witness :
  exists st conn',
    driver.NewPgStmt (example_conn prepared_session) example_sql
    = Some (Some st, None, conn') /\
    driver.NumInput st = 2%nat /\
    driver.columns st = [] /\
    driver.stmts conn' !! "e4f23441" = Some st.
Proof.
  destruct (NewPgStmt_prepares (example_conn prepared_session) example_sql
              parse_complete no_data (ready_for_query "I") [23; 23] [] "I"%byte [])
    as (st & Hst & Hn & Hnew).
  - reflexivity.
  - reflexivity.
  - reflexivity.
  - apply framed_backend_msg. simpl. lia.
  - reflexivity.
  - split; [simpl; lia|]. repeat (apply List.Forall_cons; [lia|]). apply List.Forall_nil.
  - apply framed_backend_msg. simpl. lia.
  - right. split; reflexivity.
  - apply framed_backend_msg. simpl. lia.
  - reflexivity.
  - reflexivity.
  - reflexivity.
  - eexists _, _. split; [exact Hnew|]. split; [exact Hn|].
    subst st. split; [reflexivity|]. apply lookup_insert_eq.
Defined.

(** ** The affected-row count *)

Lemma append_cons (c : ascii) (s t : string) :
  String c s +:+ t = String c (s +:+ t).
Proof. reflexivity. Qed.

Lemma append_nil_r (s : string) : s +:+ EmptyString = s.
Proof.
  induction s as [|c s IH]; [reflexivity|]. now rewrite append_cons, IH.
Qed.

Lemma append_assoc (a b c : string) : (a +:+ b) +:+ c = a +:+ (b +:+ c).
Proof.
  induction a as [|x a IH]; [reflexivity|]. now rewrite !append_cons, IH.
Qed.

Lemma Split_go_without (sep : ascii) (s : string) :
  without sep s ->
  forall field, strings.Split_go sep s field = [field +:+ s].
Proof.
  unfold without. induction s as [|c s IH]; simpl; intros H field.
  - now rewrite append_nil_r.
  - inversion H as [|? ? Hc Hs]; subst.
    apply Ascii.eqb_neq in Hc. rewrite Hc, IH by assumption.
    now rewrite append_assoc.
Qed.

Lemma Split_go_app (sep : ascii) (a b : string) :
  without sep a ->
  forall field,
    strings.Split_go sep (a +:+ String sep b) field
    = (field +:+ a) :: strings.Split_go sep b EmptyString.
Proof.
  unfold without. induction a as [|c a IH]; intros H field.
  - change (EmptyString +:+ String sep b) with (String sep b). simpl.
    now rewrite Ascii.eqb_refl, append_nil_r.
  - rewrite append_cons. simpl in *. inversion H as [|? ? Hc Hs]; subst.
    apply Ascii.eqb_neq in Hc. rewrite Hc, IH by assumption.
    now rewrite append_assoc.
Qed.

(** A tag of two fields is split into them. *)
Lemma Split_two_fields (verb count : string) :
  without " " verb -> without " " count ->
  strings.Split (verb +:+ " " +:+ count) " " = [verb; count].
Proof.
  intros Hv Hc. unfold strings.Split.
  change (" " +:+ count) with (String " " count).
  rewrite (Split_go_app " " verb count Hv).
  now rewrite (Split_go_without " " count Hc).
Qed.

Lemma is_digit_cases (d : Z) :
  is_digit d ->
  d = 0 \/ d = 1 \/ d = 2 \/ d = 3 \/ d = 4 \/ d = 5 \/ d = 6 \/ d = 7 \/ d = 8 \/ d = 9.
Proof. unfold is_digit. lia. Qed.

Ltac digit_cases H :=
  apply is_digit_cases in H;
  destruct H as [->|[->|[->|[->|[->|[->|[->|[->|[->| ->]]]]]]]]].

Lemma numeral_without_space (ds : list Z) :
  Forall is_digit ds -> without " " (numeral ds).
Proof.
  unfold without, numeral. rewrite list_ascii_of_string_of_list_ascii.
  induction 1 as [|d ds Hd _ IH]; simpl; constructor; auto.
  digit_cases Hd; discriminate.
Qed.

Lemma numeral_nul_free (ds : list Z) :
  Forall is_digit ds -> nul_free (numeral ds).
Proof.
  unfold nul_free, numeral, bytes_of.
  induction 1 as [|d ds Hd _ IH]; simpl; constructor; auto.
  digit_cases Hd; discriminate.
Qed.

Lemma digits_numeral (ds : list Z) :
  Forall is_digit ds ->
  forall acc, strconv.digits (numeral ds) acc
              = Some (fold_left (fun acc d => acc * 10 + d) ds acc).
Proof.
  induction 1 as [|d ds Hd _ IH]; intros acc; [reflexivity|].
  change (numeral (d :: ds)) with (String (digit_char d) (numeral ds)).
  cbn [strconv.digits fold_left].
  replace (Z.of_nat (nat_of_ascii (digit_char d)) - 48) with d
    by (digit_cases Hd; reflexivity).
  destruct Hd as [H0 H9].
  apply Z.leb_le in H0, H9. rewrite H0, H9. apply IH.
Qed.

Lemma fold_digits_nonneg (ds : list Z) :
  Forall is_digit ds ->
  forall acc, 0 <= acc -> 0 <= fold_left (fun acc d => acc * 10 + d) ds acc.
Proof.
  induction 1 as [|d ds Hd _ IH]; intros acc Hacc; simpl; [exact Hacc|].
  apply IH. unfold is_digit in Hd. lia.
Qed.

(** [Atoi] reads a decimal numeral as its value. *)
Lemma Atoi_numeral (ds : list Z) :
  ds <> [] -> Forall is_digit ds ->
  numeral_value ds <= strconv.maxInt64 ->
  strconv.Atoi (numeral ds) = (numeral_value ds, true).
Proof.
  intros Hne Hds Hmax. destruct ds as [|d ds]; [now elim Hne|].
  pose proof (digits_numeral (d :: ds) Hds 0) as Hdig.
  pose proof (fold_digits_nonneg (d :: ds) Hds 0 ltac:(lia)) as Hpos.
  fold (numeral_value (d :: ds)) in Hdig, Hpos.
  inversion Hds as [|? ? Hd _]; subst.
  unfold strconv.Atoi.
  assert (Hsplit :
            match numeral (d :: ds) with
            | String "-"%char s' => (true, s')
            | String "+"%char s' => (false, s')
            | _ => (false, numeral (d :: ds))
            end = (false, numeral (d :: ds))).
  { change (numeral (d :: ds)) with (String (digit_char d) (numeral ds)).
    digit_cases Hd; reflexivity. }
  rewrite Hsplit.
  change (numeral (d :: ds)) with (String (digit_char d) (numeral ds)) at 1.
  cbn iota. rewrite Hdig.
  unfold strconv.minInt64, strconv.maxInt64 in *.
  destruct (Z.ltb_spec (numeral_value (d :: ds)) (-9223372036854775808)); [lia|].
  destruct (Z.ltb_spec 9223372036854775807 (numeral_value (d :: ds))); [lia|].
  reflexivity.
Qed.

Lemma until_nul_app (b rest : list byte) :
  Forall (fun c => c <> x00) b ->
  network.until_nul (b ++ x00 :: rest) = Some b.
Proof.
  induction 1 as [|c b Hc _ IH]; simpl; [reflexivity|].
  destruct (Byte.eqb c x00) eqn:He; [apply Byte.byte_dec_bl in He; now elim Hc|].
  now rewrite IH.
Qed.

(** The cursor reads back a NUL-terminated string. *)
Lemma string_remaining (v : PgMessage) (s : string) (rest : list byte) :
  nul_free s ->
  remaining v = bytes_of s ++ x00 :: rest ->
  (network.Position v <= length (network.Content v))%nat ->
  network.string v = Some (s, network.advance v (S (length (bytes_of s)))) /\
  remaining (network.advance v (S (length (bytes_of s)))) = rest /\
  (network.Position (network.advance v (S (length (bytes_of s))))
   <= length (network.Content (network.advance v (S (length (bytes_of s))))))%nat.
Proof.
  intros Hs Hrem Hpos. unfold network.string. fold (remaining v).
  rewrite Hrem, (until_nul_app _ _ Hs). cbn [mbind option_bind].
  unfold bytes_of at 1. rewrite string_of_list_byte_of_string.
  split; [reflexivity|]. split.
  - rewrite remaining_advance, Hrem.
    change (bytes_of s ++ x00 :: rest) with (bytes_of s ++ [x00] ++ rest).
    rewrite app_assoc, skipn_app.
    replace (S (length (bytes_of s))) with (length (bytes_of s ++ [x00]))
      by (rewrite length_app; simpl; lia).
    now rewrite skipn_all, Nat.sub_diag.
  - simpl.
    assert (H : length (remaining v) = (length (bytes_of s) + S (length rest))%nat)
      by (rewrite Hrem, length_app; reflexivity).
    unfold remaining in H. rewrite length_skipn in H. lia.
Qed.

Lemma nul_free_app (a b : string) :
  nul_free a -> nul_free b -> nul_free (a +:+ b).
Proof.
  unfold nul_free. rewrite bytes_of_append. intros Ha Hb.
  apply Forall_app. now split.
Qed.

Lemma ParseExec_case_other (v : PgMessage) st :
  is_id network.IdentifiesErrorResponse v = false ->
  is_id network.IdentifiesCommandComplete v = false ->
  is_id network.IdentifiesReadyForQuery v = false ->
  network.ParseExec_case st v = Some st.
Proof.
  unfold is_id. intros HE HC HZ. destruct st as [[n err] pi].
  unfold network.ParseExec_case. now rewrite HE, HC, HZ.
Qed.

Lemma ParseExec_case_ReadyForQuery (rfq : PgMessage) (status : byte) n err pi :
  framed rfq -> is_id network.IdentifiesReadyForQuery rfq = true ->
  payload_byte rfq = Some status ->
  network.ParseExec_case (n, err, pi) rfq
  = Some (n, err, network.set_txStatus pi status).
Proof.
  intros Hfz Hz Hb. unfold network.ParseExec_case.
  rewrite (ReadyForQuery_ready pi rfq status Hfz Hb).
  now rewrite (is_id_eq _ _ Hz).
Qed.

Lemma string_command_complete (tag : string) :
  nul_free tag ->
  exists v', network.string (command_complete tag) = Some (tag, v').
Proof.
  intros Ht.
  destruct (string_remaining (command_complete tag) tag [] Ht eq_refl) as (Hs & _).
  - simpl. lia.
  - eauto.
Qed.

(** [ParseExec] on the answer to a command that reports its rows in a
    tag of two fields. *)
Lemma ParseExec_counted {Value : Type} (value2bytes : Value -> list byte)
      (name : string) (args : list (option Value)) (pi : PgIO)
      (bc rfq : PgMessage) (verb : string) (ds : list Z)
      (status : byte) (rest : list byte) :
  write_ok (network.conn pi) = true ->
  framed bc -> is_id network.IdentifiesBindComplete bc = true ->
  without " " verb -> nul_free verb ->
  ds <> [] -> Forall is_digit ds -> numeral_value ds <= strconv.maxInt64 ->
  framed (command_complete (verb +:+ " " +:+ numeral ds)) ->
  framed rfq -> is_id network.IdentifiesReadyForQuery rfq = true ->
  payload_byte rfq = Some status ->
  network.inbound (network.conn pi)
  = wire bc ++ wire (command_complete (verb +:+ " " +:+ numeral ds))
      ++ wire rfq ++ rest ->
  network.ParseExec value2bytes name args pi
  = Some (numeral_value ds, None,
          after_exchange pi (bind_batch value2bytes name args)
            [bc; command_complete (verb +:+ " " +:+ numeral ds); rfq] rest status).
Proof.
  intros Hw Hfb Hbc Hverb Hvn Hne Hds Hmax Hfc Hfz Hz Hb Hin.
  set (tag := verb +:+ " " +:+ numeral ds) in *.
  assert (Htag : nul_free tag).
  { apply nul_free_app; [exact Hvn|].
    change (" " +:+ numeral ds) with (String " " (numeral ds)).
    unfold nul_free. simpl. constructor; [discriminate|].
    now apply numeral_nul_free. }
  destruct (string_command_complete tag Htag) as [v' Hstr].
  destruct (exchange_drained pi (bind_batch value2bytes name args)
              [bc; command_complete tag] rfq rest Hw)
    as (pi1 & Hs & Hpi1 & Hr).
  - rewrite Hin. cbn [concat map]. now rewrite app_nil_r, <- !app_assoc.
  - repeat (apply List.Forall_cons; [assumption|]). apply List.Forall_nil.
  - exact Hfz.
  - apply List.Forall_cons; [now apply (is_id_other _ _ _ Hbc)|].
    apply List.Forall_cons; [reflexivity|apply List.Forall_nil].
  - exact Hz.
  - unfold network.ParseExec. unfold bind_batch in Hs. rewrite Hs, Hr. simpl app.
    rewrite range_cons, (ParseExec_case_other bc)
      by (now apply (is_id_other _ _ _ Hbc)).
    cbn [mbind option_bind].
    rewrite range_cons,
      (CommandComplete_count (command_complete tag) v' tag 0 None _ eq_refl Hstr).
    cbn [mbind option_bind].
    unfold tag at 1.
    rewrite (Split_two_fields verb (numeral ds) Hverb (numeral_without_space ds Hds)).
    rewrite (Atoi_numeral ds Hne Hds Hmax). cbn [fst].
    rewrite range_cons, (ParseExec_case_ReadyForQuery rfq status) by assumption.
    cbn [mbind option_bind network.range].
    unfold after_exchange. now rewrite Hpi1.
Qed.

(** X7.  [PgStmt.Exec] on a session without error flag, when the server
    answers BindComplete, a CommandComplete whose tag is a verb, a
    space and a decimal numeral (as for UPDATE, DELETE and SELECT), and
    ReadyForQuery: the result is the value of the numeral, with a nil
    error. *)
Theorem Exec_count {Value : Type} (value2bytes : Value -> list byte)
        (s : driver.PgStmt) (args : list (option Value)) (conn : driver.PgConn)
        (bc rfq : PgMessage) (verb : string) (ds : list Z)
        (status : byte) (rest : list byte) :
  network.IOError (driver.io conn) = None ->
  write_ok (network.conn (driver.io conn)) = true ->
  framed bc -> is_id network.IdentifiesBindComplete bc = true ->
  without " " verb -> nul_free verb ->
  ds <> [] -> Forall is_digit ds -> numeral_value ds <= strconv.maxInt64 ->
  framed (command_complete (verb +:+ " " +:+ numeral ds)) ->
  framed rfq -> is_id network.IdentifiesReadyForQuery rfq = true ->
  payload_byte rfq = Some status ->
  network.inbound (network.conn (driver.io conn))
  = wire bc ++ wire (command_complete (verb +:+ " " +:+ numeral ds))
      ++ wire rfq ++ rest ->
  driver.Exec value2bytes s args conn
  = Some (Some (numeral_value ds), None,
          driver.set_io conn
            (after_exchange (driver.io conn)
               (bind_batch value2bytes (driver.Identifies s) args)
               [bc; command_complete (verb +:+ " " +:+ numeral ds); rfq]
               rest status)).
Proof.
  intros Hflag Hw Hfb Hbc Hverb Hvn Hne Hds Hmax Hfc Hfz Hz Hb Hin.
  unfold driver.Exec. rewrite Hflag. simpl.
  now rewrite (ParseExec_counted value2bytes (driver.Identifies s) args (driver.io conn)
                 bc rfq verb ds status rest).
Qed.

Lemma Exec_count_witness :
  exists conn',
    driver.Exec text_value example_stmt example_args (example_conn delete_session)
    = Some (Some 120, None, conn') /\
    network.inbound (network.conn (driver.io conn')) = [].
Proof.
  eexists. split.
  - apply (Exec_count text_value example_stmt example_args (example_conn delete_session)
             bind_complete (ready_for_query "I") "DELETE" [1; 2; 0] "I"%byte []).
    + reflexivity.
    + reflexivity.
    + apply framed_backend_msg. simpl. lia.
    + reflexivity.
    + repeat (apply List.Forall_cons; [discriminate|]). apply List.Forall_nil.
    + repeat (apply List.Forall_cons; [discriminate|]). apply List.Forall_nil.
    + discriminate.
    + repeat (apply List.Forall_cons; [unfold is_digit; lia|]). apply List.Forall_nil.
    + vm_compute. intros H; discriminate H.
    + apply framed_backend_msg. simpl. lia.
    + apply framed_backend_msg. simpl. lia.
    + reflexivity.
    + reflexivity.
    + reflexivity.
  - reflexivity.
Defined.

(** * Writes *)

Lemma call_outcome_written (pi pi' : PgIO) (out : list PgMessage) (err : option error) :
  call_outcome pi out err pi' ->
  network.written (network.conn pi')
  = network.written (network.conn pi) ++ [concat (map network.encode out)].
Proof.
  intros [e pi1 Hs|e ms pi1 pi2 Hs Hr|init rfq b pi1 pi2 Hs Hr Hinit Hz Hb];
    apply send_inv in Hs as (wf & -> & _ & _); try reflexivity;
    apply receivePgMsg_inv in Hr as (inb & ioe & -> & _); reflexivity.
Qed.

(** X8.  Every query operation of the engine that returns has made
    exactly one [Write], whatever the outcome: the buffer holds the
    frames of its whole batch, one after the other, and nothing else is
    added to the write log. *)
Theorem one_write_per_call {Value : Type} (value2bytes : Value -> list byte)
        (pi : PgIO) :
  (forall query cols fieldLen data err pi',
      network.QueryNoArgs query pi = Some (cols, fieldLen, data, err, pi') ->
      network.written (network.conn pi')
      = network.written (network.conn pi)
          ++ [concat (map network.encode (query_batch query))]) /\
  (forall name query cols parameters err pi',
      network.Parse name query pi = Some (cols, parameters, err, pi') ->
      network.written (network.conn pi')
      = network.written (network.conn pi)
          ++ [concat (map network.encode (parse_batch name query))]) /\
  (forall name args n err pi',
      network.ParseExec value2bytes name args pi = Some (n, err, pi') ->
      network.written (network.conn pi')
      = network.written (network.conn pi)
          ++ [concat (map network.encode (bind_batch value2bytes name args))]) /\
  (forall name args fieldLen data err pi',
      network.ParseQuery value2bytes name args pi = Some (fieldLen, data, err, pi') ->
      network.written (network.conn pi')
      = network.written (network.conn pi)
          ++ [concat (map network.encode (bind_batch value2bytes name args))]) /\
  (forall name err pi',
      network.CloseParse name pi = Some (err, pi') ->
      network.written (network.conn pi')
      = network.written (network.conn pi)
          ++ [concat (map network.encode (close_batch name))]).
Proof.
  repeat split.
  - intros query cols fieldLen data err pi' H.
    eapply call_outcome_written, QueryNoArgs_outcome, H.
  - intros name query cols parameters err pi' H.
    eapply call_outcome_written, Parse_outcome, H.
  - intros name args n err pi' H.
    eapply call_outcome_written, ParseExec_outcome, H.
  - intros name args fieldLen data err pi' H.
    eapply call_outcome_written, ParseQuery_outcome, H.
  - intros name err pi' H.
    eapply call_outcome_written, CloseParse_outcome, H.
Qed.

Lemma send_fails (pi : PgIO) :
  write_ok (network.conn pi) = false ->
  exists e,
    socket_failure e = true /\
    forall out, exists pi1, network.send out pi = (Some e, pi1) /\ unread pi pi1 e.
Proof.
  unfold write_ok, network.send, network.conn_Write, unread.
  destruct (network.closed (network.conn pi)); simpl.
  - intros _. exists (net_OpError 0). split; [reflexivity|].
    intros out. eexists. split; [reflexivity|]. simpl. auto.
  - destruct (network.wfaults (network.conn pi)) as [|[tag|] wf];
      intros H; try discriminate H.
    exists (net_OpError tag). split; [reflexivity|].
    intros out. eexists. split; [reflexivity|]. simpl. auto.
Qed.

(** X9.  When the write of the batch fails (the socket is closed, or
    the write itself fails), each of the five query operations returns
    the socket error with empty results and reads nothing: the stream,
    the reader's history and the transaction status are as they were,
    and the error flag holds the error. *)
Theorem failed_write_reads_nothing {Value : Type} (value2bytes : Value -> list byte)
        (pi : PgIO) :
  write_ok (network.conn pi) = false ->
  exists e,
    socket_failure e = true /\
    (forall query, exists pi',
        network.QueryNoArgs query pi = Some ([], None, None, Some e, pi') /\
        unread pi pi' e) /\
    (forall name query, exists pi',
        network.Parse name query pi = Some ([], [], Some e, pi') /\
        unread pi pi' e) /\
    (forall name args, exists pi',
        network.ParseExec value2bytes name args pi = Some (0, Some e, pi') /\
        unread pi pi' e) /\
    (forall name args, exists pi',
        network.ParseQuery value2bytes name args pi = Some (None, None, Some e, pi') /\
        unread pi pi' e) /\
    (forall name, exists pi',
        network.CloseParse name pi = Some (Some e, pi') /\
        unread pi pi' e).
Proof.
  intros Hw. destruct (send_fails pi Hw) as (e & He & Hsend).
  exists e. split; [exact He|]. repeat split.
  - intros query. unfold network.QueryNoArgs.
    destruct (Hsend [network.addString (network.NewPgMessage network.IdentifiesQuery) query])
      as (pi1 & -> & Hun). eauto.
  - intros name query. unfold network.Parse.
    destruct (Hsend (parse_batch name query)) as (pi1 & Hs & Hun).
    unfold parse_batch in Hs. rewrite Hs. eauto.
  - intros name args. unfold network.ParseExec.
    destruct (Hsend (bind_batch value2bytes name args)) as (pi1 & Hs & Hun).
    unfold bind_batch in Hs. rewrite Hs. eauto.
  - intros name args. unfold network.ParseQuery.
    destruct (Hsend (bind_batch value2bytes name args)) as (pi1 & Hs & Hun).
    unfold bind_batch in Hs. rewrite Hs. eauto.
  - intros name. unfold network.CloseParse.
    destruct (Hsend (close_batch name)) as (pi1 & Hs & Hun).
    unfold close_batch in Hs. rewrite Hs. eauto.
Qed.

Lemma failed_write_reads_nothing_witness :
  exists pi',
    network.QueryNoArgs "SELECT 1" faulty_session
    = Some ([], None, None, Some (net_OpError 1), pi') /\
    network.inbound (network.conn pi') = wire (ready_for_query "I") /\
    network.IOError pi' = Some (net_OpError 1).
Proof.
  destruct (failed_write_reads_nothing text_value faulty_session eq_refl)
    as (e & _ & Hq & _).
  destruct (Hq "SELECT 1") as (pi' & Hcall & Hin & _ & _ & Hflag).
  assert (He : e = net_OpError 1).
  { assert (H : network.QueryNoArgs "SELECT 1" faulty_session
                = ltac:(let r := eval vm_compute in
                          (network.QueryNoArgs "SELECT 1" faulty_session)
                        in exact r))
      by (vm_compute; reflexivity).
    rewrite Hcall in H. now injection H as -> _. }
  subst e. exists pi'. split; [exact Hcall|]. split; [exact Hin|exact Hflag].
Defined.

(** * Start-up *)

(** Decides the identifier tests on a message whose identifier is known. *)
Ltac known_id :=
  repeat match goal with
    | |- context [Byte.eqb ?a ?b] =>
        let r := eval vm_compute in (Byte.eqb a b) in
        change (Byte.eqb a b) with r
    end;
  cbn iota.

Section StartUpProperties.

Variable ssl : PgIO -> option error * PgIO.
Variable id0 : byte.
Variable L : string -> option string.

Lemma receivePgMsgOnce_wire (pi : PgIO) (m : PgMessage) (rest : list byte) :
  framed m ->
  network.inbound (network.conn pi) = wire m ++ rest ->
  network.receivePgMsgOnce pi
  = ((m, if is_id network.IdentifiesErrorResponse m
         then Some (network.ParseError m) else None),
     after_reading pi rest [m] (network.IOError pi)).
Proof.
  intros Hm Hin. unfold network.receivePgMsgOnce, is_id.
  rewrite (read_frame_wire pi m rest Hm Hin).
  now destruct (Byte.eqb (network.Identifies m) network.IdentifiesErrorResponse).
Qed.

Lemma budget_after_frame (b : nat) (pi : PgIO) (m : PgMessage) (rest : list byte) :
  network.inbound (network.conn pi) = wire m ++ rest ->
  (length (network.inbound (network.conn pi)) <= S b)%nat ->
  (length rest <= b)%nat.
Proof. intros -> H. simpl in H. rewrite length_app in H. lia. Qed.

Lemma StartUp_loop_ParameterStatus (b : nat) (pi : PgIO) (kv : string * string)
      (rest : list byte) :
  param_fits kv ->
  network.inbound (network.conn pi) = wire (parameter_status kv) ++ rest ->
  (length (network.inbound (network.conn pi)) <= b)%nat ->
  network.StartUp_loop L b pi
  = network.StartUp_loop L (length rest)
      (network.set_ServerConf L
         (after_reading pi rest [parameter_status kv] (network.IOError pi))
         (fst kv) (snd kv)).
Proof.
  intros (Hk & Hv & Hfr) Hin Hb.
  destruct b as [|b]; [rewrite Hin in Hb; simpl in Hb; lia|].
  pose proof (budget_after_frame b pi _ rest Hin Hb) as Hb'.
  cbn [network.StartUp_loop].
  rewrite (receivePgMsgOnce_wire pi _ rest Hfr Hin).
  unfold is_id. known_id.
  destruct (string_remaining (parameter_status kv) (fst kv)
              (bytes_of (snd kv) ++ [x00]) Hk eq_refl) as (Hs1 & Hr1 & Hp1);
    [simpl; lia|].
  rewrite Hs1. cbn [mbind option_bind].
  destruct (string_remaining _ (snd kv) [] Hv Hr1 Hp1) as (Hs2 & _).
  rewrite Hs2. cbn [mbind option_bind].
  apply StartUp_loop_budget; simpl; lia.
Qed.

Lemma StartUp_loop_parameters (kvs : list (string * string)) :
  Forall param_fits kvs ->
  forall (b : nat) (pi : PgIO) (raw : list byte) (new : list PgMessage)
         (done : list (string * string)) (inb tail : list byte),
    inb = concat (map wire (map parameter_status kvs)) ++ tail ->
    (length inb <= b)%nat ->
    network.StartUp_loop L b (during_startup L pi raw new done inb)
    = network.StartUp_loop L (length tail)
        (during_startup L pi raw (new ++ map parameter_status kvs) (done ++ kvs) tail).
Proof.
  induction 1 as [|kv kvs Hkv _ IH]; intros b pi raw new done inb tail -> Hb.
  - simpl in *. rewrite !app_nil_r. apply StartUp_loop_budget; simpl; lia.
  - simpl in Hb. rewrite <- app_assoc in Hb.
    rewrite (StartUp_loop_ParameterStatus b _ kv
               (concat (map wire (map parameter_status kvs)) ++ tail) Hkv);
      [|simpl; now rewrite <- app_assoc|simpl; now rewrite <- app_assoc].
    replace (network.set_ServerConf L _ (fst kv) (snd kv))
      with (during_startup L pi raw (new ++ [parameter_status kv]) (done ++ [kv])
              (concat (map wire (map parameter_status kvs)) ++ tail)).
    + rewrite (IH _ pi raw _ _ _ tail eq_refl (Nat.le_refl _)).
      simpl. now rewrite <- !app_assoc.
    + unfold during_startup, network.set_ServerConf, after_reading,
        server_conf_after, location_after. simpl.
      rewrite !fold_left_app. simpl. now rewrite <- app_assoc.
Qed.

Lemma StartUp_loop_Authentication_ok (b : nat) (pi : PgIO) (more rest : list byte) :
  framed (authentication 0 more) ->
  network.inbound (network.conn pi) = wire (authentication 0 more) ++ rest ->
  (length (network.inbound (network.conn pi)) <= b)%nat ->
  network.StartUp_loop L b pi
  = network.StartUp_loop L (length rest)
      (after_reading pi rest [authentication 0 more] (network.IOError pi)).
Proof.
  intros Hfr Hin Hb.
  destruct b as [|b]; [rewrite Hin in Hb; simpl in Hb; lia|].
  pose proof (budget_after_frame b pi _ rest Hin Hb) as Hb'.
  cbn [network.StartUp_loop].
  rewrite (receivePgMsgOnce_wire pi _ rest Hfr Hin).
  unfold is_id. known_id.
  change (network.auth (authentication 0 more)
            (after_reading pi rest [authentication 0 more] (network.IOError pi)))
    with (Some (@None error,
                after_reading pi rest [authentication 0 more] (network.IOError pi))).
  cbn [mbind option_bind].
  apply StartUp_loop_budget; simpl; lia.
Qed.

Lemma StartUp_loop_passed_over (b : nat) (pi : PgIO) (m : PgMessage) (rest : list byte) :
  framed m -> passed_over m ->
  network.inbound (network.conn pi) = wire m ++ rest ->
  (length (network.inbound (network.conn pi)) <= b)%nat ->
  network.StartUp_loop L b pi
  = network.StartUp_loop L (length rest)
      (after_reading pi rest [m] (network.IOError pi)).
Proof.
  intros Hfr (HE & HR & HS & HK & HZ) Hin Hb.
  destruct b as [|b]; [rewrite Hin in Hb; simpl in Hb; lia|].
  pose proof (budget_after_frame b pi _ rest Hin Hb) as Hb'.
  cbn [network.StartUp_loop].
  rewrite (receivePgMsgOnce_wire pi _ rest Hfr Hin), HE.
  unfold is_id in *. rewrite HR, HS, HK, HZ.
  apply StartUp_loop_budget; simpl; lia.
Qed.

Lemma StartUp_loop_BackendKeyData (b : nat) (pi : PgIO) (pid key rest : list byte) :
  length pid = 4%nat -> length key = 4%nat ->
  network.inbound (network.conn pi) = wire (backend_key_data pid key) ++ rest ->
  (length (network.inbound (network.conn pi)) <= b)%nat ->
  network.StartUp_loop L b pi
  = network.StartUp_loop L (length rest)
      (network.set_BackendKeyData
         (after_reading pi rest [backend_key_data pid key] (network.IOError pi))
         (BigEndian.Uint32 pid) (BigEndian.Uint32 key)).
Proof.
  intros Hp Hk Hin Hb.
  assert (Hfr : framed (backend_key_data pid key)).
  { apply framed_backend_msg. rewrite length_app, Hp, Hk. simpl. lia. }
  destruct b as [|b]; [rewrite Hin in Hb; simpl in Hb; lia|].
  pose proof (budget_after_frame b pi _ rest Hin Hb) as Hb'.
  cbn [network.StartUp_loop].
  rewrite (receivePgMsgOnce_wire pi _ rest Hfr Hin).
  unfold is_id. known_id.
  destruct (int32_remaining (backend_key_data pid key) pid key Hp eq_refl)
    as (Hi1 & Hr1 & Hp1); [simpl; lia|].
  rewrite Hi1. cbn [mbind option_bind].
  destruct (int32_remaining _ key [] Hk ltac:(now rewrite Hr1, app_nil_r) Hp1)
    as (Hi2 & _).
  rewrite Hi2. cbn [mbind option_bind].
  apply StartUp_loop_budget; simpl; lia.
Qed.

Lemma StartUp_loop_ReadyForQuery (b : nat) (pi : PgIO) (rfq : PgMessage)
      (status : byte) (rest : list byte) :
  framed rfq -> is_id network.IdentifiesReadyForQuery rfq = true ->
  payload_byte rfq = Some status ->
  network.inbound (network.conn pi) = wire rfq ++ rest ->
  network.StartUp_loop L b pi
  = Some (None, network.set_txStatus
                  (after_reading pi rest [rfq] (network.IOError pi)) status).
Proof.
  intros Hfr Hz Hb Hin.
  destruct b as [|b]; cbn [network.StartUp_loop];
    rewrite (receivePgMsgOnce_wire pi _ rest Hfr Hin);
    unfold is_id; rewrite (is_id_eq _ _ Hz); known_id;
    now rewrite (payload_byte_read rfq status (proj1 Hfr) Hb).
Qed.

Lemma StartUp_loop_ErrorResponse (b : nat) (pi : PgIO) (e : PgMessage) (rest : list byte) :
  framed e -> is_id network.IdentifiesErrorResponse e = true ->
  network.inbound (network.conn pi) = wire e ++ rest ->
  network.StartUp_loop L b pi
  = Some (Some (network.ParseError e),
          after_reading pi rest [e] (network.IOError pi)).
Proof.
  intros Hfr He Hin.
  destruct b as [|b]; cbn [network.StartUp_loop];
    now rewrite (receivePgMsgOnce_wire pi _ rest Hfr Hin), He.
Qed.

Lemma StartUp_loop_notices (notices : list PgMessage) :
  Forall framed notices -> Forall passed_over notices ->
  forall (b : nat) (pi : PgIO) (tail : list byte),
    network.inbound (network.conn pi) = concat (map wire notices) ++ tail ->
    (length (network.inbound (network.conn pi)) <= b)%nat ->
    network.StartUp_loop L b pi
    = network.StartUp_loop L (length tail)
        (after_reading pi tail notices (network.IOError pi)).
Proof.
  intros Hfr. induction Hfr as [|m notices Hm _ IH]; intros Hpo b pi tail Hin Hb.
  - simpl in Hin. rewrite <- Hin, after_reading_id.
    apply StartUp_loop_budget; lia.
  - inversion Hpo as [|? ? Hpm Hpo']; subst.
    cbn [map concat] in Hin. rewrite <- app_assoc in Hin.
    rewrite (StartUp_loop_passed_over b pi m _ Hm Hpm Hin Hb).
    rewrite (IH Hpo' (length (concat (map wire notices) ++ tail))
                (after_reading pi (concat (map wire notices) ++ tail) [m]
                               (network.IOError pi))
                tail eq_refl (Nat.le_refl _)).
    now rewrite after_reading_again.
Qed.

Lemma ssl_skipped_test (pi : PgIO) :
  ssl_skipped pi ->
  negb (String.eqb (network.SSLMode (network.dsn pi)) "disable")
  && negb (String.eqb (network.SSLMode (network.dsn pi)) "allow") = false.
Proof. intros [H|H]; rewrite H; reflexivity. Qed.

Lemma conn_Write_ok (raw : list byte) (c : Conn) :
  write_ok c = true ->
  network.conn_Write raw c
  = (None, network.mkConn (network.inbound c) (network.received c)
             (network.written c ++ [raw]) (tl (network.wfaults c)) (network.closed c)).
Proof.
  unfold write_ok, network.conn_Write.
  destruct (network.closed c); [intros H; discriminate H|].
  destruct (network.wfaults c) as [|[t|] l]; simpl; intros H;
    [reflexivity|discriminate H|reflexivity].
Qed.

Lemma startup_parameters_content (params : list (string * string)) :
  forall bs,
    network.Content
      (fold_left (fun bs kv => network.addString (network.addString bs (fst kv)) (snd kv))
                 params bs)
    = network.Content bs ++ startup_parameters params.
Proof.
  unfold startup_parameters.
  induction params as [|kv params IH]; intros bs; simpl.
  - now rewrite app_nil_r.
  - rewrite IH. cbn [network.addString network.addBytes network.Content map concat fst snd].
    rewrite <- !app_assoc. do 2 f_equal. simpl. now rewrite <- app_assoc.
Qed.

(** The start-up message as it is written. *)
Lemma startup_message_wire (pi : PgIO) :
  network.encode_content (network.startup_message id0 pi)
  = startup_frame (map_to_list (network.DsnParameter (network.dsn pi))).
Proof.
  unfold network.encode_content, network.body, network.startup_message, startup_frame.
  cbn [network.addByte network.addBytes network.Content].
  rewrite startup_parameters_content.
  cbn [network.addInt32 network.addBytes network.NewPgMessage network.Content].
  rewrite <- !app_assoc.
  change (skipn 4 ([x00; x00; x00; x00] ++ ?l)) with l.
  f_equal. f_equal. rewrite !length_app. simpl length. lia.
Qed.

Lemma after_reading_during_startup (pi : PgIO) (raw : list byte)
      (new new' : list PgMessage) (kvs : list (string * string)) (inb inb' : list byte) :
  after_reading (during_startup L pi raw new kvs inb) inb' new'
                (network.IOError (during_startup L pi raw new kvs inb))
  = during_startup L pi raw (new ++ new') kvs inb'.
Proof. unfold after_reading, during_startup. simpl. now rewrite app_assoc. Qed.

(** The start-up on the answer of a server that asks for no password. *)
Lemma StartUp_accepted (pi : PgIO) (notices : list PgMessage)
      (kvs : list (string * string)) (pid key : list byte) (rfq : PgMessage)
      (status : byte) (rest : list byte) :
  ssl_skipped pi ->
  write_ok (network.conn pi) = true ->
  Forall framed notices -> Forall passed_over notices ->
  Forall param_fits kvs ->
  length pid = 4%nat -> length key = 4%nat ->
  framed rfq -> is_id network.IdentifiesReadyForQuery rfq = true ->
  payload_byte rfq = Some status ->
  network.inbound (network.conn pi)
  = wire (authentication 0 []) ++ concat (map wire notices)
      ++ concat (map wire (map parameter_status kvs))
      ++ wire (backend_key_data pid key) ++ wire rfq ++ rest ->
  network.StartUp ssl id0 L pi
  = Some (None,
          network.set_txStatus
            (network.set_BackendKeyData
               (during_startup L pi
                  (startup_frame (map_to_list (network.DsnParameter (network.dsn pi))))
                  ([authentication 0 []] ++ notices ++ map parameter_status kvs
                     ++ [backend_key_data pid key] ++ [rfq])
                  kvs rest)
               (BigEndian.Uint32 pid) (BigEndian.Uint32 key))
            status).
Proof.
  intros Hssl Hw Hfn Hpn Hkvs Hp Hk Hfz Hz Hb Hin.
  unfold network.StartUp. rewrite (ssl_skipped_test pi Hssl).
  rewrite (conn_Write_ok _ _ Hw), startup_message_wire.
  set (raw := startup_frame _).
  cbn [network.inbound].
  replace (network.set_conn pi _)
    with (during_startup L pi raw [] [] (network.inbound (network.conn pi)))
    by (unfold during_startup, network.set_conn; simpl; now rewrite app_nil_r).
  rewrite Hin.
  erewrite (StartUp_loop_Authentication_ok _ _ []);
    [|apply framed_backend_msg; simpl; lia|reflexivity|apply Nat.le_refl].
  rewrite after_reading_during_startup.
  erewrite (StartUp_loop_notices notices Hfn Hpn);
    [|reflexivity|apply Nat.le_refl].
  rewrite after_reading_during_startup.
  erewrite (StartUp_loop_parameters kvs Hkvs);
    [|reflexivity|apply Nat.le_refl].
  erewrite (StartUp_loop_BackendKeyData _ _ pid key);
    [|exact Hp|exact Hk|reflexivity|apply Nat.le_refl].
  rewrite after_reading_during_startup.
  erewrite (StartUp_loop_ReadyForQuery _ _ rfq status);
    [|exact Hfz|exact Hz|exact Hb|reflexivity].
  unfold network.set_BackendKeyData, network.set_txStatus, after_reading, during_startup.
  simpl. do 4 f_equal. repeat (rewrite <- app_assoc; simpl). reflexivity.
Qed.


(** X11.  A server that refuses the start-up: the ErrorResponse is
    returned as the error as soon as it is read.  Unlike the query
    operations, the start-up does not read on to a ReadyForQuery: what
    follows the ErrorResponse stays on the stream; messages of other
    kinds before it are passed over, and the error flag is not touched. *)
Theorem StartUp_ErrorResponse (pi : PgIO) (notices : list PgMessage) (e : PgMessage)
        (rest : list byte) :
  ssl_skipped pi ->
  write_ok (network.conn pi) = true ->
  Forall framed notices -> Forall passed_over notices ->
  framed e -> is_id network.IdentifiesErrorResponse e = true ->
  network.inbound (network.conn pi) = concat (map wire notices) ++ wire e ++ rest ->
  exists pi',
    network.StartUp ssl id0 L pi = Some (Some (network.ParseError e), pi') /\
    network.inbound (network.conn pi') = rest /\
    network.received (network.conn pi')
    = network.received (network.conn pi) ++ notices ++ [e] /\
    network.IOError pi' = network.IOError pi /\
    network.txStatus pi' = network.txStatus pi.
Proof.
  intros Hssl Hw Hfn Hpn Hfe He Hin.
  unfold network.StartUp. rewrite (ssl_skipped_test pi Hssl).
  rewrite (conn_Write_ok _ _ Hw).
  cbn [network.inbound]. rewrite Hin.
  erewrite (StartUp_loop_notices notices Hfn Hpn);
    [|reflexivity|apply Nat.le_refl].
  erewrite (StartUp_loop_ErrorResponse _ _ e); [|exact Hfe|exact He|reflexivity].
  eexists. split; [reflexivity|]. simpl.
  repeat split. now rewrite <- app_assoc.
Qed.

Lemma auth_nil_received (msg : PgMessage) (pi pi' : PgIO) :
  network.auth msg pi = Some (None, pi') ->
  exists new,
    network.received (network.conn pi') = network.received (network.conn pi) ++ new.
Proof.
  unfold network.auth.
  destruct (network.int32 msg) as [[code msg1]|]; simpl; [|intros H; discriminate H].
  assert (Hpw : forall reqPwd,
             network.password_exchange reqPwd pi = Some (None, pi') ->
             exists new,
               network.received (network.conn pi')
               = network.received (network.conn pi) ++ new).
  { intros reqPwd H. apply password_exchange_inv in H as [_ H].
    destruct (H eq_refl) as (ms & a & a' & Hrcv & _). eauto. }
  destruct (code =? 0).
  { intros H; injection H as <-. exists []. now rewrite app_nil_r. }
  destruct (code =? 3); [apply Hpw|].
  destruct (code =? 5).
  - destruct (network.bytes msg1 4) as [[salt msg2]|]; simpl;
      [apply Hpw|intros H; discriminate H].
  - intros H; injection H as <-. exists []. now rewrite app_nil_r.
Qed.

(** One round of the start-up loop that does not end in an error:
    it ends the loop at a ReadyForQuery, or it goes on. *)
Lemma StartUp_loop_round (b : nat) (pi pi' : PgIO) :
  network.StartUp_loop L b pi = Some (None, pi') ->
  exists msg new,
    (network.received (network.conn pi')
     = network.received (network.conn pi) ++ [msg] /\
     is_id network.IdentifiesReadyForQuery msg = true /\
     payload_byte msg = Some (network.txStatus pi')) \/
    (exists b' pi1,
        b = S b' /\
        network.received (network.conn pi1)
        = network.received (network.conn pi) ++ msg :: new /\
        network.StartUp_loop L b' pi1 = Some (None, pi')).
Proof.
  assert (Hgo : forall (msg : PgMessage) (new : list PgMessage) (pi1 : PgIO),
             network.received (network.conn pi1)
             = network.received (network.conn pi) ++ msg :: new ->
             match b with
             | O => Some (Some io_EOF, pi1)
             | S b' => network.StartUp_loop L b' pi1
             end = Some (None, pi') ->
             exists msg new,
               (network.received (network.conn pi')
                = network.received (network.conn pi) ++ [msg] /\
                is_id network.IdentifiesReadyForQuery msg = true /\
                payload_byte msg = Some (network.txStatus pi')) \/
               (exists b' pi1,
                   b = S b' /\
                   network.received (network.conn pi1)
                   = network.received (network.conn pi) ++ msg :: new /\
                   network.StartUp_loop L b' pi1 = Some (None, pi'))).
  { intros msg new pi1 Hrcv H. destruct b as [|b']; [discriminate H|].
    exists msg, new. right. exists b', pi1. auto. }
  assert (Hbody :
            network.StartUp_loop L b pi
            = match network.receivePgMsgOnce pi with
              | (_, Some e, pi1) => Some (Some e, pi1)
              | (m, None, pi1) =>
                  let continue (pi' : PgIO) :=
                    match b with
                    | O => Some (Some io_EOF, pi')
                    | S b' => network.StartUp_loop L b' pi'
                    end in
                  if Byte.eqb (network.Identifies m) network.IdentifiesAuth then
                    '(err, pi2) ← network.auth m pi1;
                    match err with
                    | Some e => Some (Some e, pi2)
                    | None => continue pi2
                    end
                  else if Byte.eqb (network.Identifies m)
                                   network.IdentifiesParameterStatus then
                    '(k, m1) ← network.string m;
                    '(v, _) ← network.string m1;
                    continue (network.set_ServerConf L pi1 k v)
                  else if Byte.eqb (network.Identifies m)
                                   network.IdentifiesBackendKeyData then
                    '(pid, m1) ← network.int32 m;
                    '(key, _) ← network.int32 m1;
                    continue (network.set_BackendKeyData pi1 pid key)
                  else if Byte.eqb (network.Identifies m)
                                   network.IdentifiesReadyForQuery then
                    '(b, _) ← network.byte m;
                    Some (None, network.set_txStatus pi1 b)
                  else continue pi1
              end) by (destruct b; reflexivity).
  rewrite Hbody. clear Hbody. unfold network.receivePgMsgOnce.
  destruct (network.read_frame pi) as [[msg|e] pi1] eqn:Hrf;
    [|intros H; discriminate H].
  apply read_frame_inl in Hrf as (inb & -> & _ & Hpos).
  destruct (Byte.eqb (network.Identifies msg) network.IdentifiesErrorResponse);
    [intros H; discriminate H|].
  cbv zeta.
  destruct (Byte.eqb (network.Identifies msg) network.IdentifiesAuth).
  { destruct (network.auth msg _) as [[[e|] pi2]|] eqn:Ha; simpl;
      [intros H; discriminate H| |intros H; discriminate H].
    apply auth_nil_received in Ha as [new Ha]. simpl in Ha.
    apply (Hgo msg new). rewrite Ha. now rewrite <- app_assoc. }
  destruct (Byte.eqb (network.Identifies msg) network.IdentifiesParameterStatus).
  { destruct (network.string msg) as [[k m1]|]; simpl; [|intros H; discriminate H].
    destruct (network.string m1) as [[v m2]|]; simpl; [|intros H; discriminate H].
    apply (Hgo msg []). reflexivity. }
  destruct (Byte.eqb (network.Identifies msg) network.IdentifiesBackendKeyData).
  { destruct (network.int32 msg) as [[pid m1]|]; simpl; [|intros H; discriminate H].
    destruct (network.int32 m1) as [[key m2]|]; simpl; [|intros H; discriminate H].
    apply (Hgo msg []). reflexivity. }
  destruct (Byte.eqb (network.Identifies msg) network.IdentifiesReadyForQuery) eqn:Hz.
  { destruct (network.byte msg) as [[b0 m1]|] eqn:Hb; simpl;
      [|intros H; discriminate H].
    intros H; injection H as <-. exists msg, []. left. simpl.
    split; [reflexivity|]. split; [exact Hz|]. eapply byte_payload; eauto. }
  apply (Hgo msg []). reflexivity.
Qed.

Lemma StartUp_loop_nil (b : nat) :
  forall pi pi',
    network.StartUp_loop L b pi = Some (None, pi') ->
    exists ms rfq,
      network.received (network.conn pi')
      = network.received (network.conn pi) ++ ms ++ [rfq] /\
      is_id network.IdentifiesReadyForQuery rfq = true /\
      payload_byte rfq = Some (network.txStatus pi').
Proof.
  induction b as [|b IH]; intros pi pi' H;
    apply StartUp_loop_round in H
      as (msg & new & [(Hrcv & Hz & Hb)|(b' & pi1 & Hb' & Hrcv & Hloop)]);
    try (exists [], msg; now auto); try discriminate Hb'.
  injection Hb' as <-.
  apply IH in Hloop as (ms & rfq & Hrcv' & Hz & Hb).
  exists (msg :: new ++ ms), rfq. split; [|now split].
  rewrite Hrcv', Hrcv. repeat (progress (rewrite <- ?app_assoc; cbn [app])).
  reflexivity.
Qed.

(** X12.  A start-up that returns a nil error has read a ReadyForQuery
    as its last frame, and the transaction status it leaves is the
    status byte of that frame: the call does not return nil before the
    server is ready, whatever the server sends. *)
Theorem StartUp_returns_at_ReadyForQuery (pi pi' : PgIO) :
  network.StartUp ssl id0 L pi = Some (None, pi') ->
  exists (p0 : PgIO) (ms : list PgMessage) (rfq : PgMessage),
    (p0 = pi \/ ssl pi = (None, p0)) /\
    network.received (network.conn pi')
    = network.received (network.conn p0) ++ ms ++ [rfq] /\
    last (network.received (network.conn pi')) = Some rfq /\
    is_id network.IdentifiesReadyForQuery rfq = true /\
    payload_byte rfq = Some (network.txStatus pi').
Proof.
  assert (Hstart : forall p0,
             match network.conn_Write
                     (network.encode_content (network.startup_message id0 p0))
                     (network.conn p0) with
             | (Some e, c) => Some (Some e, network.set_conn p0 c)
             | (None, c) =>
                 network.StartUp_loop L (length (network.inbound c))
                                      (network.set_conn p0 c)
             end = Some (None, pi') ->
             exists ms rfq,
               network.received (network.conn pi')
               = network.received (network.conn p0) ++ ms ++ [rfq] /\
               last (network.received (network.conn pi')) = Some rfq /\
               is_id network.IdentifiesReadyForQuery rfq = true /\
               payload_byte rfq = Some (network.txStatus pi')).
  { intros p0.
    destruct (network.conn_Write _ (network.conn p0)) as [[e|] c] eqn:Hw;
      [intros H; discriminate H|].
    intros H. apply StartUp_loop_nil in H as (ms & rfq & Hrcv & Hz & Hb).
    assert (Hc : network.received c = network.received (network.conn p0)).
    { revert Hw. unfold network.conn_Write.
      destruct (network.closed (network.conn p0)); [intros H; discriminate H|].
      destruct (network.wfaults (network.conn p0)) as [|[t|] l];
        intros H; try discriminate H; now injection H as <-. }
    simpl in Hrcv. rewrite Hc in Hrcv.
    exists ms, rfq. split; [exact Hrcv|]. split; [|now split].
    rewrite Hrcv, app_assoc. apply last_snoc. }
  unfold network.StartUp.
  destruct (negb _ && negb _).
  - destruct (ssl pi) as [[e|] p0] eqn:Hssl; [intros H; discriminate H|].
    intros H. apply Hstart in H as (ms & rfq & H).
    exists p0, ms, rfq. split; [now right|exact H].
  - intros H. apply Hstart in H as (ms & rfq & H).
    exists pi, ms, rfq. split; [now left|exact H].
Qed.

End StartUpProperties.


Lemma StartUp_ErrorResponse_witness :
  exists pi',
    network.StartUp no_ssl x00 no_location (session refusing_stream [])
    = Some (Some (network.ParseError error_response), pi') /\
    network.inbound (network.conn pi') = wire (ready_for_query "I") /\
    network.IOError pi' = None.
Proof.
  destruct (StartUp_ErrorResponse no_ssl x00 no_location (session refusing_stream [])
              [backend_msg network.IdentifiesNoticeResponse
                 (bytes_of "SWARNING" ++ [x00; x00])]
              error_response (wire (ready_for_query "I")))
    as (pi' & Hs & Hin & _ & Hflag & _).
  - now left.
  - reflexivity.
  - apply List.Forall_cons; [apply framed_backend_msg; simpl; lia|apply List.Forall_nil].
  - apply List.Forall_cons; [repeat split|apply List.Forall_nil].
  - apply framed_backend_msg. simpl. lia.
  - reflexivity.
  - reflexivity.
  - exists pi'. split; [exact Hs|]. split; [exact Hin|exact Hflag].
Defined.

Lemma StartUp_returns_at_ReadyForQuery_witness :
  exists pi' rfq,
    network.StartUp no_ssl x00 no_location (session md5_startup_stream [])
    = Some (None, pi') /\
    last (network.received (network.conn pi')) = Some rfq /\
    is_id network.IdentifiesReadyForQuery rfq = true /\
    payload_byte rfq = Some (network.txStatus pi').
Proof.
  assert (H : network.StartUp no_ssl x00 no_location (session md5_startup_stream [])
              = Some (None,
                      ltac:(let r := eval vm_compute in
                              (match network.StartUp no_ssl x00 no_location
                                       (session md5_startup_stream []) with
                               | Some (_, p) => p
                               | None => session [] []
                               end)
                            in exact r)))
    by (vm_compute; reflexivity).
  destruct (StartUp_returns_at_ReadyForQuery _ _ _ _ _ H)
    as (p0 & ms & rfq & _ & _ & Hlast & Hz & Hb).
  eexists _, rfq. split; [exact H|]. split; [exact Hlast|]. split; [exact Hz|exact Hb].
Defined.

(** * Passwords *)

Lemma password_frame_cleartext (pi : PgIO) :
  network.encode
    (network.addString (network.NewPgMessage network.IdentifiesPasswordMessage)
                       (network.Password (network.dsn pi)))
  = password_frame (bytes_of (network.Password (network.dsn pi)) ++ [x00]).
Proof. now rewrite encode_addString. Qed.

(** X13.  On an Authentication message with code 3 the handler writes
    one PasswordMessage whose body is the password of the data source
    and a NUL.  It then reads up to the next Authentication message: a
    nil error means that this message was read and carries code 0; and
    on a stream that brings such a message the handler returns, with a
    nil error if the code is 0 and with an error otherwise. *)
Theorem auth_cleartext (msg msg1 : PgMessage) (pi : PgIO) :
  network.int32 msg = Some (3, msg1) ->
  let frame :=
    password_frame (bytes_of (network.Password (network.dsn pi)) ++ [x00]) in
  (forall err pi',
      network.auth msg pi = Some (err, pi') ->
      network.written (network.conn pi')
      = network.written (network.conn pi) ++ [frame] /\
      (err = None ->
       exists ms a a',
         network.received (network.conn pi')
         = network.received (network.conn pi) ++ ms ++ [a] /\
         Forall (fun m => is_id network.IdentifiesAuth m = false) ms /\
         is_id network.IdentifiesAuth a = true /\
         network.int32 a = Some (0, a'))) /\
  (forall ms a a' code rest,
      write_ok (network.conn pi) = true ->
      network.inbound (network.conn pi) = concat (map wire ms) ++ wire a ++ rest ->
      Forall framed ms -> framed a ->
      Forall (fun m => is_id network.IdentifiesAuth m = false) ms ->
      is_id network.IdentifiesAuth a = true ->
      network.int32 a = Some (code, a') ->
      network.auth msg pi
      = Some (if code =? 0 then None
              else Some (ErrAuthResponse network.IdentifiesAuth),
              after_reading
                (after_writing pi frame (tl (network.wfaults (network.conn pi))) None)
                rest (ms ++ [a]) None)).
Proof.
  intros Hcode frame.
  assert (Hauth :
            network.auth msg pi
            = network.password_exchange
                (network.addString
                   (network.NewPgMessage network.IdentifiesPasswordMessage)
                   (network.Password (network.dsn pi))) pi).
  { unfold network.auth. now rewrite Hcode. }
  split.
  - intros err pi' H. rewrite Hauth in H.
    apply password_exchange_inv in H. now rewrite password_frame_cleartext in H.
  - intros ms a a' code rest Hw Hin Hfr Hfa Hms Ha Hc.
    rewrite Hauth. unfold frame. rewrite <- password_frame_cleartext.
    now apply password_exchange_wire with (a' := a').
Qed.

Lemma auth_cleartext_witness :
  network.int32 (authentication 3 []) = Some (3, network.advance (authentication 3 []) 4) /\
  exists pi',
    network.auth (authentication 3 []) md5_session = Some (None, pi') /\
    network.written (network.conn pi')
    = [password_frame (bytes_of "secret" ++ [x00])] /\
    network.inbound (network.conn pi') = [].
Proof.
  assert (Hcode : network.int32 (authentication 3 [])
                  = Some (3, network.advance (authentication 3 []) 4))
    by reflexivity.
  split; [exact Hcode|].
  eexists. split.
  - refine (proj2 (auth_cleartext (authentication 3 []) _ md5_session Hcode)
              [] (authentication 0 []) (network.advance (authentication 0 []) 4)
              0 [] eq_refl eq_refl (List.Forall_nil _) _ (List.Forall_nil _) eq_refl eq_refl).
    apply framed_backend_msg. simpl. lia.
  - split; reflexivity.
Defined.

(** A password exchange whose answer never brings an Authentication
    message before the stream ends. *)
Lemma password_exchange_unanswered (reqPwd : PgMessage) (pi : PgIO)
      (ms : list PgMessage) :
  write_ok (network.conn pi) = true ->
  network.inbound (network.conn pi) = concat (map wire ms) ->
  Forall framed ms ->
  Forall (fun m => is_id network.IdentifiesAuth m = false) ms ->
  exists pi',
    network.password_exchange reqPwd pi = Some (Some io_EOF, pi') /\
    network.IOError pi' = Some io_EOF /\
    network.received (network.conn pi') = network.received (network.conn pi) ++ ms /\
    network.written (network.conn pi')
    = network.written (network.conn pi) ++ [network.encode reqPwd].
Proof.
  intros Hw Hin Hfr Hms. unfold network.password_exchange.
  destruct (network.send [reqPwd] pi) as [e pi1] eqn:Hs.
  pose proof Hs as Hs'. apply send_inv in Hs' as (wf & -> & Hok & _).
  apply Hok in Hw as ->. unfold network.receivePgMsg.
  destruct (receive_loop_cut network.IdentifiesAuth (ready_for_query "I") []
              (wire (ready_for_query "I"))
              ltac:(apply framed_backend_msg; simpl; lia) eq_refl ltac:(discriminate)
              ms (length (concat (map wire ms))) []
              (after_writing pi (concat (map network.encode [reqPwd])) wf None)
              Hfr Hms)
    as (pi' & Hloop & Hrcv & Hwr & Hio).
  - simpl. now rewrite Hin, app_nil_r.
  - apply concat_wire_length.
  - simpl network.inbound. rewrite Hin, Hloop. simpl app.
    exists pi'. split; [reflexivity|]. split; [exact Hio|].
    split; [exact Hrcv|]. rewrite Hwr. simpl. now rewrite app_nil_r.
Qed.

(** X14.  A server that refuses the password answers with an
    ErrorResponse and closes the connection.  The handler, which waits
    for the next Authentication message, reads the answer and meets the
    end of the stream: it returns io.EOF, not the error of the server,
    and sets the error flag.  This holds for the clear-text and the MD5
    password, and for any answer without an Authentication message. *)
Theorem auth_refused_password (msg msg1 : PgMessage) (code : Z) (pi : PgIO)
        (ms : list PgMessage) :
  network.int32 msg = Some (code, msg1) ->
  code = 3 \/ (code = 5 /\ network.bytes msg1 4 <> None) ->
  write_ok (network.conn pi) = true ->
  network.inbound (network.conn pi) = concat (map wire ms) ->
  Forall framed ms ->
  Forall (fun m => is_id network.IdentifiesAuth m = false) ms ->
  exists pi',
    network.auth msg pi = Some (Some io_EOF, pi') /\
    network.IOError pi' = Some io_EOF /\
    network.received (network.conn pi') = network.received (network.conn pi) ++ ms /\
    length (network.written (network.conn pi'))
    = S (length (network.written (network.conn pi))).
Proof.
  intros Hcode Hkind Hw Hin Hfr Hms. unfold network.auth. rewrite Hcode. simpl.
  assert (Hgo : forall reqPwd,
             exists pi',
               network.password_exchange reqPwd pi = Some (Some io_EOF, pi') /\
               network.IOError pi' = Some io_EOF /\
               network.received (network.conn pi')
               = network.received (network.conn pi) ++ ms /\
               length (network.written (network.conn pi'))
               = S (length (network.written (network.conn pi)))).
  { intros reqPwd.
    destruct (password_exchange_unanswered reqPwd pi ms Hw Hin Hfr Hms)
      as (pi' & He & Hio & Hrcv & Hwr).
    exists pi'. repeat split; auto. rewrite Hwr, length_app. simpl. lia. }
  destruct Hkind as [->|[-> Hsalt]]; simpl.
  - apply Hgo.
  - destruct (network.bytes msg1 4) as [[salt msg2]|]; [|now elim Hsalt].
    simpl. apply Hgo.
Qed.

Lemma auth_refused_password_witness :
  exists pi',
    network.auth md5_request (session (wire error_response) [])
    = Some (Some io_EOF, pi') /\
    network.IOError pi' = Some io_EOF /\
    network.received (network.conn pi') = [error_response].
Proof.
  destruct (auth_refused_password md5_request (network.advance md5_request 4) 5
              (session (wire error_response) []) [error_response])
    as (pi' & Ha & Hio & Hrcv & _).
  - reflexivity.
  - right. split; [reflexivity|discriminate].
  - reflexivity.
  - reflexivity.
  - apply List.Forall_cons; [apply framed_backend_msg; simpl; lia|apply List.Forall_nil].
  - apply List.Forall_cons; [reflexivity|apply List.Forall_nil].
  - exists pi'. split; [exact Ha|]. split; [exact Hio|exact Hrcv].
Defined.

(** * Cancellation *)

Lemma byte_of_Z_of_byte (b : byte) : byte_of_Z (Z_of_byte b) = b.
Proof. destruct b; reflexivity. Qed.

Lemma byte_of_Z_mod (z : Z) : byte_of_Z (z mod 256) = byte_of_Z z.
Proof. unfold byte_of_Z. now rewrite Z.mod_mod by lia. Qed.

Lemma Z_of_byte_range (b : byte) : 0 <= Z_of_byte b < 256.
Proof. destruct b; vm_compute; split; congruence. Qed.

Lemma lor_shiftl_add (a b : Z) (k : Z) :
  0 <= k -> 0 <= a < 2 ^ k -> 0 <= b ->
  Z.lor a (Z.shiftl b k) = a + b * 2 ^ k.
Proof.
  intros Hk Ha Hb.
  rewrite <- Z.lxor_lor, <- Z.add_nocarry_lxor, Z.shiftl_mul_pow2; try lia.
  - apply Z.bits_inj'. intros n Hn. rewrite Z.land_spec, Z.bits_0.
    destruct (Z.lt_ge_cases n k).
    + rewrite Z.shiftl_spec_low by lia. apply andb_false_r.
    + replace a with (a mod 2 ^ k) by (apply Z.mod_small; lia).
      rewrite Z.mod_pow2_bits_high by lia. reflexivity.
  - apply Z.bits_inj'. intros n Hn. rewrite Z.land_spec, Z.bits_0.
    destruct (Z.lt_ge_cases n k).
    + rewrite Z.shiftl_spec_low by lia. apply andb_false_r.
    + replace a with (a mod 2 ^ k) by (apply Z.mod_small; lia).
      rewrite Z.mod_pow2_bits_high by lia. reflexivity.
Qed.

Lemma Uint32_sum (b0 b1 b2 b3 : byte) :
  BigEndian.Uint32 [b0; b1; b2; b3]
  = Z_of_byte b3 + Z_of_byte b2 * 256 + Z_of_byte b1 * 65536 + Z_of_byte b0 * 16777216.
Proof.
  pose proof (Z_of_byte_range b0). pose proof (Z_of_byte_range b1).
  pose proof (Z_of_byte_range b2). pose proof (Z_of_byte_range b3).
  unfold BigEndian.Uint32.
  rewrite (lor_shiftl_add (Z_of_byte b3) (Z_of_byte b2) 8)
    by (change (2 ^ 8) with 256; lia).
  change (2 ^ 8) with 256.
  rewrite (lor_shiftl_add _ (Z_of_byte b1) 16)
    by (change (2 ^ 16) with 65536; lia).
  change (2 ^ 16) with 65536.
  rewrite (lor_shiftl_add _ (Z_of_byte b0) 24)
    by (change (2 ^ 24) with 16777216; lia).
  reflexivity.
Qed.

(** Four bytes read as an integer and written again are the same bytes. *)
Lemma PutUint32_Uint32 (b : list byte) :
  length b = 4%nat -> BigEndian.PutUint32 (BigEndian.Uint32 b) = b.
Proof.
  destruct b as [|b0 [|b1 [|b2 [|b3 [|? ?]]]]]; try discriminate. intros _.
  pose proof (Z_of_byte_range b0). pose proof (Z_of_byte_range b1).
  pose proof (Z_of_byte_range b2). pose proof (Z_of_byte_range b3).
  rewrite Uint32_sum. unfold BigEndian.PutUint32.
  rewrite !Z.shiftr_div_pow2 by lia.
  change (2 ^ 24) with 16777216. change (2 ^ 16) with 65536. change (2 ^ 8) with 256.
  set (U := Z_of_byte b3 + Z_of_byte b2 * 256 + Z_of_byte b1 * 65536
            + Z_of_byte b0 * 16777216).
  assert (HB0 : byte_of_Z (U / 16777216) = b0).
  { replace (U / 16777216) with (Z_of_byte b0)
      by (subst U; Z.to_euclidean_division_equations; lia).
    apply byte_of_Z_of_byte. }
  assert (HB1 : byte_of_Z (U / 65536) = b1).
  { rewrite <- byte_of_Z_mod.
    replace ((U / 65536) mod 256) with (Z_of_byte b1)
      by (subst U; Z.to_euclidean_division_equations; lia).
    apply byte_of_Z_of_byte. }
  assert (HB2 : byte_of_Z (U / 256) = b2).
  { rewrite <- byte_of_Z_mod.
    replace ((U / 256) mod 256) with (Z_of_byte b2)
      by (subst U; Z.to_euclidean_division_equations; lia).
    apply byte_of_Z_of_byte. }
  assert (HB3 : byte_of_Z U = b3).
  { rewrite <- byte_of_Z_mod.
    replace (U mod 256) with (Z_of_byte b3)
      by (subst U; Z.to_euclidean_division_equations; lia).
    apply byte_of_Z_of_byte. }
  now rewrite HB0, HB1, HB2, HB3.
Qed.

Section Cancel.

Variable idc : byte.
Variable DialTimeout : network.DataSourceName -> Conn + error.

Lemma cancel_message_wire (pi : PgIO) :
  network.encode_content (network.cancel_message idc pi)
  = cancel_frame (BigEndian.PutUint32 (network.serverPid pi))
                 (BigEndian.PutUint32 (network.backendKey pi)).
Proof. reflexivity. Qed.

(** X15.  [CancelRequest] dials the address of the data source and
    returns the error of a failed dial without writing.  On a fresh
    socket it makes one write of 16 bytes: the length 16, the code
    80877102, the process id and the key of the session, without an
    identifier byte.  The side socket is closed when the write has
    succeeded; when the write fails the error is returned and the side
    socket is left as it was, not closed. *)
Theorem CancelRequest_spec (pi : PgIO) :
  (forall e, DialTimeout (network.dsn pi) = inr e ->
             network.CancelRequest idc DialTimeout pi = (Some e, None)) /\
  (forall c, DialTimeout (network.dsn pi) = inl c ->
             exists err c',
               network.CancelRequest idc DialTimeout pi = (err, Some c') /\
               network.written c'
               = network.written c
                   ++ [cancel_frame (BigEndian.PutUint32 (network.serverPid pi))
                                    (BigEndian.PutUint32 (network.backendKey pi))] /\
               (write_ok c = true -> err = None /\ network.closed c' = true) /\
               (write_ok c = false ->
                err <> None /\ network.closed c' = network.closed c /\
                network.inbound c' = network.inbound c)).
Proof.
  split.
  - intros e He. unfold network.CancelRequest. now rewrite He.
  - intros c Hc. unfold network.CancelRequest. rewrite Hc.
    rewrite cancel_message_wire. cbn [network.conn network.NewPgIO].
    unfold network.conn_Write, write_ok.
    destruct (network.closed c) eqn:Hcl; simpl.
    + eexists _, _. split; [reflexivity|]. simpl.
      split; [reflexivity|]. split; [intros H; discriminate H|].
      intros _. split; [discriminate|]. split; reflexivity.
    + destruct (network.wfaults c) as [|[t|] wf]; simpl;
        eexists _, _; (split; [reflexivity|]); simpl;
        (split; [reflexivity|]).
      * split; [auto|intros H; discriminate H].
      * split; [intros H; discriminate H|].
        intros _. split; [discriminate|]. split; reflexivity.
      * split; [auto|intros H; discriminate H].
Qed.

End Cancel.

(** X16.  The key data of the start-up comes back in the cancel
    request: after a start-up that has read a BackendKeyData message,
    [CancelRequest] writes to the side socket the length 16, the code
    80877102 and then the very eight bytes that the server sent as
    process id and key, and closes the side socket; the session itself
    is only read. *)
Theorem CancelRequest_echoes_BackendKeyData
        (ssl : PgIO -> option error * PgIO) (id0 idc : byte)
        (LoadLocation : string -> option string)
        (DialTimeout : network.DataSourceName -> Conn + error)
        (pi : PgIO) (kvs : list (string * string)) (pid key : list byte)
        (rfq : PgMessage) (status : byte) (rest : list byte) (c : Conn) :
  ssl_skipped pi ->
  write_ok (network.conn pi) = true ->
  Forall param_fits kvs ->
  length pid = 4%nat -> length key = 4%nat ->
  framed rfq -> is_id network.IdentifiesReadyForQuery rfq = true ->
  payload_byte rfq = Some status ->
  network.inbound (network.conn pi)
  = wire (authentication 0 [])
      ++ concat (map wire (map parameter_status kvs))
      ++ wire (backend_key_data pid key) ++ wire rfq ++ rest ->
  DialTimeout (network.dsn pi) = inl c ->
  write_ok c = true ->
  exists pi' c',
    network.StartUp ssl id0 LoadLocation pi = Some (None, pi') /\
    network.CancelRequest idc DialTimeout pi' = (None, Some c') /\
    network.written c' = network.written c ++ [cancel_frame pid key] /\
    network.closed c' = true.
Proof.
  intros Hssl Hw Hkvs Hp Hk Hfz Hz Hb Hin Hdial Hwc.
  eexists _, _. split.
  - apply (StartUp_accepted ssl id0 LoadLocation pi [] kvs pid key rfq status rest);
      auto.
  - unfold network.CancelRequest. cbn [network.dsn during_startup
                                         network.set_txStatus network.set_BackendKeyData].
    rewrite Hdial, cancel_message_wire. cbn [network.conn network.NewPgIO].
    rewrite (conn_Write_ok _ _ Hwc).
    cbn [network.serverPid network.backendKey network.set_txStatus
           network.set_BackendKeyData].
    rewrite (PutUint32_Uint32 pid Hp), (PutUint32_Uint32 key Hk).
    split; [reflexivity|]. split; reflexivity.
Qed.

Lemma CancelRequest_echoes_BackendKeyData_witness :
  exists pi' c',
    network.StartUp no_ssl x00 no_location (session trusting_stream [])
    = Some (None, pi') /\
    network.CancelRequest x00 dial_ok pi' = (None, Some c') /\
    network.written c'
    = [[x00; x00; x00; x10; x04; xd2; x16; x2e;
        x00; x00; x10; x92; xde; xad; xbe; xef]] /\
    network.closed c' = true.
Proof.
  exact (CancelRequest_echoes_BackendKeyData no_ssl x00 x00 no_location dial_ok
           (session trusting_stream [])
           [("server_version", "13.0"); ("TimeZone", "Mars/Olympus")]
           (BigEndian.PutUint32 4242) (BigEndian.PutUint32 0xDEADBEEF)
           (ready_for_query "I") "I"%byte [] fresh_socket
           (or_introl eq_refl) eq_refl
           ltac:(repeat (apply List.Forall_cons;
                         [split; [|split];
                          [repeat (apply List.Forall_cons; [discriminate|]);
                           apply List.Forall_nil
                          |repeat (apply List.Forall_cons; [discriminate|]);
                           apply List.Forall_nil
                          |apply framed_backend_msg; simpl; lia]|]);
                 apply List.Forall_nil)
           eq_refl eq_refl
           ltac:(apply framed_backend_msg; simpl; lia)
           eq_refl eq_refl eq_refl eq_refl eq_refl).
Defined.

(** * The transaction status *)

(** X17.  After a query operation that returns without a socket
    failure, [IsInTransaction] tells what the last ReadyForQuery said:
    it is true exactly when the status byte of that frame is one of the
    two in-transaction statuses. *)
Theorem IsInTransaction_after_call {Value : Type} (value2bytes : Value -> list byte)
        (InTransaction InFailedTransaction : byte)
        (pi pi' : PgIO) (err : option error) :
  query_call value2bytes pi err pi' ->
  no_socket_failure err ->
  exists rfq,
    last (network.received (network.conn pi')) = Some rfq /\
    is_id network.IdentifiesReadyForQuery rfq = true /\
    (network.IsInTransaction InTransaction InFailedTransaction pi' = true <->
     payload_byte rfq = Some InTransaction \/
     payload_byte rfq = Some InFailedTransaction).
Proof.
  intros Hcall Hok.
  apply query_call_outcome in Hcall as [out Hout].
  destruct (call_outcome_drained _ _ _ _ Hout Hok) as (ms & rfq & _ & Hlast & Hz & Hb).
  exists rfq. split; [exact Hlast|]. split; [exact Hz|].
  rewrite Hb. unfold network.IsInTransaction. rewrite orb_true_iff.
  split.
  - intros [H|H]; apply Byte.byte_dec_bl in H; rewrite H; auto.
  - intros [H|H]; injection H as ->;
      rewrite (Byte.byte_dec_lb eq_refl); auto using orb_true_r.
Qed.

Lemma IsInTransaction_after_call_witness :
  exists r pi',
    network.ParseQuery text_value "h" example_args select_session = Some (r, None, pi') /\
    network.IsInTransaction "T"%byte "E"%byte pi' = true /\
    network.IsInTransaction "T"%byte "E"%byte select_session = false.
Proof.
  assert (H : network.ParseQuery text_value "h" example_args select_session
              = ltac:(let r := eval vm_compute in
                        (network.ParseQuery text_value "h" example_args select_session)
                      in exact r))
    by (vm_compute; reflexivity).
  eexists (_, _), _. split; [exact H|]. split; [|reflexivity].
  destruct (IsInTransaction_after_call text_value "T"%byte "E"%byte _ _ _
              (call_ParseQuery text_value _ _ _ "h" example_args _ _ H) I)
    as (rfq & Hlast & _ & Hiff).
  apply Hiff. left. injection Hlast as <-. reflexivity.
Defined.

(** * The statement cache over time *)

Lemma call_outcome_flag_ok (pi pi' : PgIO) (out : list PgMessage) (err : option error) :
  call_outcome pi out err pi' -> no_socket_failure err -> network.IOError pi' = None.
Proof.
  intros [e pi1 Hs|e ms pi1 pi2 Hs Hr|init rfq b pi1 pi2 Hs Hr Hinit Hz Hb] Hok.
  - apply send_inv in Hs as (wf & _ & _ & He).
    simpl in Hok. rewrite (He e eq_refl) in Hok. discriminate.
  - apply receivePgMsg_inv in Hr as (inb & ioe & _ & _ & He & _).
    simpl in Hok. rewrite He in Hok. discriminate.
  - apply send_inv in Hs as (wf & -> & _ & _).
    apply receivePgMsg_inv in Hr as (inb & ioe & -> & _ & Hr).
    destruct Hr as [-> _]. reflexivity.
Qed.

(** X18.  [PgStmt.Close] sends Close and Sync for the statement but
    does not take it out of the cache: the cache is as it was, and
    unless the socket failed, preparing the same text again hands out
    the closed statement from the cache, with a nil error and without
    sending a Parse. *)
Theorem Close_keeps_statement_cached (conn conn' : driver.PgConn) (query : string)
        (st : driver.PgStmt) (err : option error) :
  network.IOError (driver.io conn) = None ->
  driver.stmts conn !! driver.statement_name query = Some st ->
  driver.Close st conn = Some (err, conn') ->
  network.CloseParse (driver.Identifies st) (driver.io conn)
  = Some (err, driver.io conn') /\
  driver.stmts conn' = driver.stmts conn /\
  (no_socket_failure err ->
   driver.NewPgStmt conn' query = Some (Some st, None, conn')).
Proof.
  intros Hflag Hl. unfold driver.Close. rewrite Hflag. simpl.
  destruct (network.CloseParse _ _) as [[e pi]|] eqn:HC; simpl;
    [|intros H; discriminate H].
  intros H; injection H as <- <-. simpl.
  split; [reflexivity|]. split; [reflexivity|].
  intros Hok. apply NewPgStmt_cached; [|exact Hl]. simpl.
  apply CloseParse_outcome in HC. eapply call_outcome_flag_ok; eauto.
Qed.

Lemma Close_keeps_statement_cached_witness :
  exists st conn1 conn2,
    driver.NewPgStmt (example_conn prepare_close_session) example_sql
    = Some (Some st, None, conn1) /\
    driver.Close st conn1 = Some (None, conn2) /\
    length (network.written (network.conn (driver.io conn2))) = 2%nat /\
    driver.NewPgStmt conn2 example_sql = Some (Some st, None, conn2).
Proof.
  assert (H1 : driver.NewPgStmt (example_conn prepare_close_session) example_sql
               = ltac:(let r := eval vm_compute in
                         (driver.NewPgStmt (example_conn prepare_close_session) example_sql)
                       in exact r))
    by (vm_compute; reflexivity).
  eexists _, _, _. split; [exact H1|].
  match type of H1 with
  | _ = Some (Some ?st, _, ?c1) =>
      assert (H2 : driver.Close st c1
                   = ltac:(let r := eval vm_compute in (driver.Close st c1) in exact r))
        by (vm_compute; reflexivity);
      destruct (Close_keeps_statement_cached c1 _ example_sql st None
                  eq_refl ltac:(vm_compute; reflexivity) H2) as (_ & _ & Hagain)
  end.
  split; [exact H2|]. split; [reflexivity|]. exact (Hagain I).
Defined.

(** X19.  The cache is keyed by the checksum alone.  When two texts
    have the same CRC-32 and the first has been prepared, preparing the
    second sends nothing and returns the statement of the first, whose
    SQL is the first text. *)
Theorem NewPgStmt_checksum_collision (conn conn1 : driver.PgConn) (q1 q2 : string)
        (st : driver.PgStmt) :
  crc32.ChecksumIEEE (bytes_of q2) = crc32.ChecksumIEEE (bytes_of q1) ->
  driver.stmts conn !! driver.statement_name q1 = None ->
  driver.NewPgStmt conn q1 = Some (Some st, None, conn1) ->
  driver.Sql st = q1 /\
  driver.NewPgStmt conn1 q2 = Some (Some st, None, conn1).
Proof.
  intros Hcrc Hmiss. unfold driver.NewPgStmt at 1.
  destruct (network.IOError (driver.io conn)) as [e|] eqn:Hflag; simpl;
    [intros H; discriminate H|].
  rewrite Hmiss.
  destruct (network.Parse _ _ _) as [[[[cols ps] e] pi]|] eqn:HP; simpl;
    [|intros H; discriminate H].
  intros H; injection H as <- -> <-. split; [reflexivity|].
  apply NewPgStmt_cached.
  - simpl. apply Parse_outcome in HP. eapply call_outcome_flag; eauto.
  - simpl. unfold driver.statement_name. rewrite Hcrc. apply lookup_insert_eq.
Qed.

Lemma NewPgStmt_checksum_collision_witness :
  exists st conn1,
    driver.NewPgStmt (example_conn prepared_session) "plumless"
    = Some (Some st, None, conn1) /\
    driver.Sql st = "plumless" /\
    driver.NewPgStmt conn1 "buckeroo" = Some (Some st, None, conn1).
Proof.
  assert (H1 : driver.NewPgStmt (example_conn prepared_session) "plumless"
               = ltac:(let r := eval vm_compute in
                         (driver.NewPgStmt (example_conn prepared_session) "plumless")
                       in exact r))
    by (vm_compute; reflexivity).
  eexists _, _. split; [exact H1|].
  exact (NewPgStmt_checksum_collision (example_conn prepared_session) _
           "plumless" "buckeroo" _
           ltac:(vm_compute; reflexivity) ltac:(vm_compute; reflexivity) H1).
Defined.

(** What one call of the statement layer does to the cache. *)
Lemma driver_call_cache {Value : Type} (value2bytes : Value -> list byte)
      (conn conn' : driver.PgConn) :
  driver_call value2bytes conn conn' ->
  driver.stmts conn' = driver.stmts conn \/
  exists query st,
    driver.stmts conn !! driver.statement_name query = None /\
    driver.Identifies st = driver.statement_name query /\
    driver.Sql st = query /\
    driver.stmts conn' = <[driver.statement_name query := st]> (driver.stmts conn).
Proof.
  intros [query r err H|query r err H|s err H|s args r err H|s args pr err H].
  - unfold driver.NewPgStmt in H.
    destruct (negb _); [injection H as _ _ <-; now left|].
    destruct (driver.stmts conn !! driver.statement_name query) as [st|] eqn:Hl;
      [injection H as _ _ <-; now left|].
    destruct (network.Parse _ _ _) as [[[[cols ps] e] pi]|]; simpl in H;
      [|discriminate H].
    injection H as _ _ <-. right. eexists query, _. simpl. repeat split; auto.
  - unfold driver.NewNoPortalPgStmt in H.
    destruct (negb _); [injection H as _ _ <-; now left|].
    destruct (network.Parse _ _ _) as [[[[cols ps] e] pi]|]; simpl in H;
      [|discriminate H].
    injection H as _ _ <-. now left.
  - unfold driver.Close in H.
    destruct (negb _); [injection H as _ <-; now left|].
    destruct (network.CloseParse _ _) as [[e pi]|]; simpl in H; [|discriminate H].
    injection H as _ <-. now left.
  - unfold driver.Exec in H.
    destruct (negb _); [injection H as _ _ <-; now left|].
    destruct (network.ParseExec _ _ _ _) as [[[n e] pi]|]; simpl in H;
      [|discriminate H].
    injection H as _ _ <-. now left.
  - unfold driver.Query in H.
    destruct (network.ParseQuery _ _ _ _) as [[[[fl d] e] pi]|]; simpl in H;
      [|discriminate H].
    injection H as _ _ <-. now left.
Qed.

(** X20.  Over any sequence of calls of the statement layer
    ([NewPgStmt], [NewNoPortalPgStmt], [Close], [Exec], [Query]) the
    cache only grows: a cached statement is never taken out or
    replaced, a cache in which every statement is filed under its own
    name stays so, and every statement that has come in is filed under
    the name made of the checksum of its own SQL text and carries that
    name. *)
Theorem cache_only_grows {Value : Type} (value2bytes : Value -> list byte)
        (conn conn' : driver.PgConn) :
  rtc (driver_call value2bytes) conn conn' ->
  (forall id st, driver.stmts conn !! id = Some st ->
                 driver.stmts conn' !! id = Some st) /\
  (stmts_wf conn -> stmts_wf conn') /\
  (forall id st,
      driver.stmts conn' !! id = Some st ->
      driver.stmts conn !! id = Some st \/
      (id = driver.statement_name (driver.Sql st) /\ driver.Identifies st = id)).
Proof.
  induction 1 as [conn|conn conn1 conn' Hcall _ (IHkeep & IHwf & IHnew)].
  - repeat split; auto.
  - apply driver_call_cache in Hcall
      as [Heq|(query & st0 & Hmiss & Hname & Hsql & Heq)].
    + rewrite Heq in *. unfold stmts_wf in *. rewrite Heq in *. repeat split; auto.
    + split; [|split].
      * intros id st Hl. apply IHkeep. rewrite Heq.
        rewrite lookup_insert_ne; [exact Hl|]. intros <-. congruence.
      * intros Hwf. apply IHwf. intros id st. rewrite Heq.
        destruct (decide (driver.statement_name query = id)) as [<-|Hne].
        -- rewrite lookup_insert_eq. intros H; now injection H as <-.
        -- rewrite lookup_insert_ne by assumption. apply Hwf.
      * intros id st Hl. destruct (IHnew id st Hl) as [H1|H1]; [|now right].
        rewrite Heq in H1.
        destruct (decide (driver.statement_name query = id)) as [<-|Hne].
        -- rewrite lookup_insert_eq in H1. injection H1 as <-.
           right. rewrite Hsql. auto.
        -- rewrite lookup_insert_ne in H1 by assumption. now left.
Qed.

Lemma cache_only_grows_witness :
  exists st conn1 conn2,
    driver.NewPgStmt (example_conn prepare_close_session) example_sql
    = Some (Some st, None, conn1) /\
    driver.Close st conn1 = Some (None, conn2) /\
    driver.stmts conn2 !! driver.statement_name example_sql = Some st.
Proof.
  assert (H1 : driver.NewPgStmt (example_conn prepare_close_session) example_sql
               = ltac:(let r := eval vm_compute in
                         (driver.NewPgStmt (example_conn prepare_close_session) example_sql)
                       in exact r))
    by (vm_compute; reflexivity).
  eexists _, _, _. split; [exact H1|].
  match type of H1 with
  | _ = Some (Some ?st, _, ?c1) =>
      assert (H2 : driver.Close st c1
                   = ltac:(let r := eval vm_compute in (driver.Close st c1) in exact r))
        by (vm_compute; reflexivity);
      pose proof (proj1 (cache_only_grows text_value c1 _
                           (rtc_once _ _ (stmt_Close text_value c1 _ st None H2)))
                        (driver.statement_name example_sql) st
                        ltac:(vm_compute; reflexivity)) as Hkept
  end.
  split; [exact H2|exact Hkept].
Defined.

(** * A response that breaks off *)

Lemma ParseExec_cut_short {Value : Type} (value2bytes : Value -> list byte)
      (name : string) (args : list (option Value)) (pi : PgIO)
      (init : list PgMessage) (m : PgMessage) (cut tail : list byte) :
  write_ok (network.conn pi) = true ->
  Forall framed init ->
  Forall (fun m => is_id network.IdentifiesReadyForQuery m = false) init ->
  framed m -> wire m = cut ++ tail -> tail <> [] ->
  network.inbound (network.conn pi) = concat (map wire init) ++ cut ->
  exists pi',
    network.ParseExec value2bytes name args pi = Some (0, Some (cut_error cut), pi') /\
    network.IOError pi' = match cut with
                          | [] => Some io_EOF
                          | _ :: _ => None
                          end.
Proof.
  intros Hw Hfr Hnz Hm Hwire Ht Hin. unfold network.ParseExec.
  destruct (network.send _ pi) as [e pi1] eqn:Hs.
  pose proof Hs as Hs'. apply send_inv in Hs' as (wf & -> & Hok & _).
  apply Hok in Hw as ->. unfold network.receivePgMsg.
  destruct (receive_loop_cut network.IdentifiesReadyForQuery m cut tail Hm Hwire Ht
              init (length (concat (map wire init) ++ cut)) []
              (after_writing pi
                 (concat (map network.encode
                            [network.bind_message value2bytes name args;
                             network.execute_message;
                             network.NewPgMessage network.IdentifiesSync])) wf None)
              Hfr Hnz)
    as (pi' & Hloop & _ & _ & Hio).
  - exact Hin.
  - rewrite length_app. pose proof (concat_wire_length init). lia.
  - simpl network.inbound. rewrite Hin, Hloop.
    exists pi'. split; [reflexivity|]. exact Hio.
Qed.

(** X21.  The response to [PgStmt.Exec] breaks off before its
    ReadyForQuery.  The call returns the socket error and the count 0.
    If the stream ended between two frames the error flag is set; if it
    ended inside a frame the flag is still nil, so the guard of the
    statement layer does not refuse the next call: [NewPgStmt] does not
    answer with the bad-connection error. *)
Theorem Exec_cut_short {Value : Type} (value2bytes : Value -> list byte)
        (s : driver.PgStmt) (args : list (option Value)) (conn : driver.PgConn)
        (init : list PgMessage) (m : PgMessage) (cut tail : list byte) :
  network.IOError (driver.io conn) = None ->
  write_ok (network.conn (driver.io conn)) = true ->
  Forall framed init ->
  Forall (fun m => is_id network.IdentifiesReadyForQuery m = false) init ->
  framed m -> wire m = cut ++ tail -> tail <> [] ->
  network.inbound (network.conn (driver.io conn)) = concat (map wire init) ++ cut ->
  exists conn',
    driver.Exec value2bytes s args conn = Some (Some 0, Some (cut_error cut), conn') /\
    socket_failure (cut_error cut) = true /\
    network.IOError (driver.io conn') = match cut with
                                        | [] => Some io_EOF
                                        | _ :: _ => None
                                        end /\
    (cut <> [] ->
     forall query, driver.NewPgStmt conn' query <> Some (None, Some ErrBadConn, conn')).
Proof.
  intros Hflag Hw Hfr Hnz Hm Hwire Ht Hin.
  destruct (ParseExec_cut_short value2bytes (driver.Identifies s) args (driver.io conn)
              init m cut tail Hw Hfr Hnz Hm Hwire Ht Hin) as (pi' & HP & Hio).
  exists (driver.set_io conn pi'). unfold driver.Exec. rewrite Hflag, HP. simpl.
  split; [reflexivity|].
  split; [unfold cut_error; now destruct (length cut <=? 4)%nat|].
  split; [exact Hio|].
  intros Hcut query. unfold driver.NewPgStmt. simpl.
  destruct cut as [|c cut]; [now elim Hcut|]. rewrite Hio. simpl.
  destruct (driver.stmts conn !! driver.statement_name query); [discriminate|].
  destruct (network.Parse _ _ _) as [[[[cols ps] e] pi2]|]; simpl; discriminate.
Qed.

Lemma Exec_cut_short_witness :
  exists conn',
    driver.Exec text_value example_stmt example_args (example_conn broken_session)
    = Some (Some 0, Some io_ErrUnexpectedEOF, conn') /\
    network.IOError (driver.io conn') = None.
Proof.
  destruct (Exec_cut_short text_value example_stmt example_args
              (example_conn broken_session) [bind_complete] (command_complete "UPDATE 3")
              (firstn 7 (wire (command_complete "UPDATE 3")))
              (skipn 7 (wire (command_complete "UPDATE 3"))))
    as (conn' & HE & _ & Hio & _).
  - reflexivity.
  - reflexivity.
  - apply List.Forall_cons; [apply framed_backend_msg; simpl; lia|apply List.Forall_nil].
  - apply List.Forall_cons; [reflexivity|apply List.Forall_nil].
  - apply framed_backend_msg. simpl. lia.
  - reflexivity.
  - discriminate.
  - reflexivity.
  - exists conn'. split; [exact HE|exact Hio].
Defined.

(** * Preparing and executing *)

(** X22.  Preparing a text and executing the statement, on a
    connection without error flag, with an empty cache entry and a
    socket on which no write fails, when the server answers the first
    batch with ParseComplete, ParameterDescription, a description and
    ReadyForQuery and the second with BindComplete, a CommandComplete
    of verb and numeral, and ReadyForQuery: [NewPgStmt] returns the
    statement and reads exactly the first response, [Exec] on that
    statement returns the value of the numeral and reads exactly the
    second; two buffers are written, the Parse batch and the Bind
    batch, both naming the statement by the checksum of the text, and
    the statement is in the cache. *)
Theorem prepare_then_execute {Value : Type} (value2bytes : Value -> list byte)
        (conn : driver.PgConn) (query : string) (args : list (option Value))
        (pc desc rfq1 bc rfq2 : PgMessage) (oids : list Z)
        (cols : list network.PgColumn) (verb : string) (ds : list Z)
        (status1 status2 : byte) (rest : list byte) :
  network.IOError (driver.io conn) = None ->
  driver.stmts conn !! driver.statement_name query = None ->
  network.closed (network.conn (driver.io conn)) = false ->
  network.wfaults (network.conn (driver.io conn)) = [] ->
  framed pc -> is_id network.IdentifiesParseComplete pc = true ->
  oids_fit oids ->
  framed desc -> describes desc cols ->
  framed rfq1 -> is_id network.IdentifiesReadyForQuery rfq1 = true ->
  payload_byte rfq1 = Some status1 ->
  framed bc -> is_id network.IdentifiesBindComplete bc = true ->
  without " " verb -> nul_free verb ->
  ds <> [] -> Forall is_digit ds -> numeral_value ds <= strconv.maxInt64 ->
  framed (command_complete (verb +:+ " " +:+ numeral ds)) ->
  framed rfq2 -> is_id network.IdentifiesReadyForQuery rfq2 = true ->
  payload_byte rfq2 = Some status2 ->
  network.inbound (network.conn (driver.io conn))
  = (wire pc ++ wire (parameter_description oids) ++ wire desc ++ wire rfq1)
      ++ (wire bc ++ wire (command_complete (verb +:+ " " +:+ numeral ds))
            ++ wire rfq2)
      ++ rest ->
  exists st conn1 conn2,
    driver.NewPgStmt conn query = Some (Some st, None, conn1) /\
    network.inbound (network.conn (driver.io conn1))
    = (wire bc ++ wire (command_complete (verb +:+ " " +:+ numeral ds)) ++ wire rfq2)
        ++ rest /\
    driver.Exec value2bytes st args conn1
    = Some (Some (numeral_value ds), None, conn2) /\
    network.written (network.conn (driver.io conn2))
    = network.written (network.conn (driver.io conn))
        ++ [concat (map network.encode
                        (parse_batch (driver.statement_name query) query));
            concat (map network.encode
                        (bind_batch value2bytes (driver.statement_name query) args))] /\
    network.inbound (network.conn (driver.io conn2)) = rest /\
    network.txStatus (driver.io conn2) = status2 /\
    driver.stmts conn2 !! driver.statement_name query = Some st.
Proof.
  intros Hflag Hmiss Hcl Hwf Hfp Hpc Ho Hfd Hdesc Hfz1 Hz1 Hb1
         Hfb Hbc Hverb Hvn Hne Hds Hmax Hfc Hfz2 Hz2 Hb2 Hin.
  assert (Hw : write_ok (network.conn (driver.io conn)) = true).
  { unfold write_ok. now rewrite Hcl, Hwf. }
  set (tag := verb +:+ " " +:+ numeral ds) in *.
  set (rest1 := (wire bc ++ wire (command_complete tag) ++ wire rfq2) ++ rest) in *.
  set (st := driver.mkPgStmt (driver.statement_name query) query cols oids).
  set (pi1 := after_exchange (driver.io conn)
                (parse_batch (driver.statement_name query) query)
                [pc; parameter_description oids; desc; rfq1] rest1 status1).
  assert (HP : network.Parse (driver.statement_name query) query (driver.io conn)
               = Some (cols, oids, None, pi1)).
  { apply Parse_described; auto. rewrite Hin. now rewrite <- !app_assoc. }
  assert (HE : network.ParseExec value2bytes (driver.statement_name query) args pi1
               = Some (numeral_value ds, None,
                       after_exchange pi1
                         (bind_batch value2bytes (driver.statement_name query) args)
                         [bc; command_complete tag; rfq2] rest status2)).
  { apply ParseExec_counted; auto.
    - unfold pi1, after_exchange, write_ok. simpl. now rewrite Hcl, Hwf.
    - unfold pi1, after_exchange, rest1.
      cbn [network.inbound network.conn network.set_txStatus after_reading].
      now rewrite <- !app_assoc. }
  exists st, (driver.mkPgConn pi1 (<[driver.statement_name query := st]> (driver.stmts conn))).
  eexists. split; [|split; [|split]].
  - unfold driver.NewPgStmt. rewrite Hflag, Hmiss. simpl. now rewrite HP.
  - reflexivity.
  - unfold driver.Exec. cbn [driver.io driver.Identifies st].
    change (network.IOError pi1) with (@None error). simpl negb. cbn iota.
    rewrite HE. reflexivity.
  - simpl. rewrite <- app_assoc.
    split; [reflexivity|]. split; [reflexivity|]. split; [reflexivity|].
    apply lookup_insert_eq.
Qed.

Lemma prepare_then_execute_witness :
  exists st conn1 conn2,
    driver.NewPgStmt (example_conn prepare_execute_session) example_sql
    = Some (Some st, None, conn1) /\
    driver.Exec text_value st example_args conn1 = Some (Some 3, None, conn2) /\
    length (network.written (network.conn (driver.io conn2))) = 2%nat /\
    network.inbound (network.conn (driver.io conn2)) = [].
Proof.
  destruct (prepare_then_execute text_value (example_conn prepare_execute_session)
              example_sql example_args
              parse_complete no_data (ready_for_query "I")
              bind_complete (ready_for_query "I") [23; 23] [] "UPDATE" [3]
              "I"%byte "I"%byte [])
    as (st & conn1 & conn2 & H1 & _ & H2 & Hwr & Hin & _).
  - reflexivity.
  - reflexivity.
  - reflexivity.
  - reflexivity.
  - apply framed_backend_msg. simpl. lia.
  - reflexivity.
  - split; [simpl; lia|]. repeat (apply List.Forall_cons; [lia|]). apply List.Forall_nil.
  - apply framed_backend_msg. simpl. lia.
  - right. split; reflexivity.
  - apply framed_backend_msg. simpl. lia.
  - reflexivity.
  - reflexivity.
  - apply framed_backend_msg. simpl. lia.
  - reflexivity.
  - repeat (apply List.Forall_cons; [discriminate|]). apply List.Forall_nil.
  - repeat (apply List.Forall_cons; [discriminate|]). apply List.Forall_nil.
  - discriminate.
  - repeat (apply List.Forall_cons; [unfold is_digit; lia|]). apply List.Forall_nil.
  - vm_compute. intros H; discriminate H.
  - apply framed_backend_msg. simpl. lia.
  - apply framed_backend_msg. simpl. lia.
  - reflexivity.
  - reflexivity.
  - reflexivity.
  - exists st, conn1, conn2. split; [exact H1|]. split; [exact H2|].
    split; [rewrite Hwr; reflexivity|exact Hin].
Defined.

(** * The error flag after a call *)

Lemma read_frame_flag (pi pi' : PgIO) (r : PgMessage + error) :
  network.read_frame pi = (r, pi') ->
  network.txStatus pi' = network.txStatus pi /\
  match r with
  | inl _ => network.IOError pi' = network.IOError pi
  | inr e => network.IOError pi' = network.IOError pi \/ network.IOError pi' = Some e
  end.
Proof.
  destruct r as [msg|e]; intros H.
  - apply read_frame_inl in H as (inb & -> & _). now split.
  - apply read_frame_inr in H as (_ & inb & ioe & -> & [->| ->]); simpl; auto.
Qed.

Lemma receive_loop_flag (budget : nat) (sep : byte) :
  forall (ms : list PgMessage) (pi : PgIO) ms' err pi',
    network.receive_loop budget sep ms pi = ((ms', err), pi') ->
    network.txStatus pi' = network.txStatus pi /\
    (network.IOError pi' = network.IOError pi \/ network.IOError pi' = err).
Proof.
  induction budget as [|budget IH]; intros ms pi ms' err pi'; simpl;
    destruct (network.read_frame pi) as [[msg|e] pi1] eqn:Hrf;
    apply read_frame_flag in Hrf as [Htx Hio].
  - destruct (Byte.eqb _ _); intros H; injection H as _ _ <-; auto.
  - intros H; injection H as _ <- <-. split; [exact Htx|]. destruct Hio; auto.
  - destruct (Byte.eqb _ _); [intros H; injection H as _ _ <-; auto|].
    intros H. apply IH in H as [Htx' Hio']. rewrite Htx', Htx, <- Hio. auto.
  - intros H; injection H as _ <- <-. split; [exact Htx|]. destruct Hio; auto.
Qed.

Lemma last_error_server (l : list PgMessage) :
  no_socket_failure (last_error l None).
Proof.
  assert (H : forall e, no_socket_failure e -> no_socket_failure (last_error l e)).
  { induction l as [|v l IH]; intros e He; [exact He|].
    unfold last_error in *. simpl. apply IH.
    destruct (is_id network.IdentifiesErrorResponse v); [reflexivity|exact He]. }
  apply H. exact I.
Qed.

Lemma call_outcome_after (pi pi' : PgIO) (out : list PgMessage) (err : option error) :
  call_outcome pi out err pi' ->
  (network.IOError pi' = None \/ network.IOError pi' = err) /\
  (no_socket_failure err -> network.IOError pi' = None) /\
  (forall e, err = Some e -> socket_failure e = true ->
             network.txStatus pi' = network.txStatus pi).
Proof.
  intros Hcall. split; [|split].
  - destruct Hcall as [e pi1 Hs|e ms pi1 pi2 Hs Hr|init rfq b pi1 pi2 Hs Hr Hinit Hz Hb].
    + apply send_inv in Hs as (wf & -> & _). now right.
    + apply send_inv in Hs as (wf & -> & _).
      apply receive_loop_flag in Hr as [_ Hio]. simpl in Hio. destruct Hio; auto.
    + apply send_inv in Hs as (wf & -> & _).
      apply receive_loop_flag in Hr as [_ Hio]. simpl in *. destruct Hio; auto.
  - intros Hok. eapply call_outcome_flag_ok; eauto.
  - intros x Hx He.
    destruct Hcall as [e pi1 Hs|e ms pi1 pi2 Hs Hr|init rfq b pi1 pi2 Hs Hr Hinit Hz Hb].
    + apply send_inv in Hs as (wf & -> & _). reflexivity.
    + apply send_inv in Hs as (wf & -> & _).
      apply receive_loop_flag in Hr as [Htx _]. exact Htx.
    + pose proof (last_error_server (init ++ [rfq])) as Hsrv.
      rewrite Hx in Hsrv. simpl in Hsrv. congruence.
Qed.

(** X23.  The error flag after a query operation of the engine: it is
    nil, or it is the error that the call returned; an error left by an
    earlier call never stays.  It is nil whenever the call returned nil
    or an error of the server.  And a call that returns a socket failure
    leaves the transaction status as it was. *)
Theorem error_flag_after_call {Value : Type} (value2bytes : Value -> list byte)
        (pi pi' : PgIO) (err : option error) :
  query_call value2bytes pi err pi' ->
  (network.IOError pi' = None \/ network.IOError pi' = err) /\
  (no_socket_failure err -> network.IOError pi' = None) /\
  (forall e, err = Some e -> socket_failure e = true ->
             network.txStatus pi' = network.txStatus pi).
Proof.
  intros Hcall. apply query_call_outcome in Hcall as [out Hout].
  revert Hout. apply call_outcome_after.
Qed.

Lemma error_flag_after_call_witness :
  exists n pi',
    network.ParseExec text_value "h" example_args
                      (network.set_IOError rejecting_session (Some io_EOF))
    = Some (n, Some (network.ParseError error_response), pi') /\
    network.IOError pi' = None.
Proof.
  assert (H : network.ParseExec text_value "h" example_args
                (network.set_IOError rejecting_session (Some io_EOF))
              = ltac:(let r := eval vm_compute in
                        (network.ParseExec text_value "h" example_args
                           (network.set_IOError rejecting_session (Some io_EOF)))
                      in exact r))
    by (vm_compute; reflexivity).
  eexists _, _. split; [exact H|].
  exact (proj1 (proj2 (error_flag_after_call text_value _ _ _
                         (call_ParseExec text_value _ _ _ "h" example_args _ H)))
               eq_refl).
Defined.

(** * The guard that is not there *)

(** X24.  [PgStmt.Query] does not test the error flag: on a connection
    whose flag is set it does what it does on the same connection
    without the flag (it writes its Bind batch and reads the response),
    where [PgStmt.Exec] on that connection returns the bad-connection
    error and leaves the connection as it was. *)
Theorem Query_without_guard {Value : Type} (value2bytes : Value -> list byte)
        (s : driver.PgStmt) (args : list (option Value)) (conn : driver.PgConn)
        (e : error) :
  driver.Query value2bytes s args
    (driver.set_io conn (network.set_IOError (driver.io conn) (Some e)))
  = driver.Query value2bytes s args conn /\
  driver.Exec value2bytes s args
    (driver.set_io conn (network.set_IOError (driver.io conn) (Some e)))
  = Some (None, Some ErrBadConn,
          driver.set_io conn (network.set_IOError (driver.io conn) (Some e))).
Proof.
  split; [|reflexivity].
  unfold driver.Query, network.ParseQuery. cbn [driver.io driver.set_io].
  rewrite send_ignores_flag.
  destruct (network.send _ (driver.io conn)) as [[x|] pi1]; [reflexivity|].
  destruct (network.receivePgMsg _ pi1) as [[list [x|]] pi2]; [reflexivity|].
  destruct (network.range _ _ list) as [[[[fl d] x] p]|]; reflexivity.
Qed.

(** * The unnamed statement *)

(** X25.  [NewNoPortalPgStmt] does not look into the cache and does not
    file its statement: even when the text is cached, it sends a Parse
    batch for the unnamed statement (the empty name), and on the answer
    of a server that accepts it returns a new statement with the empty
    name, the described parameter types and columns, and a nil error;
    the cache is as it was. *)
Theorem NewNoPortalPgStmt_unnamed (conn : driver.PgConn) (query : string)
        (pc desc rfq : PgMessage) (oids : list Z) (cols : list network.PgColumn)
        (status : byte) (rest : list byte) :
  network.IOError (driver.io conn) = None ->
  write_ok (network.conn (driver.io conn)) = true ->
  framed pc -> is_id network.IdentifiesParseComplete pc = true ->
  oids_fit oids ->
  framed desc -> describes desc cols ->
  framed rfq -> is_id network.IdentifiesReadyForQuery rfq = true ->
  payload_byte rfq = Some status ->
  network.inbound (network.conn (driver.io conn))
  = wire pc ++ wire (parameter_description oids) ++ wire desc ++ wire rfq ++ rest ->
  exists conn',
    driver.NewNoPortalPgStmt conn query
    = Some (Some (driver.mkPgStmt EmptyString query cols oids), None, conn') /\
    driver.stmts conn' = driver.stmts conn /\
    network.written (network.conn (driver.io conn'))
    = network.written (network.conn (driver.io conn))
        ++ [concat (map network.encode (parse_batch EmptyString query))] /\
    network.inbound (network.conn (driver.io conn')) = rest.
Proof.
  intros Hflag Hw Hfp Hpc Ho Hfd Hdesc Hfz Hz Hb Hin.
  eexists. unfold driver.NewNoPortalPgStmt. rewrite Hflag. simpl.
  rewrite (Parse_described EmptyString query (driver.io conn)
             pc desc rfq oids cols status rest) by assumption.
  simpl. repeat split.
Qed.

Lemma NewNoPortalPgStmt_unnamed_witness :
  exists st conn1 conn2,
    driver.NewPgStmt (example_conn prepare_execute_session) example_sql
    = Some (Some st, None, conn1) /\
    driver.stmts conn1 !! driver.statement_name example_sql = Some st /\
    driver.NewNoPortalPgStmt
      (driver.set_io conn1
         (session (wire parse_complete ++ wire (parameter_description [23; 23]) ++
                   wire no_data ++ wire (ready_for_query "I")) []))
      example_sql
    = Some (Some (driver.mkPgStmt EmptyString example_sql [] [23; 23]), None, conn2) /\
    driver.stmts conn2 = driver.stmts conn1.
Proof.
  assert (H1 : driver.NewPgStmt (example_conn prepare_execute_session) example_sql
               = ltac:(let r := eval vm_compute in
                         (driver.NewPgStmt (example_conn prepare_execute_session)
                                           example_sql)
                       in exact r))
    by (vm_compute; reflexivity).
  eexists _, _. 
  match type of H1 with
  | _ = Some (Some ?st, _, ?c1) =>
      destruct (NewNoPortalPgStmt_unnamed
                  (driver.set_io c1
                     (session (wire parse_complete ++
                               wire (parameter_description [23; 23]) ++
                               wire no_data ++ wire (ready_for_query "I")) []))
                  example_sql parse_complete no_data (ready_for_query "I")
                  [23; 23] [] "I"%byte [])
        as (conn2 & H2 & Hkeep & _)
  end.
  - reflexivity.
  - reflexivity.
  - apply framed_backend_msg. simpl. lia.
  - reflexivity.
  - split; [simpl; lia|]. repeat (apply List.Forall_cons; [lia|]). apply List.Forall_nil.
  - apply framed_backend_msg. simpl. lia.
  - right. split; reflexivity.
  - apply framed_backend_msg. simpl. lia.
  - reflexivity.
  - reflexivity.
  - reflexivity.
  - exists conn2. split; [exact H1|]. split; [vm_compute; reflexivity|].
    split; [exact H2|exact Hkeep].
Defined.

(** * What the start-up has set *)

Lemma call_outcome_session (pi pi' : PgIO) (out : list PgMessage) (err : option error) :
  call_outcome pi out err pi' ->
  network.ServerConf pi' = network.ServerConf pi /\
  network.Location pi' = network.Location pi /\
  network.serverPid pi' = network.serverPid pi /\
  network.backendKey pi' = network.backendKey pi /\
  network.dsn pi' = network.dsn pi.
Proof.
  intros [e pi1 Hs|e ms pi1 pi2 Hs Hr|init rfq b pi1 pi2 Hs Hr Hinit Hz Hb];
    apply send_inv in Hs as (wf & -> & _); try (repeat split; reflexivity);
    apply receivePgMsg_inv in Hr as (inb & ioe & -> & _); repeat split; reflexivity.
Qed.

(** X26.  What the start-up has stored is fixed afterwards: no query
    operation of the engine changes the parameter map, the location,
    the process id, the key or the data source, whatever the server
    sends, a ParameterStatus included, and however the call ends. *)
Theorem session_parameters_fixed {Value : Type} (value2bytes : Value -> list byte)
        (pi pi' : PgIO) (err : option error) :
  query_call value2bytes pi err pi' ->
  network.ServerConf pi' = network.ServerConf pi /\
  network.Location pi' = network.Location pi /\
  network.serverPid pi' = network.serverPid pi /\
  network.backendKey pi' = network.backendKey pi /\
  network.dsn pi' = network.dsn pi.
Proof.
  intros Hcall. apply query_call_outcome in Hcall as [out Hout].
  revert Hout. apply call_outcome_session.
Qed.

Lemma session_parameters_fixed_witness :
  exists r pi',
    network.QueryNoArgs "SET TimeZone = 'UTC'"
      (session (wire (parameter_status ("TimeZone", "UTC")) ++
                wire (command_complete "SET") ++ wire (ready_for_query "I")) [])
    = Some (r, None, pi') /\
    network.ServerConf pi' = ∅ /\
    network.Location pi' = None.
Proof.
  assert (H : network.QueryNoArgs "SET TimeZone = 'UTC'"
                (session (wire (parameter_status ("TimeZone", "UTC")) ++
                          wire (command_complete "SET") ++
                          wire (ready_for_query "I")) [])
              = ltac:(let r := eval vm_compute in
                        (network.QueryNoArgs "SET TimeZone = 'UTC'"
                           (session (wire (parameter_status ("TimeZone", "UTC")) ++
                                     wire (command_complete "SET") ++
                                     wire (ready_for_query "I")) []))
                      in exact r))
    by (vm_compute; reflexivity).
  eexists (_, _, _), _. split; [exact H|].
  destruct (session_parameters_fixed text_value _ _ _
              (call_QueryNoArgs text_value _ _ _ _ _ _ _ H)) as (Hconf & Hloc & _).
  split; [exact Hconf|exact Hloc].
Defined.

(** * A start-up that cannot write *)


